(** * The self-organizing knowledge tree of ai-framework, in Rocq

    A shallow embedding of [knowledge.ts] (the node model, the in-memory
    node store and the [Knowledge] engine with [find], [update] and
    [_findLeaf]) and of [agent.ts] / [tools.ts] (the oracle gateway
    [Agent.respond] with its resolution strategies).

    Conventions of the embedding:
    - a JavaScript [number] that holds an id, a counter or a length is a
      [Z]: JavaScript numbers are exact on the integers below 2^53, a
      range these values are taken never to leave;
    - a JavaScript string is a [string], and [content.length] is its
      [String.length];
    - the object [Record<number, Document | Heading | undefined>] used as
      a map is a [gmap Z Node];
    - [async] code runs sequentially (every call is awaited), so it is
      written in a state-and-exception monad [M] over the [World]. *)

From Stdlib Require Import ZArith String List Lia Sorted.
From stdpp Require Import gmap strings list fin_maps.

Local Open Scope string_scope.
Local Open Scope list_scope.
Local Open Scope Z_scope.

(** ** The node model ([knowledge.ts], interfaces Document, Heading, Empty) *)

Definition ROOT_DOC_ID : Z := 0.
Definition DEFAULT_K : Z := 4.
Definition DEFAULT_MAX_DOCUMENT_SIZE_CHARS : Z := 100000.

(** One entry of [Heading.refs]: [{ id: number; short: string }]. *)
Record Ref := mkRef { ref_id : Z; short : string }.

(** [interface Document { id; parentId?; kind: "d"; content }] *)
Record Document := mkDocument {
  d_id : Z;
  d_parentId : option Z;
  content : string
}.

(** [interface Heading { id; parentId?; kind: "h"; refs }] *)
Record Heading := mkHeading {
  h_id : Z;
  h_parentId : option Z;
  refs : list Ref
}.

(** The union [Document | Heading | Empty], discriminated by [kind]. *)
Inductive Node :=
| D (d : Document)
| H (h : Heading)
| E (id : Z).

Definition node_id (n : Node) : Z :=
  match n with
  | D d => d_id d
  | H h => h_id h
  | E i => i
  end.

(** ** [class InMemoryKnowledgeStorage]

    [private storage: Record<number, Document | Heading | undefined> = {}]
    and [private id: number = 1]. *)
Record InMemoryKnowledgeStorage := mkStorage {
  storage : gmap Z Node;
  id : Z
}.

Module Storage.

(** [new InMemoryKnowledgeStorage({})], as the [Knowledge] constructor
    builds it: the id counter takes its default, 1. *)
Definition create (seed : gmap Z Node) : InMemoryKnowledgeStorage :=
  {| storage := seed; id := 1 |}.

(** [generateId]: [const id = this.id; this.id += 1; return id].  The
    addition is that of JavaScript numbers, which is exact while the
    counter stays within [-2^53, 2^53 - 1]; beyond, the counter is
    outside this model. *)
Definition generateId (s : InMemoryKnowledgeStorage)
  : Z * InMemoryKnowledgeStorage :=
  (id s, {| storage := storage s; id := id s + 1 |}).

(** [get]: [const elem = this.storage[id]; if (!elem) return { id, kind: "e" };
    return elem]. *)
Definition get (s : InMemoryKnowledgeStorage) (i : Z) : Node :=
  match storage s !! i with
  | Some elem => elem
  | None => E i
  end.

(** [set]: an Empty node deletes its key, any other node is stored under
    its own id. *)
Definition set (s : InMemoryKnowledgeStorage) (doc : Node)
  : InMemoryKnowledgeStorage :=
  match doc with
  | E i => {| storage := delete i (storage s); id := id s |}
  | _ => {| storage := <[node_id doc := doc]> (storage s); id := id s |}
  end.

(** [getMany]: [Promise.all(ids.map((id) => this.get(id)))]. *)
Definition getMany (s : InMemoryKnowledgeStorage) (ids : list Z) : list Node :=
  map (get s) ids.

(** [setMany]: [Promise.all(docs.map((doc) => this.set(doc)))]; the calls
    to [set] run in the order of the array. *)
Definition setMany (s : InMemoryKnowledgeStorage) (docs : list Node)
  : InMemoryKnowledgeStorage :=
  fold_left set docs s.

(** A client of the store: any sequence of calls to its five methods. *)
Inductive Call :=
| CallGenerateId
| CallGet (i : Z)
| CallSet (doc : Node)
| CallGetMany (ids : list Z)
| CallSetMany (docs : list Node).

(** Runs one call; the second component is the id it issued, if any. *)
Definition call (s : InMemoryKnowledgeStorage) (c : Call)
  : InMemoryKnowledgeStorage * list Z :=
  match c with
  | CallGenerateId => let '(i, s') := generateId s in (s', [i])
  | CallGet _ => (s, [])
  | CallSet doc => (set s doc, [])
  | CallGetMany _ => (s, [])
  | CallSetMany docs => (setMany s docs, [])
  end.

(** Runs the calls in order; returns the final store and the ids issued,
    oldest first. *)
Fixpoint run (s : InMemoryKnowledgeStorage) (cs : list Call)
  : InMemoryKnowledgeStorage * list Z :=
  match cs with
  | [] => (s, [])
  | c :: cs' =>
      let '(s1, issued1) := call s c in
      let '(s2, issued2) := run s1 cs' in
      (s2, issued1 ++ issued2)
  end.

Definition issued (s : InMemoryKnowledgeStorage) (cs : list Call) : list Z :=
  snd (run s cs).

End Storage.

(** ** The world the engine runs in

    The engine's state is the store; [trace] is a ghost log of every store
    access and every oracle round, newest first. It exists only so that
    statements such as "no further store access" can be written down. *)

Inductive Tool :=
| selectDocument
| createRoot
| updateDocument
| splitDocument
| mergeDocuments.

Inductive Event :=
| EvGet (i : Z) (result : Node)
| EvSet (doc : Node)
| EvGenerateId (i : Z)
| EvRespond (tool : Tool).

Record World := mkWorld {
  store : InMemoryKnowledgeStorage;
  trace : list Event
}.

Definition log (e : Event) (w : World) : World :=
  {| store := store w; trace := e :: trace w |}.

Definition is_respond (e : Event) : bool :=
  match e with EvRespond _ => true | _ => false end.

(** Number of oracle rounds issued so far. *)
Definition rounds (w : World) : nat := length (filter is_respond (trace w)).

(** The events of [w'] that are not yet in [w], newest first. *)
Definition new_events (w w' : World) : list Event :=
  take (length (trace w') - length (trace w)) (trace w').

(** How a computation ends: with a value, with a JavaScript exception, or
    by exhausting the fuel that bounds the [while (true)] loops. *)
Inductive Outcome (A : Type) :=
| Return (a : A)
| Throw (msg : string)
| OutOfFuel.
Arguments Return {A} a.
Arguments Throw {A} msg.
Arguments OutOfFuel {A}.

Definition M (A : Type) : Type := World -> Outcome A * World.

Definition ret {A} (a : A) : M A := fun w => (Return a, w).

Definition throw {A} (msg : string) : M A := fun w => (Throw msg, w).

Definition bind {A B} (m : M A) (f : A -> M B) : M B :=
  fun w =>
    match m w with
    | (Return a, w') => f a w'
    | (Throw msg, w') => (Throw msg, w')
    | (OutOfFuel, w') => (OutOfFuel, w')
    end.

Notation "x <- m ;; k" := (bind m (fun x => k))
  (at level 100, m at next level, right associativity).

(** One pass through the body of a [while (true)] loop either goes round
    again with new loop variables or leaves the loop by [return]. *)
Inductive Step (A B : Type) :=
| Continue (a : A)
| Break (b : B).
Arguments Continue {A B} a.
Arguments Break {A B} b.

Fixpoint while {A B} (fuel : nat) (body : A -> M (Step A B)) (a : A) : M B :=
  match fuel with
  | O => fun w => (OutOfFuel, w)
  | S fuel' =>
      step <- body a ;;
      match step with
      | Continue a' => while fuel' body a'
      | Break b => ret b
      end
  end.

(** The loop variables and the world after [n] passes that all went round
    again. *)
Fixpoint iterate {A B} (n : nat) (body : A -> M (Step A B)) (a : A) (w : World)
  : option (A * World) :=
  match n with
  | O => Some (a, w)
  | S n' =>
      match body a w with
      | (Return (Continue a'), w') => iterate n' body a' w'
      | _ => None
      end
  end.

(** *** The store, as the engine calls it ([this.config.storage!]) *)

Definition storage_generateId : M Z :=
  fun w =>
    let '(i, s) := Storage.generateId (store w) in
    (Return i, {| store := s; trace := EvGenerateId i :: trace w |}).

Definition storage_get (i : Z) : M Node :=
  fun w =>
    let node := Storage.get (store w) i in
    (Return node, log (EvGet i node) w).

Definition storage_set (doc : Node) : M unit :=
  fun w =>
    (Return tt, {| store := Storage.set (store w) doc; trace := EvSet doc :: trace w |}).

Fixpoint mapM {A B} (f : A -> M B) (l : list A) : M (list B) :=
  match l with
  | [] => ret []
  | a :: l' => b <- f a ;; bs <- mapM f l' ;; ret (b :: bs)
  end.

Definition storage_getMany (ids : list Z) : M (list Node) :=
  mapM storage_get ids.

Definition storage_setMany (docs : list Node) : M unit :=
  _ <- mapM storage_set docs ;; ret tt.

(** *** The oracle gateway, as the engine sees it

    The engine is handed an [Agent] and calls [agent.respond] with one
    tool per round.  All it can observe of a round is with which
    arguments the tool's handler was run, in order, and whether [respond]
    then returned or threw.  An [Agent] gives that reply for each of the
    five rounds, from what the round shows the oracle and the number of
    rounds already issued. *)

Record Reply (A : Type) := mkReply {
  fired : list A;
  raised : option string
}.
Arguments mkReply {A} fired raised.
Arguments fired {A} r.
Arguments raised {A} r.

(** Argument of [updateDocument]. *)
Record UpdateArg := mkUpdateArg {
  newDocument : string;
  shortUpdateDescription : string
}.

(** Argument of [mergeDocuments], and one element of the argument of
    [splitDocument]: [{ content, shortDescription }]. *)
Record Piece := mkPiece {
  piece_content : string;
  shortDescription : string
}.

Record Agent := mkAgent {
  (* the flag tells the two routing prompts apart: [true] for the one of
     [find], which allows the answer -1 *)
  on_selectDocument : nat -> bool -> Heading -> string -> Reply Z;
  on_createRoot : nat -> string -> Reply string;
  on_updateDocument : nat -> string -> string -> Reply UpdateArg;
  on_splitDocument : nat -> Z -> string -> Reply (list Piece);
  on_mergeDocuments : nat -> list string -> Reply Piece
}.

Fixpoint run_handler {A L} (handler : A -> L -> M L) (args : list A) (locals : L)
  : M L :=
  match args with
  | [] => ret locals
  | a :: args' => locals' <- handler a locals ;; run_handler handler args' locals'
  end.

(** [await this.agent.respond({ messages, tools: { tool: ... } })]: the
    handler runs on each argument the round delivers, updating the store
    and the local variables [locals] it closes over; then the call
    returns or throws. *)
Definition respond {A L} (tool : Tool) (reply : nat -> Reply A)
    (handler : A -> L -> M L) (locals : L) : M L :=
  fun w =>
    let r := reply (rounds w) in
    (locals' <- run_handler handler (fired r) locals ;;
     match raised r with
     | Some msg => throw msg
     | None => ret locals'
     end) (log (EvRespond tool) w).

(** ** [class Knowledge] *)

(** The part of [KnowledgeConfig] the engine reads after construction. *)
Record KnowledgeConfig := mkConfig {
  k : Z;
  maxDocumentSizeChars : Z
}.

Record Knowledge := mkKnowledge {
  config : KnowledgeConfig;
  agent : Agent
}.

(** The handler of every [selectDocument] tool: [docId = arg]. *)
Definition selectDocument_handler (arg : Z) (docId : Z) : M Z := ret arg.

(** *** [find] *)

(** The body of the [while (true)] of [find]; the loop variable is
    [docId]. *)
Definition find_body (self : Knowledge) (query : string) (docId : Z)
  : M (Step Z (option Document)) :=
  if docId =? -1 then ret (Break None)
  else
    node <- storage_get docId ;;
    match node with
    | E _ => ret (Break None)
    | D d => ret (Break (Some d))
    | H h =>
        docId' <- respond selectDocument
                    (fun n => on_selectDocument (agent self) n true h query)
                    selectDocument_handler docId ;;
        ret (Continue docId')
    end.

Definition find (self : Knowledge) (fuel : nat) (query : string)
  : M (option Document) :=
  while fuel (find_body self query) ROOT_DOC_ID.

(** *** [_findLeaf] *)

Definition NON_EXISTENT : string :=
  "The model has selected a non-existent document.".

(** The body of the [while (true)] of [_findLeaf]; the loop variables are
    [docId] and [parent]. *)
Definition findLeaf_body (self : Knowledge) (query : string)
    (vars : Z * option Heading)
  : M (Step (Z * option Heading) (Document * option Heading)) :=
  let '(docId, parent) := vars in
  node <- storage_get docId ;;
  match node with
  | D d => ret (Break (d, parent))
  | E _ => throw NON_EXISTENT
  | H h =>
      docId' <- respond selectDocument
                  (fun n => on_selectDocument (agent self) n false h query)
                  selectDocument_handler docId ;;
      ret (Continue (docId', Some h))
  end.

Definition _findLeaf (self : Knowledge) (fuel : nat) (query : string)
  : M (Document * option Heading) :=
  while fuel (findLeaf_body self query) (ROOT_DOC_ID, None).

(** *** [update] *)

Definition INITIALIZED : string := "Initialized the knowledge base".

(** Handler of [createRoot]. *)
Definition createRoot_handler (arg : string) (_ : unit) : M unit :=
  storage_set (D {| d_id := ROOT_DOC_ID; d_parentId := None; content := arg |}).

(** Handler of [updateDocument]; the local it assigns is
    [shortUpdateDescription], and [newDoc] is
    [{ ...docToUpdate, content: arg.newDocument }]. *)
Definition updateDocument_handler (docToUpdate : Document) (arg : UpdateArg)
    (_ : string) : M string :=
  let newDoc := {| d_id := d_id docToUpdate;
                   d_parentId := d_parentId docToUpdate;
                   content := newDocument arg |} in
  _ <- storage_set (D newDoc) ;;
  ret (shortUpdateDescription arg).

(** The [for (const newDoc of arg)] of the [splitDocument] handler, with
    its two accumulators. *)
Fixpoint split_loop (docToUpdate : Document) (arg : list Piece)
    (newDocRefs : list Ref) (docsToSet : list Node)
  : M (list Ref * list Node) :=
  match arg with
  | [] => ret (newDocRefs, docsToSet)
  | newDoc :: rest =>
      newId <- storage_generateId ;;
      split_loop docToUpdate rest
        (newDocRefs ++ [ {| ref_id := newId; short := shortDescription newDoc |} ])
        (docsToSet ++ [ D {| d_id := newId;
                             d_parentId := Some (d_id docToUpdate);
                             content := piece_content newDoc |} ])
  end.

(** Handler of [splitDocument]. *)
Definition splitDocument_handler (docToUpdate : Document) (arg : list Piece)
    (_ : unit) : M unit :=
  acc <- split_loop docToUpdate arg [] [] ;;
  let '(newDocRefs, docsToSet) := acc in
  let newHeading := {| h_id := d_id docToUpdate;
                       h_parentId := d_parentId docToUpdate;
                       refs := newDocRefs |} in
  storage_setMany (docsToSet ++ [H newHeading]).

(** [grandParent.refs.map((r) => r.id === parentHeading.id
      ? { ...r, short: arg.shortDescription } : r)] *)
Definition retitle (target : Z) (newShort : string) (rs : list Ref) : list Ref :=
  map (fun r => if ref_id r =? target
                then {| ref_id := ref_id r; short := newShort |}
                else r) rs.

(** Handler of [mergeDocuments].  The test [if (parentHeading.parentId)]
    is a JavaScript truthiness test on an optional number: it fails for
    [undefined] and also for the number 0. *)
Definition mergeDocuments_handler (parentHeading : Heading) (arg : Piece)
    (_ : unit) : M unit :=
  let newDoc := {| d_id := h_id parentHeading;
                   d_parentId := h_parentId parentHeading;
                   content := piece_content arg |} in
  _ <- storage_set (D newDoc) ;;
  match h_parentId parentHeading with
  | None => ret tt
  | Some parentId =>
      if parentId =? 0 then ret tt
      else
        grandParent <- storage_get parentId ;;
        match grandParent with
        | H g =>
            let newRefs := retitle (h_id parentHeading) (shortDescription arg) (refs g) in
            storage_set (H {| h_id := h_id g; h_parentId := h_parentId g; refs := newRefs |})
        | _ => ret tt
        end
  end.

(** [content.length] *)
Definition content_length (d : Document) : Z := Z.of_nat (String.length (content d)).

(** [siblings.reduce((acc, s) => s.kind === "d" ? acc + s.content.length : acc, 0)] *)
Definition totalSize (siblings : list Node) : Z :=
  fold_left (fun acc s => match s with
                          | D d => acc + content_length d
                          | _ => acc
                          end) siblings 0.

(** [siblings.map((s) => (s.kind === "d" ? s.content : ""))] *)
Definition sibling_contents (siblings : list Node) : list string :=
  map (fun s => match s with D d => content d | _ => "" end) siblings.

(** The first [if] after the edit: split the edited document when it has
    grown beyond [maxDocumentSizeChars]. *)
Definition split_phase (self : Knowledge) (docToUpdate : Document) : M unit :=
  updatedDoc <- storage_get (d_id docToUpdate) ;;
  match updatedDoc with
  | D ud =>
      if content_length ud >? maxDocumentSizeChars (config self) then
        respond splitDocument
          (fun n => on_splitDocument (agent self) n (k (config self)) (content ud))
          (splitDocument_handler docToUpdate) tt
      else ret tt
  | _ => ret tt
  end.

(** The second [if]: merge the children of the parent heading when they
    have become small.  [totalSize < maxDocumentSizeChars / 2] divides
    exactly (JavaScript numbers), so on integers it is
    [2 * totalSize < maxDocumentSizeChars]. *)
Definition merge_phase (self : Knowledge) (parentHeading : option Heading) : M unit :=
  match parentHeading with
  | None => ret tt
  | Some ph =>
      siblings <- storage_getMany (map ref_id (refs ph)) ;;
      if 2 * totalSize siblings <? maxDocumentSizeChars (config self) then
        respond mergeDocuments
          (fun n => on_mergeDocuments (agent self) n (sibling_contents siblings))
          (mergeDocuments_handler ph) tt
      else ret tt
  end.

(** The edit round of [update]. *)
Definition edit_phase (self : Knowledge) (query : string) (docToUpdate : Document)
  : M string :=
  respond updateDocument
    (fun n => on_updateDocument (agent self) n (content docToUpdate) query)
    (updateDocument_handler docToUpdate) "".

Definition update (self : Knowledge) (fuel : nat) (query : string) : M string :=
  root <- storage_get ROOT_DOC_ID ;;
  match root with
  | E _ =>
      _ <- respond createRoot (fun n => on_createRoot (agent self) n query)
             createRoot_handler tt ;;
      ret INITIALIZED
  | _ =>
      leaf <- _findLeaf self fuel query ;;
      let '(docToUpdate, parentHeading) := leaf in
      shortUpdateDescription <- edit_phase self query docToUpdate ;;
      _ <- split_phase self docToUpdate ;;
      _ <- merge_phase self parentHeading ;;
      ret shortUpdateDescription
  end.

(** ** Vocabulary of the statements *)

(** Every node is stored under its own id.  [set] stores a node under its
    id, so a store filled through [set] satisfies this. *)
Definition store_wf (s : InMemoryKnowledgeStorage) : Prop :=
  map_Forall (fun key n => node_id n = key) (storage s).

(** Every id in use is below the id counter, so that the allocator's next
    ids are not in use. *)
Definition allocator_ahead (s : InMemoryKnowledgeStorage) : Prop :=
  map_Forall (fun key (_ : Node) => key < id s) (storage s).

(** The key [key] holds a node. *)
Definition in_use (s : InMemoryKnowledgeStorage) (key : Z) : Prop :=
  is_Some (storage s !! key).

(** The invariant of the stores the engine builds: nodes sit under their
    own ids, the ids in use are below the counter, and the counter is
    above ROOT. *)
Definition engine_inv (s : InMemoryKnowledgeStorage) : Prop :=
  store_wf s /\ allocator_ahead s /\ 0 < id s.

(** During one [update]: the invariant, and the nodes the traversal has
    found are still in the store. *)
Definition update_inv (doc : Document) (parent : option Heading) (w : World) : Prop :=
  engine_inv (store w) /\
  in_use (store w) (d_id doc) /\
  forall ph, parent = Some ph -> in_use (store w) (h_id ph).

(** Content length of the node stored under [i] if it is a Document, zero
    if it is a Heading or absent. *)
Definition document_size (s : InMemoryKnowledgeStorage) (i : Z) : Z :=
  match Storage.get s i with
  | D d => content_length d
  | _ => 0
  end.

(** Sum of the content lengths of the children of [ph] that are
    Documents. *)
Definition children_size (s : InMemoryKnowledgeStorage) (ph : Heading) : Z :=
  foldr (fun r acc => document_size s (ref_id r) + acc) 0 (refs ph).

(** The references and the documents a split creates from the pieces
    [arg], when the id counter stands at [c]. *)
Fixpoint split_refs (c : Z) (arg : list Piece) : list Ref :=
  match arg with
  | [] => []
  | p :: rest => {| ref_id := c; short := shortDescription p |} :: split_refs (c + 1) rest
  end.

Fixpoint split_docs (c : Z) (parent : Z) (arg : list Piece) : list Node :=
  match arg with
  | [] => []
  | p :: rest =>
      D {| d_id := c; d_parentId := Some parent; content := piece_content p |}
        :: split_docs (c + 1) parent rest
  end.

(** What [find] may add to the trace: routing rounds and fetches of ids
    other than -1. *)
Definition fetch_allowed (e : Event) : Prop :=
  match e with
  | EvGet i _ => i <> -1
  | EvRespond selectDocument => True
  | _ => False
  end.

(** The events of the locate traversal: fetches and routing rounds. *)
Definition locate_event (e : Event) : Prop :=
  match e with
  | EvGet _ _ => True
  | EvRespond selectDocument => True
  | _ => False
  end.

(** A fetch that came back Empty. *)
Definition fetched_empty (e : Event) : Prop :=
  match e with
  | EvGet _ (E _) => True
  | _ => False
  end.

(** A stretch of trace without oracle rounds. *)
Definition no_respond (l : list Event) : Prop := filter is_respond l = [].

(** ** Concrete knowledge bases

    Test doubles in the manner of the repository's tests: an agent that
    answers every round with one fixed tool call. *)
Module Examples.

Fixpoint repeat_string (n : nat) (s : string) : string :=
  match n with
  | O => ""
  | S n' => s ++ repeat_string n' s
  end.

(** Routes to [route h] at heading [h]; an edit yields [edited], a split
    [parts], a merge [merged]. *)
Definition scripted (route : Heading -> Z) (edited : UpdateArg)
    (parts : list Piece) (merged : Piece) : Agent :=
  {| on_selectDocument := fun _ _ h _ => mkReply [route h] None;
     on_createRoot := fun _ _ => mkReply ["Q: What is the capital of France? A: Paris."] None;
     on_updateDocument := fun _ _ _ => mkReply [edited] None;
     on_splitDocument := fun _ _ _ => mkReply [parts] None;
     on_mergeDocuments := fun _ _ => mkReply [merged] None |}.

Definition made_small : UpdateArg :=
  {| newDocument := "updated"; shortUpdateDescription := "Made document small" |}.

Definition made_large : UpdateArg :=
  {| newDocument := repeat_string 200 "a";
     shortUpdateDescription := "Made document large" |}.

Definition two_parts : list Piece :=
  [ {| piece_content := repeat_string 100 "a"; shortDescription := "Part 1" |};
    {| piece_content := repeat_string 100 "a"; shortDescription := "Part 2" |} ].

Definition merged_docs : Piece :=
  {| piece_content := "merged content"; shortDescription := "Merged docs" |}.

Definition world_of (seed : gmap Z Node) (counter : Z) : World :=
  {| store := {| storage := seed; id := counter |}; trace := [] |}.

(** An empty store. *)
Definition empty_world : World := world_of ∅ 1.

(** A root Document; the limit is 150 and the edit makes it 200 long. *)
Definition splitting : Knowledge :=
  {| config := {| k := 4; maxDocumentSizeChars := 150 |};
     agent := scripted (fun _ => 0) made_large two_parts merged_docs |}.

Definition initial_doc : Document :=
  {| d_id := 0; d_parentId := None; content := "Initial content" |}.

Definition single_doc : World := world_of (<[0 := D initial_doc]> ∅) 1.

(** A root Heading over two small Documents; the limit is 100. *)
Definition merging : Knowledge :=
  {| config := {| k := 4; maxDocumentSizeChars := 100 |};
     agent := scripted (fun _ => 1) made_small two_parts merged_docs |}.

Definition small_root : Heading :=
  {| h_id := 0; h_parentId := None;
     refs := [ {| ref_id := 1; short := "Doc 1" |};
               {| ref_id := 2; short := "Doc 2" |} ] |}.

Definition two_small_docs : World :=
  world_of
    (<[0 := H small_root]>
    (<[1 := D {| d_id := 1; d_parentId := Some 0; content := "Small doc 1" |}]>
    (<[2 := D {| d_id := 2; d_parentId := Some 0; content := "Small doc 2" |}]> ∅)))
    3.

(** The oracle declines at the root: the answer is -1. *)
Definition declining : Knowledge :=
  {| config := {| k := 4; maxDocumentSizeChars := 100 |};
     agent := scripted (fun _ => -1) made_small two_parts merged_docs |}.

(** A root Heading whose only reference dangles. *)
Definition lonely_root : Heading :=
  {| h_id := 0; h_parentId := None;
     refs := [ {| ref_id := 1; short := "A test document" |} ] |}.

Definition dangling : World := world_of (<[0 := H lonely_root]> ∅) 2.

(** Three levels, as two splits in a row produce them: ROOT (0) is a
    Heading over the Heading 1 and the Document 2, and Heading 1, whose
    parentId is 0, is over the small Documents 3 and 4. *)
Definition three_levels : World :=
  world_of
    (<[0 := H {| h_id := 0; h_parentId := None;
                 refs := [ {| ref_id := 1; short := "Topic A" |};
                           {| ref_id := 2; short := "Topic B" |} ] |}]>
    (<[1 := H {| h_id := 1; h_parentId := Some 0;
                 refs := [ {| ref_id := 3; short := "Doc 1" |};
                           {| ref_id := 4; short := "Doc 2" |} ] |}]>
    (<[2 := D {| d_id := 2; d_parentId := Some 0; content := "Doc B" |}]>
    (<[3 := D {| d_id := 3; d_parentId := Some 1; content := "Small doc 1" |}]>
    (<[4 := D {| d_id := 4; d_parentId := Some 1; content := "Small doc 2" |}]> ∅)))))
    5.

(** Routes ROOT to 1 and Heading 1 to 3. *)
Definition descending : Knowledge :=
  {| config := {| k := 4; maxDocumentSizeChars := 100 |};
     agent := scripted (fun h => if h_id h =? 0 then 1 else 3)
                       made_small two_parts merged_docs |}.

(** The same tree one level further down: the Heading over the small
    Documents is 2, and its parent is the Heading 1, not ROOT. *)
Definition four_levels : World :=
  world_of
    (<[0 := H {| h_id := 0; h_parentId := None;
                 refs := [ {| ref_id := 1; short := "Topic A" |} ] |}]>
    (<[1 := H {| h_id := 1; h_parentId := Some 0;
                 refs := [ {| ref_id := 2; short := "Topic A1" |};
                           {| ref_id := 5; short := "Topic A2" |} ] |}]>
    (<[2 := H {| h_id := 2; h_parentId := Some 1;
                 refs := [ {| ref_id := 3; short := "Doc 1" |};
                           {| ref_id := 4; short := "Doc 2" |} ] |}]>
    (<[3 := D {| d_id := 3; d_parentId := Some 2; content := "Small doc 1" |}]>
    (<[4 := D {| d_id := 4; d_parentId := Some 2; content := "Small doc 2" |}]>
    (<[5 := D {| d_id := 5; d_parentId := Some 1; content := "Doc A2" |}]> ∅))))))
    6.

(** Routes ROOT to 1, Heading 1 to 2 and Heading 2 to 3. *)
Definition descending_further : Knowledge :=
  {| config := {| k := 4; maxDocumentSizeChars := 100 |};
     agent := scripted (fun h => if h_id h =? 0 then 1
                                 else if h_id h =? 1 then 2 else 3)
                       made_small two_parts merged_docs |}.

End Examples.

(** ** [class Agent] ([agent.ts]) and [_transformTool] ([tools.ts])

    The oracle gateway itself.  Its state is passed explicitly: the state
    [S] the tool handlers act on, the number of chat completions requested
    so far, and a ghost log [ran] of the handler invocations.  The objects
    [handlers] and [results] are maps from the tool names that were put
    into them; what a JavaScript object inherits from its prototype is not
    part of the model. *)
Module Gateway.

(** [type ResolutionStrategy = { kind: "ignore" } | { kind: "throw" }
    | { kind: "retryAll"; maxRetries: number }] *)
Inductive ResolutionStrategy :=
| kind_ignore
| kind_throw
| kind_retryAll (maxRetries : Z).

(** One element of [message.tool_calls]: a call of type "function" with
    its name and its argument text, or a call of another type. *)
Inductive ToolCall :=
| FunctionCall (name : string) (arguments : string)
| CustomCall (name : string).

(** A choice of the completion, reduced to [message.tool_calls], which
    may be missing. *)
Record Choice := mkChoice { tool_calls : option (list ToolCall) }.

Record Response := mkResponse { choices : list Choice }.

(** What [client.chat.completions.create] does with a request: it
    resolves with a response or rejects. *)
Inductive Completion :=
| Completed (response : Response)
| Rejected (msg : string).

(** [string | true], the result of [_verifyAndCallHandlers], or the
    exception that left it. *)
Inductive Verification :=
| Verified
| Errors (msg : string)
| Thrown (msg : string).

(** *** Names a plain object inherits

    [handlers] and [results] are plain objects ([{}]).  Indexing
    [handlers] with a name that no tool carries still finds what
    [Object.prototype] has under that name, and every such member
    passes the test [if (!handler)].  What matters of it is what the
    call [handler({ argJson, response })] then does, made without a
    receiver: [constructor], which is [Object], returns its argument, an
    object; [toString] returns the string "[object Undefined]"; the
    other methods throw a TypeError on the missing receiver, and
    [__proto__] is [Object.prototype] itself, which is not callable. *)
Inductive Inherited :=
| InheritedConstructor
| InheritedToString
| InheritedThrows.

Definition THROWING_MEMBERS : list string :=
  [ "__proto__"; "hasOwnProperty"; "isPrototypeOf"; "propertyIsEnumerable";
    "toLocaleString"; "valueOf"; "__defineGetter__"; "__defineSetter__";
    "__lookupGetter__"; "__lookupSetter__" ].

Definition inherited (name : string) : option Inherited :=
  if String.eqb name "constructor" then Some InheritedConstructor
  else if String.eqb name "toString" then Some InheritedToString
  else if existsb (String.eqb name) THROWING_MEMBERS then Some InheritedThrows
  else None.

Definition TYPE_ERROR : string := "TypeError".

(** [results[name] = msg]: an assignment to [__proto__] with a string
    gives the object no property, any other name becomes a property. *)
Definition record (name msg : string) (results : gmap string string)
  : gmap string string :=
  if String.eqb name "__proto__" then results else <[name := msg]> results.

(** A response without tool calls: no choice at all, or a first choice
    whose [tool_calls] is missing. *)
Definition toolless (r : Response) : Prop :=
  match choices r with
  | [] => True
  | choice :: _ => tool_calls choice = None
  end.

(** The separator of [errors.join], a line feed and a tab. *)
Definition NEWLINE_TAB : string :=
  String (Ascii.ascii_of_nat 10) (String (Ascii.ascii_of_nat 9) EmptyString).

Section Agent.

(** The values [JSON.parse] produces, and [JSON.parse] itself, [None]
    when it throws. *)
Context {JSON : Type} (JSON_parse : string -> option JSON).

(** The state the tool handlers act on. *)
Context {S : Type}.

(** [interface ToolDefinition]: [arg] is the zod schema, taken as its
    [safeParse] ([None] when [success] is false, otherwise [data]);
    [handler] is [fn.handler], which returns the new state and the
    error it threw, if it threw. *)
Record ToolDefinition := mkTool {
  arg : JSON -> option JSON;
  handler : JSON -> S -> S * option string
}.

Record AgentWorld := mkAgentWorld {
  user : S;
  calls : nat;
  (* ghost: tool name and argument text of each handler invocation,
     and whether it completed without throwing; oldest first *)
  ran : list (string * string * bool)
}.

(** [type ToolHandlerInner]: from the argument text to an error
    message or nothing. *)
Definition ToolHandlerInner : Type :=
  string -> AgentWorld -> option string * AgentWorld.

(** The [handler] that [_transformTool(name, t)] returns, in the revision
    of [tools.ts] that hands [{ arg: parseResult.data, response }] to
    [fn.handler]. *)
Definition _transformTool (name : string) (t : ToolDefinition) : ToolHandlerInner :=
  fun argJson w =>
    match JSON_parse argJson with
    | None => (Some "The model didn't respond with a valid JSON", w)
    | Some parsed =>
        match arg t parsed with
        | None => (Some "The model has returned invalid tool call args", w)
        | Some data =>
            let '(s', thrown) := handler t data (user w) in
            let completed := match thrown with Some _ => false | None => true end in
            let w' := {| user := s'; calls := calls w;
                         ran := ran w ++ [(name, argJson, completed)] |} in
            match thrown with
            | Some _ => (Some "The tool handler has thrown an eror", w')
            | None => (None, w')
            end
        end
    end.

(** The [for (const toolCall of toolCalls)] of
    [_verifyAndCallHandlers], with its accumulator [results]; [handlers]
    holds the tools' handlers as own properties (no tool is named
    [__proto__]).  The first component is [None] when the loop was left
    by a TypeError. *)
Fixpoint call_handlers (handlers : gmap string ToolHandlerInner)
    (toolCalls : list ToolCall) (results : gmap string string) (w : AgentWorld)
  : option (gmap string string) * AgentWorld :=
  match toolCalls with
  | [] => (Some results, w)
  | CustomCall name :: rest =>
      call_handlers handlers rest
        (record name "The tool call is not of type function" results) w
  | FunctionCall name arguments :: rest =>
      match handlers !! name with
      | Some handler =>
          let '(errorOrVoid, w') := handler arguments w in
          match errorOrVoid with
          | Some e => call_handlers handlers rest (record name e results) w'
          | None => call_handlers handlers rest results w'
          end
      | None =>
          match inherited name with
          | None =>
              call_handlers handlers rest
                (record name "The model has called an unknown tool" results) w
          | Some InheritedConstructor => call_handlers handlers rest results w
          | Some InheritedToString =>
              call_handlers handlers rest
                (record name "[object Undefined]" results) w
          | Some InheritedThrows => (None, w)
          end
      end
  end.

Definition _verifyAndCallHandlers (response : Response)
    (handlers : gmap string ToolHandlerInner) (w : AgentWorld)
  : Verification * AgentWorld :=
  match choices response with
  | [] => (Errors "The model did not produce anything", w)
  | choice :: _ =>
      match tool_calls choice with
      | None => (Errors "The model did not produce any tool calls", w)
      | Some toolCalls =>
          match call_handlers handlers toolCalls ∅ w with
          | (None, w') => (Thrown TYPE_ERROR, w')
          | (Some results, w') =>
              let errors := map (fun kv => fst kv ++ ": " ++ snd kv)%string
                                (map_to_list results) in
              match errors with
              | [] => (Verified, w')
              | _ => (Errors (String.concat NEWLINE_TAB errors), w')
              end
          end
      end
  end.

(** [_respond]: one chat completion; the [n]-th request of the run gets
    [client n]. *)
Definition _respond (client : nat -> Completion) (w : AgentWorld)
  : Completion * AgentWorld :=
  (client (calls w),
   {| user := user w; calls := Datatypes.S (calls w); ran := ran w |}).

(** The [while (true)] of [respond], with its variable [retryCount]. *)
Fixpoint retry_loop (fuel : nat) (maxRetries : Z) (client : nat -> Completion)
    (handlers : gmap string ToolHandlerInner) (retryCount : Z) (w : AgentWorld)
  : Outcome unit * AgentWorld :=
  match fuel with
  | O => (OutOfFuel, w)
  | Datatypes.S fuel' =>
      match _respond client w with
      | (Rejected msg, w1) => (Throw msg, w1)
      | (Completed response, w1) =>
          match _verifyAndCallHandlers response handlers w1 with
          | (Verified, w2) => (Return tt, w2)
          | (Thrown msg, w2) => (Throw msg, w2)
          | (Errors verification, w2) =>
              let retryCount := retryCount + 1 in
              if retryCount <=? maxRetries then
                retry_loop fuel' maxRetries client handlers retryCount w2
              else
                (Throw ("[Retry over] Errors during agent response: " ++ verification), w2)
          end
      end
  end.

(** [respond], in the revisions of [agent.ts] that have a
    [resolutionStrategy]; [strategy] is [this.config.resolutionStrategy],
    which may be missing.  [tools] holds the own properties of
    [args.tools]; a tool named [__proto__], whose handler the assignment
    [handlers[name] = handler] would make the prototype of [handlers],
    is outside the model. *)
Definition respond (fuel : nat) (strategy : option ResolutionStrategy)
    (client : nat -> Completion) (tools : gmap string ToolDefinition)
    (w : AgentWorld) : Outcome unit * AgentWorld :=
  let handlers := map_imap (fun name t => Some (_transformTool name t)) tools in
  match _respond client w with
  | (Rejected msg, w1) => (Throw msg, w1)
  | (Completed response, w1) =>
      match _verifyAndCallHandlers response handlers w1 with
      | (Verified, w2) => (Return tt, w2)
      | (Thrown msg, w2) => (Throw msg, w2)
      | (Errors verification, w2) =>
          match strategy with
          | None | Some kind_ignore => (Return tt, w2)
          | Some kind_throw =>
              (Throw ("Errors during agent response: " ++ verification), w2)
          | Some (kind_retryAll maxRetries) =>
              retry_loop fuel maxRetries client handlers 0 w2
          end
      end
  end.



(** A tool call at which the loop is left by a TypeError: a function
    call whose name no tool carries and under which [Object.prototype]
    has a member that cannot be called this way. *)
Definition aborts (tools : gmap string ToolDefinition) (tc : ToolCall) : bool :=
  match tc with
  | CustomCall _ => false
  | FunctionCall name _ =>
      match tools !! name with
      | Some _ => false
      | None =>
          match inherited name with
          | Some InheritedThrows => true
          | _ => false
          end
      end
  end.

(** The first choice of [r] holds such a call. *)
Definition aborting (tools : gmap string ToolDefinition) (r : Response) : bool :=
  match choices r with
  | [] => false
  | choice :: _ =>
      match tool_calls choice with
      | None => false
      | Some toolCalls => existsb (aborts tools) toolCalls
      end
  end.


End Agent.

(** *** Concrete rounds *)

(** A toy [JSON.parse]: the texts "1" and "-1" are numbers, every other
    text is malformed. *)
Definition parse_number (s : string) : option Z :=
  if String.eqb s "1" then Some 1
  else if String.eqb s "-1" then Some (-1)
  else None.

(** A [selectDocument] tool over a state that is just [docId]: the
    schema [z.number()] accepts every number, the handler stores it. *)
Definition select_tool : ToolDefinition (JSON := Z) (S := Z) :=
  {| arg := fun j => Some j; handler := fun j _ => (j, None) |}.

Definition fresh (docId : Z) : AgentWorld (S := Z) :=
  {| user := docId; calls := 0; ran := [] |}.

(** The model answers in plain text: a choice without tool calls. *)
Definition silent (_ : nat) : Completion :=
  Completed {| choices := [ {| tool_calls := None |} ] |}.

(** The model calls [constructor], a tool that was not offered. *)
Definition constructing (_ : nat) : Completion :=
  Completed {| choices := [ {| tool_calls := Some [FunctionCall "constructor" "1"] |} ] |}.


End Gateway.

(** ** Further vocabulary: the store *)

(** The bound up to which the additions of the id counter are exact:
    2^53. *)
Definition EXACT_LIMIT : Z := 2 ^ 53.

(** The calls of a client that take an id from the counter. *)
Definition is_generateId (c : Storage.Call) : bool :=
  match c with
  | Storage.CallGenerateId => true
  | _ => false
  end.

(** ** Further vocabulary: the engine *)

(** The ids that an [update] editing the leaf [doc] under [parent] has no
    business with: those below the id counter [c0] the call started
    from, other than the leaf, its parent Heading and that Heading's
    parent. *)
Definition off_path (doc : Document) (parent : option Heading) (c0 key : Z) : Prop :=
  key < c0 /\
  key <> d_id doc /\
  forall ph, parent = Some ph -> key <> h_id ph /\ h_parentId ph <> Some key.

(** The store [s'] has grown from [s0]: the counter has not gone back,
    every key in use is still in use, and the keys off the path hold what
    they held. *)
Definition grown (doc : Document) (parent : option Heading)
    (s0 s' : InMemoryKnowledgeStorage) : Prop :=
  id s0 <= id s' /\
  (forall key, in_use s0 key -> in_use s' key) /\
  (forall key, off_path doc parent (id s0) key ->
               storage s' !! key = storage s0 !! key).

Definition update_rel (doc : Document) (parent : option Heading)
    (s0 : InMemoryKnowledgeStorage) (w : World) : Prop :=
  update_inv doc parent w /\ grown doc parent s0 (store w).

(** ** Further knowledge bases *)

Module Scenarios.

(** Routes ROOT to 1 and then falls silent: at every other Heading its
    rounds return without a tool call. *)
Definition tongue_tied : Knowledge :=
  {| config := {| k := 4; maxDocumentSizeChars := 100 |};
     agent :=
       {| on_selectDocument := fun _ _ h _ =>
            if h_id h =? 0 then mkReply [1] None else mkReply [] None;
          on_createRoot := fun _ _ => mkReply [] None;
          on_updateDocument := fun _ _ _ => mkReply [] None;
          on_splitDocument := fun _ _ _ => mkReply [] None;
          on_mergeDocuments := fun _ _ => mkReply [] None |} |}.

(** Edits in two firings, a long text and then a short one; the limit
    is 150. *)
Definition editing : Knowledge :=
  {| config := {| k := 4; maxDocumentSizeChars := 150 |};
     agent :=
       {| on_selectDocument := fun _ _ _ _ => mkReply [] None;
          on_createRoot := fun _ _ => mkReply [] None;
          on_updateDocument := fun _ _ _ =>
            mkReply [Examples.made_large; Examples.made_small] None;
          on_splitDocument := fun _ _ _ => mkReply [Examples.two_parts] None;
          on_mergeDocuments := fun _ _ => mkReply [Examples.merged_docs] None |} |}.

End Scenarios.

(** [{ ...docToUpdate, content: arg.newDocument }] *)
Definition edited (docToUpdate : Document) (arg : UpdateArg) : Node :=
  D {| d_id := d_id docToUpdate;
       d_parentId := d_parentId docToUpdate;
       content := newDocument arg |}.

(** ** Further vocabulary: the gateway *)

Module Calls.

Section Calls.

Context {JSON : Type} (JSON_parse : string -> option JSON) {S : Type}.

(** The tool and the schema-parsed argument with which a tool call
    reaches [fn.handler], if it does: it is a function call, its name is
    one of the tools offered, its argument text parses and the parsed
    value passes the tool's schema. *)
Definition accepted_call (tools : gmap string (@Gateway.ToolDefinition JSON S))
    (tc : Gateway.ToolCall) : option (@Gateway.ToolDefinition JSON S * JSON) :=
  match tc with
  | Gateway.CustomCall _ => None
  | Gateway.FunctionCall name argJson =>
      match tools !! name with
      | None => None
      | Some t =>
          match JSON_parse argJson with
          | None => None
          | Some parsed =>
              match Gateway.arg t parsed with
              | None => None
              | Some data => Some (t, data)
              end
          end
      end
  end.

(** The state after the handler of [tc] has run, if [tc] reaches one. *)
Definition apply_call (tools : gmap string (@Gateway.ToolDefinition JSON S))
    (s : S) (tc : Gateway.ToolCall) : S :=
  match accepted_call tools tc with
  | Some (t, data) => fst (Gateway.handler t data s)
  | None => s
  end.

(** The state after the calls of a message, taken in order up to the
    first one at which the loop is left by a TypeError. *)
Fixpoint apply_calls (tools : gmap string (@Gateway.ToolDefinition JSON S))
    (toolCalls : list Gateway.ToolCall) (s : S) : S :=
  match toolCalls with
  | [] => s
  | tc :: rest =>
      if Gateway.aborts tools tc then s
      else apply_calls tools rest (apply_call tools s tc)
  end.

(** A call that leaves an error whatever the state: it is not of type
    "function" (and its name is not [__proto__]), or it names a tool
    that was not offered, under a name that is either not inherited or
    [toString]. *)
Definition foreign (tools : gmap string (@Gateway.ToolDefinition JSON S))
    (tc : Gateway.ToolCall) : Prop :=
  match tc with
  | Gateway.CustomCall name => name <> "__proto__"
  | Gateway.FunctionCall name _ =>
      tools !! name = None /\
      (Gateway.inherited name = None \/
       Gateway.inherited name = Some Gateway.InheritedToString)
  end.

(** The most completions one [respond] can request. *)
Definition completions_bound (strategy : option Gateway.ResolutionStrategy) : nat :=
  match strategy with
  | Some (Gateway.kind_retryAll maxRetries) => Z.to_nat maxRetries + 2
  | _ => 1
  end.

End Calls.

(** A tool over a counter: the schema accepts every number, the handler
    adds it to the counter. *)
Definition add_tool : Gateway.ToolDefinition (JSON := Z) (S := Z) :=
  {| Gateway.arg := fun j => Some j; Gateway.handler := fun j s => (s + j, None) |}.

(** The model calls [add(1)] and, in the same message, a tool that was
    not offered. *)
Definition overreaching (_ : nat) : Gateway.Completion :=
  Gateway.Completed
    {| Gateway.choices :=
         [ {| Gateway.tool_calls :=
                Some [ Gateway.FunctionCall "add" "1";
                       Gateway.FunctionCall "missing" "1" ] |} ] |}.


(** The model sends an empty list of tool calls. *)
Definition idle (_ : nat) : Gateway.Completion :=
  Gateway.Completed {| Gateway.choices := [ {| Gateway.tool_calls := Some [] |} ] |}.

End Calls.

(** ** [Agent.parseResponse]

    The revision of [agent.ts] without a resolution strategy: [respond]
    runs no handler, it returns the parsed arguments of the tool calls,
    keyed by tool name, and throws at the first call it cannot parse.
    (Tool names that an object inherits from [Object.prototype] are
    outside this model: [tools] is a finite map.) *)

Module Tooled.

(** What [parseResponse] throws. *)
Inductive Failure :=
| NothingProduced
| NoToolCalls
| NotAFunction (name : string)
| UnknownTool (name : string)
| SyntaxError (arguments : string)
| ZodError (name : string).

Section Tooled.

(** The values [JSON.parse] produces, and [JSON.parse] itself, [None]
    when it throws. *)
Context {JSON : Type} (JSON_parse : string -> option JSON).

(** A tool, reduced to [tool.arg.parseAsync]: [None] when it rejects. *)
Definition Schema : Type := JSON -> option JSON.

(** The [for (const toolCall of toolCalls)] of [parseResponse], with its
    accumulator [results]. *)
Fixpoint parse_calls (tools : gmap string Schema)
    (toolCalls : list Gateway.ToolCall) (results : gmap string JSON)
  : Failure + gmap string JSON :=
  match toolCalls with
  | [] => inr results
  | Gateway.CustomCall name :: _ => inl (NotAFunction name)
  | Gateway.FunctionCall name arguments :: rest =>
      match tools !! name with
      | None => inl (UnknownTool name)
      | Some tool =>
          match JSON_parse arguments with
          | None => inl (SyntaxError arguments)
          | Some argsJson =>
              match tool argsJson with
              | None => inl (ZodError name)
              | Some args => parse_calls tools rest (<[name := args]> results)
              end
          end
      end
  end.

Definition parseResponse (response : Gateway.Response)
    (tools : gmap string Schema) : Failure + gmap string JSON :=
  match Gateway.choices response with
  | [] => inl NothingProduced
  | choice :: _ =>
      match Gateway.tool_calls choice with
      | None => inl NoToolCalls
      | Some toolCalls => parse_calls tools toolCalls ∅
      end
  end.

(** [respond]: one completion, then [parseResponse]; a rejected request
    rejects [respond]. *)
Definition respond (completion : Gateway.Completion)
    (tools : gmap string Schema) : (string + Failure) + gmap string JSON :=
  match completion with
  | Gateway.Rejected msg => inl (inl msg)
  | Gateway.Completed response =>
      match parseResponse response tools with
      | inl failure => inl (inr failure)
      | inr results => inr results
      end
  end.

(** One tool call on its own: the tool name and the parsed arguments, or
    the reason why not. *)
Definition check (tools : gmap string Schema) (tc : Gateway.ToolCall)
  : Failure + string * JSON :=
  match tc with
  | Gateway.CustomCall name => inl (NotAFunction name)
  | Gateway.FunctionCall name arguments =>
      match tools !! name with
      | None => inl (UnknownTool name)
      | Some tool =>
          match JSON_parse arguments with
          | None => inl (SyntaxError arguments)
          | Some argsJson =>
              match tool argsJson with
              | None => inl (ZodError name)
              | Some args => inr (name, args)
              end
          end
      end
  end.

(** The arguments [tc] contributes under the key [name], if any. *)
Definition contributes (tools : gmap string Schema) (name : string)
    (tc : Gateway.ToolCall) : option JSON :=
  match check tools tc with
  | inr (n, args) => if decide (n = name) then Some args else None
  | inl _ => None
  end.

Definition passes (tools : gmap string Schema) (tc : Gateway.ToolCall) : Prop :=
  exists name args, check tools tc = inr (name, args).

End Tooled.

(** The schema [z.number()] over the toy [JSON.parse] of the gateway. *)
Definition number_schema : Schema (JSON := Z) := fun j => Some j.

(** The model calls [selectDocument] twice, with 1 and then with -1. *)
Definition undecided : Gateway.Response :=
  {| Gateway.choices :=
       [ {| Gateway.tool_calls :=
              Some [ Gateway.FunctionCall "selectDocument" "1";
                     Gateway.FunctionCall "selectDocument" "-1" ] |} ] |}.

(** The model calls [selectDocument(1)], then a tool that was not
    offered, then [selectDocument] with a malformed argument. *)
Definition garbled : Gateway.Response :=
  {| Gateway.choices :=
       [ {| Gateway.tool_calls :=
              Some [ Gateway.FunctionCall "selectDocument" "1";
                     Gateway.FunctionCall "missing" "1";
                     Gateway.FunctionCall "selectDocument" "one" ] |} ] |}.

End Tooled.

(** ** The usage counters of [class Agent]

    [private usage = { inputTokens: 0, outputTokens: 0, images: 0 }] is
    an object, and [toJSON] and [fromJSON] pass it on by reference; so
    the counters live in a heap of usage objects and an agent holds the
    address of its own.  Token counts are numbers of the API, taken as
    exact integers. *)

Module Accounting.

Record Usage := mkUsage {
  inputTokens : Z;
  outputTokens : Z;
  images : Z
}.

(** [response.usage] *)
Record CompletionUsage := mkCompletionUsage {
  prompt_tokens : Z;
  completion_tokens : Z
}.

(** A chat completion as [parseImage] and [_respond] read it:
    [response.usage], which may be missing, and
    [choices[i].message.content], a string or null. *)
Record ChatCompletion := mkChatCompletion {
  response_usage : option CompletionUsage;
  contents : list (option string)
}.

(** What [client.chat.completions.create] does with a request. *)
Inductive Completion :=
| Completed (response : ChatCompletion)
| Rejected (msg : string).

(** The usage objects allocated so far; an address is an index. *)
Definition Heap : Type := list Usage.

Section Accounting.

Context {AgentConfig : Type}.

Record Agent := mkAgent {
  config : AgentConfig;
  usage : nat
}.

(** [interface SerializedAgent]: [{ config, usage }]. *)
Record SerializedAgent := mkSerializedAgent {
  json_config : AgentConfig;
  json_usage : nat
}.

(** [new Agent(config)]: the field initialiser allocates a usage object
    of zeros. *)
Definition new_Agent (c : AgentConfig) (h : Heap) : Agent * Heap :=
  ({| config := c; usage := length h |},
   h ++ [ {| inputTokens := 0; outputTokens := 0; images := 0 |} ]).

(** [fromJSON]: [const agent = new Agent(obj.config); agent.usage =
    obj.usage; return agent]. *)
Definition fromJSON (obj : SerializedAgent) (h : Heap) : Agent * Heap :=
  let '(agent, h') := new_Agent (json_config obj) h in
  ({| config := config agent; usage := json_usage obj |}, h').

(** [toJSON]: [{ config: this.config, usage: this.usage }]. *)
Definition toJSON (a : Agent) : SerializedAgent :=
  {| json_config := config a; json_usage := usage a |}.

(** The [if (response.usage) { ... }] of [parseImage] and of
    [_respond]; only [parseImage] has the line
    [this.usage.images += 1]. *)
Definition count (image : bool) (a : Agent) (response : ChatCompletion)
    (h : Heap) : Heap :=
  match response_usage response with
  | None => h
  | Some u =>
      match h !! usage a with
      | None => h
      | Some old =>
          <[usage a :=
              {| inputTokens := inputTokens old + prompt_tokens u;
                 outputTokens := outputTokens old + completion_tokens u;
                 images := if image then images old + 1 else images old |}]> h
      end
  end.

(** How [parseImage] ends: with [choices[0].message.content], with the
    TypeError of reading [message] of [undefined], or with the
    rejection of the request. *)
Inductive ImageResult :=
| Content (text : option string)
| TypeError
| RequestFailed (msg : string).

Definition parseImage (a : Agent) (completion : Completion) (h : Heap)
  : ImageResult * Heap :=
  match completion with
  | Rejected msg => (RequestFailed msg, h)
  | Completed response =>
      let h' := count true a response h in
      match contents response with
      | [] => (TypeError, h')
      | text :: _ => (Content text, h')
      end
  end.

(** [_respond]: the completion is returned as it came. *)
Definition _respond (a : Agent) (completion : Completion) (h : Heap)
  : Completion * Heap :=
  match completion with
  | Rejected msg => (Rejected msg, h)
  | Completed response => (Completed response, count false a response h)
  end.

(** One request to an agent, with what the API made of it. *)
Inductive Request :=
| ParseImage (completion : Completion)
| Respond (completion : Completion).

Definition serve (a : Agent) (h : Heap) (req : Request) : Heap :=
  match req with
  | ParseImage completion => snd (parseImage a completion h)
  | Respond completion => snd (_respond a completion h)
  end.

(** The heap after the requests [reqs], served in order. *)
Definition serve_all (a : Agent) (reqs : list Request) (h : Heap) : Heap :=
  fold_left (serve a) reqs h.

End Accounting.

(** The usage a request is billed with: that of its completion, if the
    request resolved and the completion carries one. *)
Definition billed (req : Request) : option CompletionUsage :=
  match req with
  | ParseImage (Completed response) | Respond (Completed response) =>
      response_usage response
  | _ => None
  end.

Definition is_image (req : Request) : bool :=
  match req with
  | ParseImage _ => true
  | Respond _ => false
  end.

Definition total (f : CompletionUsage -> Z) (reqs : list Request) : Z :=
  foldr (fun req acc => match billed req with
                        | Some u => f u + acc
                        | None => acc
                        end) 0 reqs.

(** Number of billed [parseImage] requests. *)
Definition billed_images (reqs : list Request) : Z :=
  foldr (fun req acc => match billed req with
                        | Some _ => if is_image req then 1 + acc else acc
                        | None => acc
                        end) 0 reqs.

(** An agent of the test suite after two image requests: its counters
    sit at address 0. *)
Definition test_agent : Agent (AgentConfig := string) :=
  {| config := "test-model"; usage := 0 |}.

Definition test_heap : Heap :=
  [ {| inputTokens := 100; outputTokens := 200; images := 5 |} ].

(** A completion that carries usage but no choice. *)
Definition choiceless : Completion :=
  Completed {| response_usage := Some {| prompt_tokens := 10; completion_tokens := 20 |};
               contents := [] |}.

(** A completion with a choice and without usage. *)
Definition unbilled : Completion :=
  Completed {| response_usage := None; contents := [Some "The image content"] |}.

End Accounting.

(** ** Further vocabulary: a split followed by the merge check *)

(** The text of the node stored under [i] as the merge prompt shows it:
    its content if it is a Document, the empty string otherwise. *)
Definition sibling_text (s : InMemoryKnowledgeStorage) (i : Z) : string :=
  match Storage.get s i with
  | D d => content d
  | _ => ""
  end.

(** Sum of the content lengths of the children of [ph] that are
    Documents, the child [i] left out. *)
Definition others_size (s : InMemoryKnowledgeStorage) (ph : Heading) (i : Z) : Z :=
  foldr (fun r acc => (if decide (ref_id r = i) then 0
                       else document_size s (ref_id r)) + acc) 0 (refs ph).

Module Interplay.

(** Routes to 1, makes the document 200 long, splits it in two and
    merges; the limit is 100. *)
Definition growing : Knowledge :=
  {| config := {| k := 4; maxDocumentSizeChars := 100 |};
     agent := Examples.scripted (fun _ => 1) Examples.made_large
                Examples.two_parts Examples.merged_docs |}.

Definition request : string := "add a long passage".

(** The first of the two small Documents under the root Heading. *)
Definition leaf : Document :=
  {| d_id := 1; d_parentId := Some 0; content := "Small doc 1" |}.

(** The world after the traversal, and after the edit round. *)
Definition located : World :=
  snd (_findLeaf growing 2 request
         (log (EvGet ROOT_DOC_ID (H Examples.small_root)) Examples.two_small_docs)).

Definition rewritten : World := snd (edit_phase growing request leaf located).

End Interplay.

(** ** The constructor of [class Knowledge]

    [constructor(private config: KnowledgeConfig, agent?: Agent)] keeps
    the caller's config object and writes the defaults into it; so
    config objects live in a heap, next to the stores that
    [new InMemoryKnowledgeStorage({})] allocates, and an engine holds
    the address of its config. *)

Module Construction.

(** The optional fields of [KnowledgeConfig] that the constructor
    fills; [storage] is the address of a store. *)
Record ConfigObject := mkConfigObject {
  k : option Z;
  maxDocumentSizeChars : option Z;
  storage : option nat
}.

Record Heap := mkHeap {
  configs : list ConfigObject;
  stores : list InMemoryKnowledgeStorage
}.

(** The three [if (this.config.x === undefined) this.config.x = ...] of
    the constructor, on the config object at [config]. *)
Definition constructor (config : nat) (h : Heap) : Heap :=
  match configs h !! config with
  | None => h
  | Some c =>
      let k' := match k c with
                | None => Some DEFAULT_K
                | given => given
                end in
      let max' := match maxDocumentSizeChars c with
                  | None => Some DEFAULT_MAX_DOCUMENT_SIZE_CHARS
                  | given => given
                  end in
      match storage c with
      | None =>
          {| configs := <[config := {| k := k'; maxDocumentSizeChars := max';
                                       storage := Some (length (stores h)) |}]>
                          (configs h);
             stores := stores h ++ [Storage.create ∅] |}
      | Some address =>
          {| configs := <[config := {| k := k'; maxDocumentSizeChars := max';
                                       storage := Some address |}]>
                          (configs h);
             stores := stores h |}
      end
  end.

(** The store an engine built on the config at [config] works on:
    [this.config.storage!]. *)
Definition storage_of (config : nat) (h : Heap) : option nat :=
  match configs h !! config with
  | Some c => storage c
  | None => None
  end.

(** A config that names only the model, as in the tests, and one that
    sets [k] to 0. *)
Definition bare : Heap :=
  {| configs := [ {| k := None; maxDocumentSizeChars := None; storage := None |};
                  {| k := Some 0; maxDocumentSizeChars := None; storage := None |} ];
     stores := [] |}.

End Construction.
(** ** Facts about the store *)

Lemma set_id (s : InMemoryKnowledgeStorage) (doc : Node) :
  id (Storage.set s doc) = id s.
Proof. destruct doc; reflexivity. Qed.

Lemma setMany_id (docs : list Node) (s : InMemoryKnowledgeStorage) :
  id (Storage.setMany s docs) = id s.
Proof.
  unfold Storage.setMany. revert s.
  induction docs as [|doc docs IH]; intros s; simpl; [reflexivity|].
  rewrite IH. apply set_id.
Qed.

(** The counter never decreases, and every id issued by a run lies between
    the counter before the run and the counter after it. *)
Lemma run_issued_bounds (cs : list Storage.Call) (s : InMemoryKnowledgeStorage) :
  id s <= id (fst (Storage.run s cs)) /\
  Forall (fun i => id s <= i < id (fst (Storage.run s cs))) (Storage.issued s cs) /\
  StronglySorted Z.lt (Storage.issued s cs).
Proof.
  unfold Storage.issued. revert s.
  induction cs as [|c cs IH]; intros s; simpl.
  - split; [lia|]. split; constructor.
  - destruct (Storage.call s c) as [s1 issued1] eqn:Hc.
    specialize (IH s1).
    destruct (Storage.run s1 cs) as [s2 issued2] eqn:Hr. simpl in *.
    destruct IH as (Hle & Hall & Hsorted).
    destruct c; simpl in Hc; inversion Hc; subst; clear Hc; simpl in *;
      rewrite ?set_id, ?setMany_id in *.
    + split; [lia|]. split.
      * constructor; [lia|].
        eapply Forall_impl; [exact Hall|]. simpl. intros; lia.
      * constructor; [exact Hsorted|].
        eapply Forall_impl; [exact Hall|]. simpl. intros; lia.
    + auto.
    + auto.
    + auto.
    + auto.
Qed.

(** C9. On a store built as the engine builds it (id counter 1, any
    contents), whatever sequence of [generateId], [get], [set], [getMany]
    and [setMany] calls a client makes -- deletions included -- the ids
    issued are strictly increasing in the order of issue, so each one is
    strictly greater than all issued before it, none is issued twice, and
    none is ROOT (0). *)
Theorem generateId_fresh (seed : gmap Z Node) (cs : list Storage.Call) :
  let ids := Storage.issued (Storage.create seed) cs in
  StronglySorted Z.lt ids /\
  (forall i j a b, ids !! i = Some a -> ids !! j = Some b -> (i < j)%nat -> a < b) /\
  NoDup ids /\
  Forall (fun i => i <> ROOT_DOC_ID /\ 1 <= i) ids.
Proof.
  intros ids.
  destruct (run_issued_bounds cs (Storage.create seed)) as (_ & Hall & Hsorted).
  fold ids in Hall, Hsorted.
  assert (Hlt : forall i j a b,
             ids !! i = Some a -> ids !! j = Some b -> (i < j)%nat -> a < b).
  { clear Hall. induction Hsorted as [|x l Hs IH Hx]; intros i j a b Hi Hj Hij.
    - rewrite lookup_nil in Hi. discriminate.
    - destruct j as [|j]; [lia|]. simpl in Hj.
      destruct i as [|i]; simpl in Hi.
      + inversion Hi; subst.
        rewrite Forall_forall in Hx. apply Hx.
        eapply list_elem_of_lookup_2; eauto.
      + eapply IH; eauto. lia. }
  split; [exact Hsorted|]. split; [exact Hlt|]. split.
  - apply NoDup_alt. intros i j a Hi Hj.
    destruct (Nat.lt_trichotomy i j) as [Hc|[Hc|Hc]]; [exfalso|exact Hc|exfalso].
    + pose proof (Hlt i j a a Hi Hj Hc). lia.
    + pose proof (Hlt j i a a Hj Hi Hc). lia.
  - eapply Forall_impl; [exact Hall|]. simpl. unfold ROOT_DOC_ID. intros; lia.
Qed.


(** ** Generic facts about loops and the ghost trace *)

Lemma while_S {A B} (body : A -> M (Step A B)) (fuel : nat) (a : A) (w : World) :
  while (S fuel) body a w =
  match body a w with
  | (Return (Continue a'), w') => while fuel body a' w'
  | (Return (Break b), w') => (Return b, w')
  | (Throw msg, w') => (Throw msg, w')
  | (OutOfFuel, w') => (OutOfFuel, w')
  end.
Proof.
  simpl. unfold bind. destruct (body a w) as [[[a'|b]| |] w']; reflexivity.
Qed.

Lemma while_iterate {A B} (body : A -> M (Step A B)) (n m : nat) (a a' : A)
    (w w' : World) :
  iterate n body a w = Some (a', w') ->
  while (n + m) body a w = while m body a' w'.
Proof.
  revert a w. induction n as [|n IH]; intros a w Hit; simpl in *.
  - inversion Hit; reflexivity.
  - unfold bind. destruct (body a w) as [[[a1|b]| |] w1]; try discriminate.
    apply IH, Hit.
Qed.

Lemma new_events_app (w w' : World) (new : list Event) :
  trace w' = new ++ trace w -> new_events w w' = new.
Proof.
  intros Heq. unfold new_events. rewrite Heq, length_app.
  replace (length new + length (trace w) - length (trace w))%nat
    with (length new) by lia.
  apply take_app_length.
Qed.

Lemma new_events_refl (w : World) : new_events w w = [].
Proof. apply new_events_app. reflexivity. Qed.

Lemma rounds_log_get (i : Z) (n : Node) (w : World) :
  rounds (log (EvGet i n) w) = rounds w.
Proof. reflexivity. Qed.

(** The [selectDocument] handler touches nothing but [docId], which ends
    up holding the last answer delivered. *)
Lemma run_selectDocument_handler (l : list Z) (docId : Z) (w : World) :
  run_handler selectDocument_handler l docId w = (Return (default docId (last l)), w).
Proof.
  revert docId. induction l as [|a l IH]; intros docId; simpl; [reflexivity|].
  unfold bind, selectDocument_handler, ret. rewrite IH.
  destruct l as [|b l]; [reflexivity|].
  change (last (a :: b :: l)) with (last (b :: l)).
  destruct (last (b :: l)) eqn:Hl; [reflexivity|].
  apply last_None in Hl. discriminate.
Qed.

(** What one routing round does to the world: one more [EvRespond]. *)
Lemma respond_selectDocument (reply : nat -> Reply Z) (docId : Z) (w : World) :
  respond selectDocument reply selectDocument_handler docId w =
  (match raised (reply (rounds w)) with
   | Some msg => Throw msg
   | None => Return (default docId (last (fired (reply (rounds w)))))
   end, log (EvRespond selectDocument) w).
Proof.
  unfold respond, bind. rewrite run_selectDocument_handler.
  destruct (raised (reply (rounds w))); reflexivity.
Qed.

(** ** [find] *)

(** One pass of the loop of [find], case by case. *)
Lemma find_body_eq (self : Knowledge) (q : string) (docId : Z) (w : World) :
  find_body self q docId w =
  if docId =? -1 then (Return (Break None), w)
  else
    match Storage.get (store w) docId with
    | D d => (Return (Break (Some d)), log (EvGet docId (D d)) w)
    | E e => (Return (Break None), log (EvGet docId (E e)) w)
    | H h =>
        let r := on_selectDocument (agent self) (rounds w) true h q in
        (match raised r with
         | Some msg => Throw msg
         | None => Return (Continue (default docId (last (fired r))))
         end,
         log (EvRespond selectDocument) (log (EvGet docId (H h)) w))
    end.
Proof.
  unfold find_body. destruct (docId =? -1); [reflexivity|].
  unfold bind, storage_get.
  destruct (Storage.get (store w) docId) as [d|h|e]; try reflexivity.
  rewrite respond_selectDocument, rounds_log_get. simpl.
  destruct (raised _); reflexivity.
Qed.

(** [find] only reads: the store is unchanged, and all it adds to the
    trace are routing rounds and fetches of ids other than -1. *)
Lemma find_loop_reads (self : Knowledge) (q : string) (fuel : nat) :
  forall (docId : Z) (w : World),
    let w' := snd (while fuel (find_body self q) docId w) in
    store w' = store w /\
    exists new, trace w' = new ++ trace w /\ Forall fetch_allowed new.
Proof.
  induction fuel as [|fuel IH]; intros docId w.
  - simpl. split; [reflexivity|]. exists []. split; [reflexivity|constructor].
  - cbv zeta. rewrite while_S, find_body_eq.
    destruct (Z.eqb_spec docId (-1)) as [Hm|Hm].
    + simpl. split; [reflexivity|]. exists []. split; [reflexivity|constructor].
    + destruct (Storage.get (store w) docId) as [d|h|e] eqn:Hget; cbv zeta.
      * simpl. split; [reflexivity|]. exists [EvGet docId (D d)].
        split; [reflexivity|]. repeat constructor. exact Hm.
      * destruct (raised _) as [msg|].
        -- simpl. split; [reflexivity|].
           exists [EvRespond selectDocument; EvGet docId (H h)].
           split; [reflexivity|]. repeat constructor. exact Hm.
        -- match goal with
           | |- context [while fuel _ ?d' ?w1] =>
               destruct (IH d' w1) as (Hs & new & Ht & Hall)
           end.
           split; [rewrite Hs; reflexivity|].
           exists (new ++ [EvRespond selectDocument; EvGet docId (H h)]).
           split.
           ++ rewrite Ht. simpl. rewrite <- app_assoc. reflexivity.
           ++ apply Forall_app. split; [exact Hall|].
              repeat constructor. exact Hm.
      * simpl. split; [reflexivity|]. exists [EvGet docId (E e)].
        split; [reflexivity|]. repeat constructor. exact Hm.
Qed.

Lemma find_never_fetches_minus_one (self : Knowledge) (q : string) (fuel : nat)
    (w : World) (node : Node) :
  ~ In (EvGet (-1) node) (new_events w (snd (find self fuel q w))).
Proof.
  destruct (find_loop_reads self q fuel ROOT_DOC_ID w) as (_ & new & Ht & Hall).
  unfold find. rewrite (new_events_app _ _ _ Ht).
  intros Hin. rewrite Forall_forall in Hall.
  apply list_elem_of_In, Hall in Hin. simpl in Hin. congruence.
Qed.

(** C1. For every call to [find]: if the traversal has reached a Heading
    and the [selectDocument] round there ends with the answer -1, then
    [find] returns [undefined] with nothing added to the trace after
    that round, so without any further store access; and no fetch of
    the whole call has id -1. *)
Theorem find_minus_one_not_found (self : Knowledge) (q : string) (w0 : World)
    (n : nat) (d : Z) (w : World) (h : Heading) (l : list Z) (fuel : nat) :
  iterate n (find_body self q) ROOT_DOC_ID w0 = Some (d, w) ->
  d <> -1 ->
  Storage.get (store w) d = H h ->
  on_selectDocument (agent self) (rounds w) true h q = mkReply l None ->
  last l = Some (-1) ->
  (n + 2 <= fuel)%nat ->
  find self fuel q w0 =
    (Return None, log (EvRespond selectDocument) (log (EvGet d (H h)) w)) /\
  store (snd (find self fuel q w0)) = store w0 /\
  forall node, ~ In (EvGet (-1) node) (new_events w0 (snd (find self fuel q w0))).
Proof.
  intros Hit Hd Hget Hreply Hlast Hfuel.
  split; [|split].
  - unfold find. replace fuel with (n + S (S (fuel - n - 2)))%nat by lia.
    rewrite (while_iterate _ _ _ _ _ _ _ Hit).
    rewrite while_S, find_body_eq.
    destruct (Z.eqb_spec d (-1)) as [|_]; [contradiction|].
    rewrite Hget. cbv zeta. rewrite Hreply. simpl raised. simpl fired.
    rewrite Hlast. simpl default.
    rewrite while_S, find_body_eq. reflexivity.
  - apply (find_loop_reads self q fuel ROOT_DOC_ID w0).
  - intros node. apply find_never_fetches_minus_one.
Qed.

(** ** [update]: bootstrap *)

(** C6. On a store without ROOT, when the [createRoot] round delivers the
    content [c], [update] stores [c] as a Document at id 0 without
    parentId and returns the fixed string; the whole call is one fetch of
    ROOT, one oracle round and one write, so neither the locate/edit nor
    the rebalance phase runs.  This holds for every query and needs no
    fuel. *)
Theorem update_bootstrap (self : Knowledge) (fuel : nat) (q : string) (w : World)
    (c : string) :
  storage (store w) !! ROOT_DOC_ID = None ->
  on_createRoot (agent self) (rounds w) q = mkReply [c] None ->
  let root := D {| d_id := 0; d_parentId := None; content := c |} in
  update self fuel q w =
    (Return "Initialized the knowledge base",
     {| store := {| storage := <[0 := root]> (storage (store w));
                    id := id (store w) |};
        trace := EvSet root :: EvRespond createRoot :: EvGet 0 (E 0) :: trace w |}).
Proof.
  intros Habsent Hreply root.
  unfold update, bind at 1, storage_get at 1, Storage.get. rewrite Habsent.
  unfold bind at 1, respond. rewrite rounds_log_get, Hreply. reflexivity.
Qed.

(** ** [update]: locate *)

(** One pass of the loop of [_findLeaf], case by case. *)
Lemma findLeaf_body_eq (self : Knowledge) (q : string) (docId : Z)
    (parent : option Heading) (w : World) :
  findLeaf_body self q (docId, parent) w =
  match Storage.get (store w) docId with
  | D d => (Return (Break (d, parent)), log (EvGet docId (D d)) w)
  | E e => (Throw NON_EXISTENT, log (EvGet docId (E e)) w)
  | H h =>
      let r := on_selectDocument (agent self) (rounds w) false h q in
      (match raised r with
       | Some msg => Throw msg
       | None => Return (Continue (default docId (last (fired r)), Some h))
       end,
       log (EvRespond selectDocument) (log (EvGet docId (H h)) w))
  end.
Proof.
  unfold findLeaf_body, bind, storage_get.
  destruct (Storage.get (store w) docId) as [d|h|e]; try reflexivity.
  rewrite respond_selectDocument, rounds_log_get. simpl.
  destruct (raised _); reflexivity.
Qed.

(** [_findLeaf] only reads; and if one of its fetches came back Empty, it
    has thrown. *)
Lemma findLeaf_loop_inv (self : Knowledge) (q : string) (fuel : nat) :
  forall (vars : Z * option Heading) (w : World),
    let r := fst (while fuel (findLeaf_body self q) vars w) in
    let w' := snd (while fuel (findLeaf_body self q) vars w) in
    store w' = store w /\
    exists new, trace w' = new ++ trace w /\ Forall locate_event new /\
                (Exists fetched_empty new -> r = Throw NON_EXISTENT).
Proof.
  induction fuel as [|fuel IH]; intros [docId parent] w; cbv zeta.
  - simpl. split; [reflexivity|]. exists [].
    split; [reflexivity|]. split; [constructor|].
    intros Hex. inversion Hex.
  - rewrite while_S, findLeaf_body_eq.
    destruct (Storage.get (store w) docId) as [d|h|e] eqn:Hget; cbv zeta.
    + simpl. split; [reflexivity|]. exists [EvGet docId (D d)].
      split; [reflexivity|]. split; [repeat constructor|].
      intros Hex. inversion Hex as [? ? Hh|? ? Ht]; subst;
        [destruct Hh|inversion Ht].
    + destruct (raised _) as [msg|].
      * simpl. split; [reflexivity|].
        exists [EvRespond selectDocument; EvGet docId (H h)].
        split; [reflexivity|]. split; [repeat constructor|].
        intros Hex. inversion Hex as [? ? Hh|? ? Ht]; subst; [destruct Hh|].
        inversion Ht as [? ? Hh|? ? Ht']; subst; [destruct Hh|inversion Ht'].
      * match goal with
        | |- context [while fuel _ ?v' ?w1] =>
            destruct (IH v' w1) as (Hs & new & Htr & Hall & Hex)
        end.
        split; [rewrite Hs; reflexivity|].
        exists (new ++ [EvRespond selectDocument; EvGet docId (H h)]).
        split; [rewrite Htr; simpl; rewrite <- app_assoc; reflexivity|].
        split; [apply Forall_app; split; [exact Hall|repeat constructor]|].
        intros Hex'. apply Exists_app in Hex'. destruct Hex' as [Hex'|Hex'].
        -- apply Hex, Hex'.
        -- exfalso. inversion Hex' as [? ? Hh|? ? Ht]; subst; [destruct Hh|].
           inversion Ht as [? ? Hh|? ? Ht']; subst; [destruct Hh|inversion Ht'].
    + simpl. split; [reflexivity|]. exists [EvGet docId (E e)].
      split; [reflexivity|]. split; [repeat constructor|]. reflexivity.
Qed.

(** C5. On a store whose ROOT is present, if one of the fetches of the
    locate traversal [_findLeaf] comes back Empty, [update] throws the
    taxonomy error to its caller, in the world exactly as the traversal
    left it: the store is unchanged and all [update] has added to the
    trace are fetches and routing rounds -- no edit, split or merge round
    and no write. *)
Theorem update_empty_is_fatal (self : Knowledge) (fuel : nat) (q : string)
    (w : World) :
  let root := Storage.get (store w) ROOT_DOC_ID in
  let w1 := log (EvGet ROOT_DOC_ID root) w in
  (forall i, root <> E i) ->
  Exists fetched_empty (new_events w1 (snd (_findLeaf self fuel q w1))) ->
  update self fuel q w =
    (Throw "The model has selected a non-existent document.",
     snd (_findLeaf self fuel q w1)) /\
  store (snd (update self fuel q w)) = store w /\
  Forall locate_event (new_events w (snd (update self fuel q w))).
Proof.
  intros root w1 Hroot Hex.
  destruct (findLeaf_loop_inv self q fuel (ROOT_DOC_ID, None) w1)
    as (Hs & new & Htr & Hall & Hthrow).
  fold (_findLeaf self fuel q) in Hs, Htr, Hthrow.
  rewrite (new_events_app _ _ _ Htr) in Hex. specialize (Hthrow Hex).
  assert (Hupd : update self fuel q w =
                 (Throw NON_EXISTENT, snd (_findLeaf self fuel q w1))).
  { unfold update, bind at 1, storage_get at 1. fold root. fold w1.
    destruct root as [d|h|e] eqn:Hr; [| |exfalso; eapply Hroot; reflexivity];
      unfold bind at 1;
      destruct (_findLeaf self fuel q w1) as [r w']; simpl in *; subst r;
      reflexivity. }
  split; [exact Hupd|]. rewrite Hupd. simpl. split; [exact Hs|].
  assert (Htr' : trace (snd (_findLeaf self fuel q w1)) =
                 (new ++ [EvGet ROOT_DOC_ID root]) ++ trace w).
  { rewrite Htr. simpl. rewrite <- app_assoc. reflexivity. }
  rewrite (new_events_app _ _ _ Htr').
  apply Forall_app. split; [exact Hall|repeat constructor].
Qed.

(** ** The store, as the engine calls it *)

Lemma storage_getMany_eq (ids : list Z) (w : World) :
  storage_getMany ids w =
  (Return (Storage.getMany (store w) ids),
   {| store := store w;
      trace := rev (map (fun i => EvGet i (Storage.get (store w) i)) ids) ++ trace w |}).
Proof.
  unfold storage_getMany, Storage.getMany. revert w.
  induction ids as [|i ids IH]; intros w; simpl.
  - destruct w; reflexivity.
  - unfold bind at 1, storage_get at 1. unfold bind at 1.
    rewrite IH. simpl. unfold ret. rewrite <- app_assoc. reflexivity.
Qed.

Lemma setMany_app (s : InMemoryKnowledgeStorage) (docs1 docs2 : list Node) :
  Storage.setMany s (docs1 ++ docs2) = Storage.setMany (Storage.setMany s docs1) docs2.
Proof. unfold Storage.setMany. apply fold_left_app. Qed.

Lemma storage_setMany_eq (docs : list Node) (w : World) :
  storage_setMany docs w =
  (Return tt,
   {| store := Storage.setMany (store w) docs;
      trace := rev (map EvSet docs) ++ trace w |}).
Proof.
  unfold storage_setMany, bind.
  assert (Hm : forall w, exists us,
             mapM storage_set docs w =
             (Return us, {| store := Storage.setMany (store w) docs;
                            trace := rev (map EvSet docs) ++ trace w |})).
  { clear w. induction docs as [|doc docs IH]; intros w; simpl.
    - exists []. destruct w; reflexivity.
    - unfold bind at 1, storage_set at 1. unfold bind at 1.
      destruct (IH {| store := Storage.set (store w) doc;
                      trace := EvSet doc :: trace w |}) as [us Hus].
      rewrite Hus. exists (tt :: us). simpl. unfold ret.
      rewrite <- app_assoc. reflexivity. }
  destruct (Hm w) as [us Hus]. rewrite Hus. reflexivity.
Qed.

(** C10. [getMany(ids)] returns, without changing the store, a list as
    long as [ids] whose i-th element is what [get(ids[i])] returns: the
    node stored under that id if there is one, and an Empty node carrying
    that id otherwise. *)
Theorem getMany_aligned (ids : list Z) (w : World) :
  exists nodes w',
    storage_getMany ids w = (Return nodes, w') /\
    store w' = store w /\
    nodes = Storage.getMany (store w) ids /\
    length nodes = length ids /\
    forall (i : nat) (x : Z),
      ids !! i = Some x ->
      nodes !! i = Some (Storage.get (store w) x) /\
      storage_get x w = (Return (Storage.get (store w) x),
                         log (EvGet x (Storage.get (store w) x)) w) /\
      Storage.get (store w) x =
        match storage (store w) !! x with
        | Some stored => stored
        | None => E x
        end.
Proof.
  eexists. eexists. split; [apply storage_getMany_eq|].
  split; [reflexivity|]. split; [reflexivity|].
  unfold Storage.getMany. split; [apply length_map|].
  intros i x Hi. split; [|split; reflexivity].
  rewrite list_lookup_fmap, Hi. reflexivity.
Qed.

(** The sum the merge phase computes over the fetched siblings is the sum
    of the sizes of the children, position by position. *)
Lemma totalSize_children (s : InMemoryKnowledgeStorage) (ph : Heading) :
  totalSize (Storage.getMany s (map ref_id (refs ph))) = children_size s ph.
Proof.
  unfold totalSize, children_size, Storage.getMany.
  generalize (refs ph) as rs. intros rs.
  assert (Hgen : forall acc,
             fold_left (fun acc s0 => match s0 with
                                      | D d => acc + content_length d
                                      | _ => acc
                                      end) (map (Storage.get s) (map ref_id rs)) acc
             = acc + foldr (fun r a => document_size s (ref_id r) + a) 0 rs).
  { induction rs as [|r rs IH]; intros acc; simpl; [lia|].
    rewrite IH. unfold document_size.
    destruct (Storage.get s (ref_id r)); lia. }
  rewrite Hgen. lia.
Qed.

Lemma lookup_set_other (s : InMemoryKnowledgeStorage) (doc : Node) (key : Z) :
  node_id doc <> key ->
  storage (Storage.set s doc) !! key = storage s !! key.
Proof.
  intros Hne. destruct doc; simpl in *.
  - apply lookup_insert_ne, Hne.
  - apply lookup_insert_ne, Hne.
  - apply lookup_delete_ne, Hne.
Qed.

Lemma lookup_setMany_other (docs : list Node) (s : InMemoryKnowledgeStorage)
    (key : Z) :
  Forall (fun doc => node_id doc <> key) docs ->
  storage (Storage.setMany s docs) !! key = storage s !! key.
Proof.
  unfold Storage.setMany. revert s.
  induction docs as [|doc docs IH]; intros s Hall; simpl; [reflexivity|].
  inversion Hall; subst. rewrite IH by assumption.
  apply lookup_set_other. assumption.
Qed.

Lemma split_docs_ids (parent : Z) (arg : list Piece) (c : Z) :
  Forall (fun doc => c <= node_id doc < c + Z.of_nat (length arg))
         (split_docs c parent arg).
Proof.
  revert c. induction arg as [|p arg IH]; intros c; simpl; constructor.
  - simpl. lia.
  - eapply Forall_impl; [apply IH|]. simpl. intros; lia.
Qed.

Lemma split_refs_ids (arg : list Piece) (c : Z) :
  map ref_id (split_refs c arg) = seqZ c (Z.of_nat (length arg)).
Proof.
  revert c. induction arg as [|p arg IH]; intros c; simpl length.
  - reflexivity.
  - rewrite Nat2Z.inj_succ, seqZ_cons by lia. simpl. rewrite IH.
    f_equal. f_equal; lia.
Qed.

Lemma split_refs_lookup (arg : list Piece) (c : Z) (i : nat) (p : Piece) :
  arg !! i = Some p ->
  split_refs c arg !! i =
    Some {| ref_id := c + Z.of_nat i; short := shortDescription p |}.
Proof.
  revert c i. induction arg as [|p0 arg IH]; intros c i Hi; [discriminate|].
  destruct i as [|i].
  - inversion Hi; subst. simpl split_refs. simpl lookup.
    replace (c + Z.of_nat 0) with c by lia. reflexivity.
  - simpl in Hi. simpl split_refs. simpl lookup.
    rewrite (IH _ _ Hi). replace (c + 1 + Z.of_nat i) with (c + Z.of_nat (S i)) by lia. reflexivity.
Qed.

(** After the documents of a split are written, the i-th piece is stored
    under the i-th id taken from the counter. *)
Lemma lookup_split_docs (parent : Z) (arg : list Piece) :
  forall (c : Z) (s : InMemoryKnowledgeStorage) (i : nat) (p : Piece),
    arg !! i = Some p ->
    storage (Storage.setMany s (split_docs c parent arg)) !! (c + Z.of_nat i) =
      Some (D {| d_id := c + Z.of_nat i; d_parentId := Some parent;
                 content := piece_content p |}).
Proof.
  induction arg as [|p0 arg IH]; intros c s i p Hi; [discriminate|].
  destruct i as [|i]; simpl in Hi.
  - inversion Hi; subst. simpl split_docs.
    change (Storage.setMany s (?d :: ?l)) with (Storage.setMany (Storage.set s d) l).
    rewrite lookup_setMany_other.
    + simpl. replace (c + Z.of_nat 0) with c by lia. apply lookup_insert_eq.
    + eapply Forall_impl; [apply split_docs_ids|]. simpl. intros; lia.
  - simpl split_docs.
    change (Storage.setMany s (?d :: ?l)) with (Storage.setMany (Storage.set s d) l).
    replace (c + Z.of_nat (S i)) with ((c + 1) + Z.of_nat i) by lia.
    apply IH, Hi.
Qed.

(** The loop of the [splitDocument] handler takes one id from the counter
    per piece and touches nothing else. *)
Lemma split_loop_eq (doc : Document) (arg : list Piece) :
  forall (refs0 : list Ref) (docs0 : list Node) (w : World),
    split_loop doc arg refs0 docs0 w =
    (Return (refs0 ++ split_refs (id (store w)) arg,
             docs0 ++ split_docs (id (store w)) (d_id doc) arg),
     {| store := {| storage := storage (store w);
                    id := id (store w) + Z.of_nat (length arg) |};
        trace := rev (map (fun r => EvGenerateId (ref_id r))
                          (split_refs (id (store w)) arg)) ++ trace w |}).
Proof.
  induction arg as [|p arg IH]; intros refs0 docs0 w; simpl.
  - unfold ret. rewrite !app_nil_r, Z.add_0_r. destruct w as [[? ?] ?]; reflexivity.
  - unfold bind at 1, storage_generateId at 1. simpl.
    rewrite IH. simpl. rewrite <- !app_assoc. simpl.
    replace (id (store w) + 1 + Z.of_nat (length arg))
      with (id (store w) + Z.of_nat (S (length arg))) by lia.
    reflexivity.
Qed.

Lemma splitDocument_handler_eq (doc : Document) (arg : list Piece) (w : World) :
  let c := id (store w) in
  let heading := {| h_id := d_id doc; h_parentId := d_parentId doc;
                    refs := split_refs c arg |} in
  let docs := split_docs c (d_id doc) arg ++ [H heading] in
  splitDocument_handler doc arg tt w =
  (Return tt,
   {| store := Storage.setMany {| storage := storage (store w);
                                  id := c + Z.of_nat (length arg) |} docs;
      trace := rev (map EvSet docs) ++
               rev (map (fun r => EvGenerateId (ref_id r)) (split_refs c arg)) ++
               trace w |}).
Proof.
  intros c heading docs.
  unfold splitDocument_handler, bind. rewrite split_loop_eq. simpl.
  rewrite storage_setMany_eq. reflexivity.
Qed.

(** ** [update]: the phases after locate *)

(** Once ROOT is present, the traversal has returned and the edit round
    has returned, [update] is what remains: split check, merge check,
    [return shortUpdateDescription]. *)
Lemma update_phases (self : Knowledge) (fuel : nat) (q : string) (w : World)
    (doc : Document) (parent : option Heading) (summary : string) (w2 w3 : World) :
  let root := Storage.get (store w) ROOT_DOC_ID in
  (forall i, root <> E i) ->
  _findLeaf self fuel q (log (EvGet ROOT_DOC_ID root) w) = (Return (doc, parent), w2) ->
  edit_phase self q doc w2 = (Return summary, w3) ->
  update self fuel q w =
    (_ <- split_phase self doc ;; _ <- merge_phase self parent ;; ret summary) w3.
Proof.
  intros root Hroot Hleaf Hedit.
  unfold update, bind at 1, storage_get at 1. fold root.
  destruct root as [d|h|e] eqn:Hr; [| |exfalso; eapply Hroot; reflexivity];
    unfold bind at 1; rewrite Hleaf; unfold bind at 1; rewrite Hedit; reflexivity.
Qed.

Lemma get_document_stored (s : InMemoryKnowledgeStorage) (i : Z) (d : Document) :
  Storage.get s i = D d -> storage s !! i = Some (D d).
Proof.
  unfold Storage.get. destruct (storage s !! i); intros Heq; [congruence|discriminate].
Qed.

(** What the split check does to a world in which the edited document is
    too long and the [splitDocument] round delivers [parts]. *)
Lemma split_phase_oversized (self : Knowledge) (doc ud : Document) (w : World)
    (parts : list Piece) :
  Storage.get (store w) (d_id doc) = D ud ->
  content_length ud > maxDocumentSizeChars (config self) ->
  on_splitDocument (agent self) (rounds w) (k (config self)) (content ud)
    = mkReply [parts] None ->
  let c := id (store w) in
  let heading := {| h_id := d_id doc; h_parentId := d_parentId doc;
                    refs := split_refs c parts |} in
  let docs := split_docs c (d_id doc) parts ++ [H heading] in
  split_phase self doc w =
  (Return tt,
   {| store := Storage.setMany {| storage := storage (store w);
                                  id := c + Z.of_nat (length parts) |} docs;
      trace := rev (map EvSet docs) ++
               rev (map (fun r => EvGenerateId (ref_id r)) (split_refs c parts)) ++
               EvRespond splitDocument :: EvGet (d_id doc) (D ud) :: trace w |}).
Proof.
  intros Hget Hbig Hreply c heading docs.
  unfold split_phase, bind at 1, storage_get at 1. rewrite Hget.
  destruct (Z.gtb_spec (content_length ud) (maxDocumentSizeChars (config self)));
    [|lia].
  unfold respond. rewrite rounds_log_get, Hreply. simpl fired. simpl raised.
  unfold run_handler, bind. rewrite splitDocument_handler_eq. reflexivity.
Qed.

(** C2. Take an [update] whose traversal and edit round have returned, and
    let [ud] be the edited Document as re-fetched.  If [ud] is at or below
    [maxDocumentSizeChars], no split round is issued and nothing is
    written: [update] goes straight on to the merge check.  If [ud] is
    longer and the [splitDocument] round delivers [parts], then on a store
    whose ids in use are all below the counter the engine takes one id per
    part from the counter -- ids not in use before --, stores each part
    under its id as a Document whose parentId is the original node's id,
    and overwrites the original node's id with a Heading that keeps the
    original parentId and whose refs are exactly those ids with the
    oracle's short descriptions, in order; no other node changes. *)
Theorem update_splits_oversized (self : Knowledge) (fuel : nat) (q : string)
    (w : World) (doc : Document) (parent : option Heading) (summary : string)
    (w2 w3 : World) (ud : Document) (parts : list Piece) :
  let root := Storage.get (store w) ROOT_DOC_ID in
  (forall i, root <> E i) ->
  _findLeaf self fuel q (log (EvGet ROOT_DOC_ID root) w) = (Return (doc, parent), w2) ->
  edit_phase self q doc w2 = (Return summary, w3) ->
  Storage.get (store w3) (d_id doc) = D ud ->
  allocator_ahead (store w3) ->
  let c := id (store w3) in
  let fetched := log (EvGet (d_id doc) (D ud)) w3 in
  (content_length ud <= maxDocumentSizeChars (config self) ->
   split_phase self doc w3 = (Return tt, fetched) /\
   update self fuel q w = (_ <- merge_phase self parent ;; ret summary) fetched) /\
  (content_length ud > maxDocumentSizeChars (config self) ->
   on_splitDocument (agent self) (rounds w3) (k (config self)) (content ud)
     = mkReply [parts] None ->
   exists w4,
     split_phase self doc w3 = (Return tt, w4) /\
     update self fuel q w = (_ <- merge_phase self parent ;; ret summary) w4 /\
     id (store w4) = c + Z.of_nat (length parts) /\
     filter is_respond (new_events w3 w4) = [EvRespond splitDocument] /\
     (forall (i : nat) (p : Piece),
        parts !! i = Some p ->
        storage (store w3) !! (c + Z.of_nat i) = None /\
        In (EvGenerateId (c + Z.of_nat i)) (new_events w3 w4) /\
        storage (store w4) !! (c + Z.of_nat i) =
          Some (D {| d_id := c + Z.of_nat i;
                     d_parentId := Some (d_id doc);
                     content := piece_content p |})) /\
     (exists rs,
        storage (store w4) !! d_id doc =
          Some (H {| h_id := d_id doc; h_parentId := d_parentId doc; refs := rs |}) /\
        length rs = length parts /\
        forall (i : nat) (p : Piece),
          parts !! i = Some p ->
          rs !! i = Some {| ref_id := c + Z.of_nat i; short := shortDescription p |}) /\
     (forall key, key <> d_id doc -> key < c ->
        storage (store w4) !! key = storage (store w3) !! key)).
Proof.
  intros root Hroot Hleaf Hedit Hget Hahead c fetched.
  pose proof (update_phases self fuel q w doc parent summary w2 w3 Hroot Hleaf Hedit)
    as Hupd. fold root in Hupd.
  split.
  - intros Hsmall.
    assert (Hsplit : split_phase self doc w3 = (Return tt, fetched)).
    { unfold split_phase, bind at 1, storage_get at 1. rewrite Hget.
      destruct (Z.gtb_spec (content_length ud) (maxDocumentSizeChars (config self)));
        [lia|reflexivity]. }
    split; [exact Hsplit|].
    rewrite Hupd. unfold bind at 1. rewrite Hsplit. reflexivity.
  - intros Hbig Hreply.
    pose proof (split_phase_oversized self doc ud w3 parts Hget Hbig Hreply) as Hsplit.
    cbv zeta in Hsplit. fold c in Hsplit.
    eexists. split; [exact Hsplit|].
    split; [rewrite Hupd; unfold bind at 1; rewrite Hsplit; reflexivity|].
    assert (Hdoc : d_id doc < c).
    { apply get_document_stored in Hget. exact (Hahead _ _ Hget). }
    match type of Hsplit with
    | _ = (_, ?w4) =>
        assert (Hnew : new_events w3 w4 =
                  rev (map EvSet
                         (split_docs c (d_id doc) parts ++
                          [H {| h_id := d_id doc; h_parentId := d_parentId doc;
                                refs := split_refs c parts |}])) ++
                  rev (map (fun r => EvGenerateId (ref_id r)) (split_refs c parts)) ++
                  [EvRespond splitDocument; EvGet (d_id doc) (D ud)])
    end.
    { apply new_events_app. simpl. rewrite <- !app_assoc. reflexivity. }
    rewrite Hnew. simpl store. rewrite setMany_id. simpl id.
    split; [reflexivity|]. split; [|split; [|split]].
    + rewrite !filter_app.
      assert (Hsets : forall l, filter is_respond (rev (map EvSet l)) = []).
      { intros l. induction l as [|x l IHl]; [reflexivity|].
        simpl. rewrite filter_app, IHl. reflexivity. }
      assert (Hgens : forall l, filter is_respond
                        (rev (map (fun r => EvGenerateId (ref_id r)) l)) = []).
      { intros l. induction l as [|x l IHl]; [reflexivity|].
        simpl. rewrite filter_app, IHl. reflexivity. }
      rewrite Hsets, Hgens. reflexivity.
    + intros i p Hi. split; [|split].
      * destruct (storage (store w3) !! (c + Z.of_nat i)) as [n|] eqn:Hl;
          [|reflexivity].
        pose proof (Hahead _ _ Hl) as Hlt. simpl in Hlt. fold c in Hlt. lia.
      * apply in_or_app. right. apply in_or_app. left.
        apply in_rev. rewrite rev_involutive.
        apply in_map_iff. eexists. split;
          [|apply list_elem_of_In; eapply list_elem_of_lookup_2;
            apply split_refs_lookup; exact Hi].
        reflexivity.
      * rewrite setMany_app.
        change (Storage.setMany ?s [?n]) with (Storage.set s n).
        rewrite lookup_set_other by (simpl; lia).
        apply lookup_split_docs, Hi.
    + exists (split_refs c parts). split; [|split].
      * rewrite setMany_app.
        change (Storage.setMany ?s [?n]) with (Storage.set s n).
        simpl. apply lookup_insert_eq.
      * rewrite <- (length_map ref_id), split_refs_ids, length_seqZ. lia.
      * intros i p Hi. apply split_refs_lookup, Hi.
    + intros key Hkey Hlt.
      rewrite setMany_app.
      change (Storage.setMany ?s [?n]) with (Storage.set s n).
      rewrite lookup_set_other by (simpl; congruence).
      rewrite lookup_setMany_other; [reflexivity|].
      eapply Forall_impl; [apply split_docs_ids|]. simpl. intros; lia.
Qed.

(** ** [update]: merge *)

(** The [mergeDocuments] handler, case by case. *)
Lemma mergeDocuments_handler_eq (ph : Heading) (arg : Piece) (w : World) :
  let newDoc := D {| d_id := h_id ph; d_parentId := h_parentId ph;
                     content := piece_content arg |} in
  let s1 := Storage.set (store w) newDoc in
  let collapsed := {| store := s1; trace := EvSet newDoc :: trace w |} in
  mergeDocuments_handler ph arg tt w =
  (Return tt,
   match h_parentId ph with
   | None => collapsed
   | Some parentId =>
       if parentId =? 0 then collapsed
       else
         match Storage.get s1 parentId with
         | H g =>
             let g' := H {| h_id := h_id g; h_parentId := h_parentId g;
                            refs := retitle (h_id ph) (shortDescription arg) (refs g) |} in
             {| store := Storage.set s1 g';
                trace := EvSet g' :: EvGet parentId (H g) :: EvSet newDoc :: trace w |}
         | other =>
             {| store := s1;
                trace := EvGet parentId other :: EvSet newDoc :: trace w |}
         end
   end).
Proof.
  intros newDoc s1 collapsed.
  unfold mergeDocuments_handler, bind at 1, storage_set at 1.
  fold newDoc. fold s1.
  destruct (h_parentId ph) as [parentId|]; [|reflexivity].
  destruct (parentId =? 0); [reflexivity|].
  unfold bind, storage_get. cbn [store].
  destruct (Storage.get s1 parentId); reflexivity.
Qed.

(** The handler returns, issues no oracle round of its own, and on a
    well-formed store leaves the collapsed parent in place as a Document. *)
Lemma mergeDocuments_handler_spec (ph : Heading) (arg : Piece) (w : World) :
  exists w' new,
    mergeDocuments_handler ph arg tt w = (Return tt, w') /\
    trace w' = new ++ trace w /\ no_respond new /\
    id (store w') = id (store w) /\
    (store_wf (store w) ->
     storage (store w') !! h_id ph =
       Some (D {| d_id := h_id ph; d_parentId := h_parentId ph;
                  content := piece_content arg |})).
Proof.
  pose proof (mergeDocuments_handler_eq ph arg w) as Heq. cbv zeta in Heq.
  revert Heq.
  destruct (h_parentId ph) as [parentId|]; intros Heq.
  2:{ eexists; eexists [_]. split; [exact Heq|]. split; [reflexivity|].
      split; [reflexivity|]. split; [reflexivity|].
      intros _. simpl. apply lookup_insert_eq. }
  revert Heq. destruct (Z.eqb_spec parentId 0) as [Hz|Hz]; intros Heq.
  { eexists; eexists [_]. split; [exact Heq|]. split; [reflexivity|].
    split; [reflexivity|]. split; [reflexivity|].
    intros _. simpl. apply lookup_insert_eq. }
  revert Heq. destruct (Storage.get _ parentId) as [d|g|e] eqn:Hget; intros Heq.
  - eexists; eexists [_; _]. split; [exact Heq|]. split; [reflexivity|].
    split; [reflexivity|]. split; [reflexivity|].
    intros _. simpl. apply lookup_insert_eq.
  - eexists; eexists [_; _; _]. split; [exact Heq|]. split; [reflexivity|].
    split; [reflexivity|]. split; [reflexivity|].
    intros Hwf. simpl.
    destruct (decide (parentId = h_id ph)) as [Heq'|Hne].
    + subst parentId. unfold Storage.get in Hget. simpl in Hget.
      rewrite lookup_insert_eq in Hget. discriminate.
    + unfold Storage.get in Hget. simpl in Hget.
      rewrite lookup_insert_ne in Hget by congruence.
      destruct (storage (store w) !! parentId) as [n|] eqn:Hl; [|discriminate].
      subst n. pose proof (Hwf _ _ Hl) as Hid. simpl in Hid.
      rewrite lookup_insert_ne by congruence. apply lookup_insert_eq.
  - eexists; eexists [_; _]. split; [exact Heq|]. split; [reflexivity|].
    split; [reflexivity|]. split; [reflexivity|].
    intros _. simpl. apply lookup_insert_eq.
Qed.

Lemma no_respond_gets (s : InMemoryKnowledgeStorage) (ids : list Z) :
  no_respond (rev (map (fun i => EvGet i (Storage.get s i)) ids)).
Proof.
  unfold no_respond. induction ids as [|i ids IH]; [reflexivity|].
  simpl. rewrite filter_app, IH. reflexivity.
Qed.

Lemma no_respond_not_in (l : list Event) (t : Tool) :
  no_respond l -> ~ In (EvRespond t) l.
Proof.
  unfold no_respond. intros Hno Hin.
  assert (Hin' : EvRespond t ∈ filter is_respond l).
  { apply list_elem_of_filter. split; [exact I|]. apply list_elem_of_In, Hin. }
  rewrite Hno in Hin'. inversion Hin'.
Qed.

Lemma rounds_no_respond (w : World) (new : list Event) (s : InMemoryKnowledgeStorage) :
  no_respond new ->
  rounds {| store := s; trace := new ++ trace w |} = rounds w.
Proof.
  unfold rounds, no_respond. simpl. intros Hno. rewrite filter_app, Hno. reflexivity.
Qed.

(** Any merge round leaves a trace that starts at its [EvRespond]. *)
Lemma respond_mergeDocuments_trace (ph : Heading) (reply : nat -> Reply Piece)
    (w : World) :
  exists new,
    trace (snd (respond mergeDocuments reply (mergeDocuments_handler ph) tt w)) =
    new ++ EvRespond mergeDocuments :: trace w.
Proof.
  unfold respond.
  assert (Hrun : forall args w1, exists w' new,
             run_handler (mergeDocuments_handler ph) args tt w1 = (Return tt, w') /\
             trace w' = new ++ trace w1).
  { induction args as [|a args IH]; intros w1; simpl.
    - exists w1, []. split; reflexivity.
    - destruct (mergeDocuments_handler_spec ph a w1)
        as (wa & newa & Ha & Hta & _).
      unfold bind. rewrite Ha.
      destruct (IH wa) as (w' & new & Hr & Ht).
      exists w', (new ++ newa). split; [exact Hr|].
      rewrite Ht, Hta, <- app_assoc. reflexivity. }
  destruct (Hrun (fired (reply (rounds w))) (log (EvRespond mergeDocuments) w))
    as (w' & new & Hr & Ht).
  exists new. unfold bind. rewrite Hr.
  destruct (raised _); simpl; exact Ht.
Qed.

(** The merge check, unfolded: the fetches of the siblings, then the
    comparison of their total size with half the limit. *)
Lemma merge_phase_eq (self : Knowledge) (ph : Heading) (w : World) :
  let siblings := Storage.getMany (store w) (map ref_id (refs ph)) in
  let fetched :=
    {| store := store w;
       trace := rev (map (fun i => EvGet i (Storage.get (store w) i))
                         (map ref_id (refs ph))) ++ trace w |} in
  merge_phase self (Some ph) w =
  if 2 * children_size (store w) ph <? maxDocumentSizeChars (config self) then
    respond mergeDocuments
      (fun n => on_mergeDocuments (agent self) n (sibling_contents siblings))
      (mergeDocuments_handler ph) tt fetched
  else (Return tt, fetched).
Proof.
  intros siblings fetched.
  unfold merge_phase, bind. rewrite storage_getMany_eq.
  fold siblings. fold fetched.
  unfold siblings at 1. rewrite totalSize_children.
  destruct (2 * children_size (store w) ph <? maxDocumentSizeChars (config self));
    reflexivity.
Qed.

Lemma bind_ret_snd {A B} (m : M A) (b : B) (w : World) :
  snd ((_ <- m ;; ret b) w) = snd (m w).
Proof. unfold bind, ret. destruct (m w) as [[a|msg|] w']; reflexivity. Qed.

(** C3. Take an [update] that has come through its traversal, its edit
    round and its split check.  The merge round is issued if and only if
    the edited Document had a parent Heading and the content lengths of
    that Heading's children that are Documents -- fetched by id, Headings
    and absent nodes counting zero -- sum to strictly less than half of
    [maxDocumentSizeChars].  When the round then delivers [arg], on a
    store whose nodes sit under their own ids, [update] returns the edit's
    short description and the parent Heading's id holds a Document with
    the merged content and the parent's parentId. *)
Theorem update_merges_small (self : Knowledge) (fuel : nat) (q : string)
    (w : World) (doc : Document) (parent : option Heading) (summary : string)
    (w2 w3 w4 : World) :
  let root := Storage.get (store w) ROOT_DOC_ID in
  (forall i, root <> E i) ->
  _findLeaf self fuel q (log (EvGet ROOT_DOC_ID root) w) = (Return (doc, parent), w2) ->
  edit_phase self q doc w2 = (Return summary, w3) ->
  split_phase self doc w3 = (Return tt, w4) ->
  let final := snd (update self fuel q w) in
  let limit := maxDocumentSizeChars (config self) in
  (In (EvRespond mergeDocuments) (new_events w4 final) <->
   exists ph, parent = Some ph /\ 2 * children_size (store w4) ph < limit) /\
  (forall (ph : Heading) (arg : Piece),
     parent = Some ph ->
     2 * children_size (store w4) ph < limit ->
     store_wf (store w4) ->
     on_mergeDocuments (agent self) (rounds w4)
       (sibling_contents (Storage.getMany (store w4) (map ref_id (refs ph))))
       = mkReply [arg] None ->
     update self fuel q w = (Return summary, final) /\
     storage (store final) !! h_id ph =
       Some (D {| d_id := h_id ph; d_parentId := h_parentId ph;
                  content := piece_content arg |})).
Proof.
  intros root Hroot Hleaf Hedit Hsplit final limit.
  pose proof (update_phases self fuel q w doc parent summary w2 w3 Hroot Hleaf Hedit)
    as Hupd. fold root in Hupd.
  assert (Hupd' : update self fuel q w =
                  (_ <- merge_phase self parent ;; ret summary) w4).
  { rewrite Hupd. unfold bind at 1. rewrite Hsplit. reflexivity. }
  assert (Hfinal : final = snd (merge_phase self parent w4)).
  { unfold final. rewrite Hupd'. apply bind_ret_snd. }
  split.
  - rewrite Hfinal. destruct parent as [ph|].
    + rewrite merge_phase_eq. fold limit.
      destruct (Z.ltb_spec (2 * children_size (store w4) ph) limit) as [Hlt|Hge].
      * split; [intros _; exists ph; split; [reflexivity|exact Hlt]|].
        intros _.
        match goal with
        | |- context [respond mergeDocuments ?r (mergeDocuments_handler ph) tt ?wf] =>
            destruct (respond_mergeDocuments_trace ph r wf) as [new Hnew]
        end.
        simpl trace in Hnew at 2.
        rewrite (new_events_app _ _
                   (new ++ EvRespond mergeDocuments ::
                    rev (map (fun i => EvGet i (Storage.get (store w4) i))
                             (map ref_id (refs ph)))))
          by (rewrite Hnew, <- app_assoc; reflexivity).
        apply in_or_app. right. left. reflexivity.
      * split.
        -- intros Hin. exfalso. simpl in Hin.
           rewrite (new_events_app w4 _ (rev (map (fun i => EvGet i (Storage.get (store w4) i))
                                             (map ref_id (refs ph))))) in Hin
             by reflexivity.
           eapply no_respond_not_in; [apply no_respond_gets|exact Hin].
        -- intros (ph' & Heq & Hlt). inversion Heq; subst. lia.
    + simpl. rewrite new_events_refl. split; [intros []|].
      intros (ph & Heq & _). discriminate.
  - intros ph arg Hparent Hlt Hwf Hreply. subst parent.
    assert (Hmerge : exists wf', merge_phase self (Some ph) w4 = (Return tt, wf') /\
               storage (store wf') !! h_id ph =
                 Some (D {| d_id := h_id ph; d_parentId := h_parentId ph;
                            content := piece_content arg |})).
    { rewrite merge_phase_eq. fold limit.
      destruct (Z.ltb_spec (2 * children_size (store w4) ph) limit); [|lia].
      unfold respond.
      rewrite rounds_no_respond by apply no_respond_gets.
      rewrite Hreply. simpl fired. simpl raised.
      match goal with
      | |- context [log (EvRespond mergeDocuments) ?wf] =>
          destruct (mergeDocuments_handler_spec ph arg (log (EvRespond mergeDocuments) wf))
            as (w' & new & Hh & _ & _ & _ & Hstored)
      end.
      exists w'. unfold run_handler, bind. rewrite Hh. simpl.
      split; [reflexivity|]. apply Hstored. exact Hwf. }
    destruct Hmerge as (wf' & Hm & Hstored).
    rewrite Hfinal, Hupd'. unfold bind. rewrite Hm. simpl.
    split; [reflexivity|exact Hstored].
Qed.

(** ** [update]: the grandparent after a merge *)

Lemma retitle_length (target : Z) (newShort : string) (rs : list Ref) :
  length (retitle target newShort rs) = length rs.
Proof. apply length_map. Qed.

Lemma retitle_lookup (target : Z) (newShort : string) (rs : list Ref)
    (i : nat) (r : Ref) :
  rs !! i = Some r ->
  retitle target newShort rs !! i =
    Some (if ref_id r =? target
          then {| ref_id := ref_id r; short := newShort |}
          else r).
Proof.
  intros Hi. unfold retitle. rewrite list_lookup_fmap, Hi. reflexivity.
Qed.

(** X13. When the collapsed parent's parentId is a number other than 0 and a
    Heading is stored under it, the handler rewrites that Heading: same
    id, same parentId, and the same references except that those to the
    collapsed parent carry the new short description. *)
Lemma merge_retitles_grandparent (ph g : Heading) (arg : Piece) (w : World)
    (parentId : Z) :
  h_parentId ph = Some parentId ->
  parentId <> 0 ->
  parentId <> h_id ph ->
  storage (store w) !! parentId = Some (H g) ->
  h_id g = parentId ->
  exists w',
    mergeDocuments_handler ph arg tt w = (Return tt, w') /\
    storage (store w') !! parentId =
      Some (H {| h_id := h_id g; h_parentId := h_parentId g;
                 refs := retitle (h_id ph) (shortDescription arg) (refs g) |}) /\
    forall key, key <> parentId -> key <> h_id ph ->
                storage (store w') !! key = storage (store w) !! key.
Proof.
  intros Hpar Hnz Hne Hg Hid.
  pose proof (mergeDocuments_handler_eq ph arg w) as Heq. cbv zeta in Heq.
  rewrite Hpar in Heq.
  destruct (Z.eqb_spec parentId 0) as [|_]; [contradiction|].
  assert (Hget : Storage.get
                   (Storage.set (store w)
                      (D {| d_id := h_id ph; d_parentId := Some parentId;
                            content := piece_content arg |})) parentId = H g).
  { unfold Storage.get. simpl. rewrite lookup_insert_ne by congruence.
    rewrite Hg. reflexivity. }
  rewrite Hget in Heq. eexists. split; [exact Heq|]. simpl. split.
  - rewrite Hid. apply lookup_insert_eq.
  - intros key Hk1 Hk2. rewrite Hid.
    rewrite !lookup_insert_ne by congruence. reflexivity.
Qed.

(** C4, evaluated on a tree of three levels.  The edit of Document 3
    makes the children of Heading 1 small, the merge round is issued and
    Heading 1 collapses into a Document -- but its parent is ROOT, whose id
    0 fails the test [if (parentHeading.parentId)], so ROOT's reference to
    node 1 keeps the short description "Topic A" instead of receiving the
    oracle's "Merged docs". *)
Theorem merge_under_root_keeps_old_summary :
  let run := update Examples.descending 5 "make a document small" Examples.three_levels in
  fst run = Return "Made document small" /\
  In (EvRespond mergeDocuments) (trace (snd run)) /\
  storage (store (snd run)) !! 1 =
    Some (D {| d_id := 1; d_parentId := Some 0; content := "merged content" |}) /\
  storage (store (snd run)) !! 0 =
    Some (H {| h_id := 0; h_parentId := None;
               refs := [ {| ref_id := 1; short := "Topic A" |};
                         {| ref_id := 2; short := "Topic B" |} ] |}) /\
  storage (store (snd run)) !! 0 <>
    Some (H {| h_id := 0; h_parentId := None;
               refs := [ {| ref_id := 1; short := "Merged docs" |};
                         {| ref_id := 2; short := "Topic B" |} ] |}).
Proof.
  vm_compute. repeat split; try reflexivity.
  - auto 10.
  - discriminate.
Qed.

(** One level further down the same merge does reach the grandparent:
    Heading 1, the parent of the collapsed Heading 2, gets the new short
    description on its reference to 2 and on that reference only. *)
Lemma merge_off_root_retitles :
  let run := update Examples.descending_further 5 "make a document small"
                    Examples.four_levels in
  fst run = Return "Made document small" /\
  storage (store (snd run)) !! 2 =
    Some (D {| d_id := 2; d_parentId := Some 1; content := "merged content" |}) /\
  storage (store (snd run)) !! 1 =
    Some (H {| h_id := 1; h_parentId := Some 0;
               refs := [ {| ref_id := 2; short := "Merged docs" |};
                         {| ref_id := 5; short := "Topic A2" |} ] |}).
Proof. vm_compute. repeat split; reflexivity. Qed.

(** ** The statements above, on the concrete knowledge bases *)

Lemma find_minus_one_witness :
  find Examples.declining 2 "a query for a non-existent document" Examples.dangling =
    (Return None,
     log (EvRespond selectDocument)
         (log (EvGet 0 (H Examples.lonely_root)) Examples.dangling)) /\
  store (snd (find Examples.declining 2 "a query for a non-existent document"
                   Examples.dangling)) = store Examples.dangling /\
  forall node,
    ~ In (EvGet (-1) node)
         (new_events Examples.dangling
            (snd (find Examples.declining 2 "a query for a non-existent document"
                       Examples.dangling))).
Proof.
  apply (find_minus_one_not_found Examples.declining
           "a query for a non-existent document" Examples.dangling
           0 0 Examples.dangling Examples.lonely_root [-1] 2).
  - reflexivity.
  - discriminate.
  - reflexivity.
  - reflexivity.
  - reflexivity.
  - lia.
Defined.

Lemma update_bootstrap_witness :
  storage (store Examples.empty_world) !! ROOT_DOC_ID = None /\
  update Examples.merging 0 "What is the capital of France?" Examples.empty_world =
    (Return "Initialized the knowledge base",
     {| store :=
          {| storage :=
               <[0 := D {| d_id := 0; d_parentId := None;
                           content := "Q: What is the capital of France? A: Paris." |}]>
                 (storage (store Examples.empty_world));
             id := id (store Examples.empty_world) |};
        trace :=
          [ EvSet (D {| d_id := 0; d_parentId := None;
                        content := "Q: What is the capital of France? A: Paris." |});
            EvRespond createRoot;
            EvGet 0 (E 0) ] |}).
Proof.
  split; [reflexivity|].
  apply (update_bootstrap Examples.merging 0 "What is the capital of France?"
           Examples.empty_world "Q: What is the capital of France? A: Paris.");
    reflexivity.
Defined.

Lemma update_empty_is_fatal_witness :
  update Examples.merging 3 "a query" Examples.dangling =
    (Throw "The model has selected a non-existent document.",
     {| store := store Examples.dangling;
        trace := [ EvGet 1 (E 1);
                   EvRespond selectDocument;
                   EvGet 0 (H Examples.lonely_root);
                   EvGet 0 (H Examples.lonely_root) ] |}) /\
  store (snd (update Examples.merging 3 "a query" Examples.dangling)) =
    store Examples.dangling /\
  Forall locate_event
    (new_events Examples.dangling
       (snd (update Examples.merging 3 "a query" Examples.dangling))).
Proof.
  apply (update_empty_is_fatal Examples.merging 3 "a query" Examples.dangling).
  - intros i Heq. vm_compute in Heq. discriminate.
  - vm_compute. apply Exists_cons_hd. exact I.
Defined.

Lemma update_splits_oversized_witness :
  exists w4,
    update Examples.splitting 1 "make the document large" Examples.single_doc =
      (Return "Made document large", w4) /\
    id (store w4) = 3 /\
    storage (store w4) !! 1 =
      Some (D {| d_id := 1; d_parentId := Some 0;
                 content := Examples.repeat_string 100 "a" |}) /\
    storage (store w4) !! 2 =
      Some (D {| d_id := 2; d_parentId := Some 0;
                 content := Examples.repeat_string 100 "a" |}) /\
    exists rs,
      storage (store w4) !! 0 = Some (H {| h_id := 0; h_parentId := None; refs := rs |}) /\
      length rs = 2%nat /\
      rs !! 0%nat = Some {| ref_id := 1; short := "Part 1" |} /\
      rs !! 1%nat = Some {| ref_id := 2; short := "Part 2" |}.
Proof.
  pose (q := "make the document large").
  pose (w1 := log (EvGet ROOT_DOC_ID (D Examples.initial_doc)) Examples.single_doc).
  pose (w2 := snd (_findLeaf Examples.splitting 1 q w1)).
  pose (w3 := snd (edit_phase Examples.splitting q Examples.initial_doc w2)).
  pose (ud := {| d_id := 0; d_parentId := None;
                 content := Examples.repeat_string 200 "a" |}).
  destruct (update_splits_oversized Examples.splitting 1 q Examples.single_doc
              Examples.initial_doc None "Made document large" w2 w3 ud
              Examples.two_parts) as [_ Hbig].
  - intros i Heq. vm_compute in Heq. discriminate.
  - reflexivity.
  - reflexivity.
  - reflexivity.
  - unfold allocator_ahead. apply (bool_decide_unpack _). vm_compute. exact I.
  - destruct Hbig as (w4 & _ & Hupd & Hid & _ & Hparts & (rs & Hh & Hlen & Hrs) & _).
    + vm_compute. reflexivity.
    + reflexivity.
    + exists w4. split; [exact Hupd|]. split; [exact Hid|].
      split; [exact (proj2 (proj2 (Hparts 0%nat _ eq_refl)))|].
      split; [exact (proj2 (proj2 (Hparts 1%nat _ eq_refl)))|].
      exists rs. split; [exact Hh|]. split; [exact Hlen|].
      split; [exact (Hrs 0%nat _ eq_refl)|exact (Hrs 1%nat _ eq_refl)].
Defined.

Lemma update_merges_small_witness :
  update Examples.merging 2 "make a document small" Examples.two_small_docs =
    (Return "Made document small",
     snd (update Examples.merging 2 "make a document small" Examples.two_small_docs)) /\
  storage (store (snd (update Examples.merging 2 "make a document small"
                              Examples.two_small_docs))) !! 0 =
    Some (D {| d_id := 0; d_parentId := None; content := "merged content" |}) /\
  In (EvRespond mergeDocuments)
     (trace (snd (update Examples.merging 2 "make a document small"
                         Examples.two_small_docs))).
Proof.
  pose (q := "make a document small").
  pose (doc := {| d_id := 1; d_parentId := Some 0; content := "Small doc 1" |}).
  pose (w1 := log (EvGet ROOT_DOC_ID (H Examples.small_root)) Examples.two_small_docs).
  pose (w2 := snd (_findLeaf Examples.merging 2 q w1)).
  pose (w3 := snd (edit_phase Examples.merging q doc w2)).
  pose (w4 := snd (split_phase Examples.merging doc w3)).
  destruct (update_merges_small Examples.merging 2 q Examples.two_small_docs
              doc (Some Examples.small_root) "Made document small" w2 w3 w4)
    as [Hiff Hreceipt].
  - intros i Heq. vm_compute in Heq. discriminate.
  - reflexivity.
  - reflexivity.
  - reflexivity.
  - destruct (Hreceipt Examples.small_root Examples.merged_docs) as [Hret Hstored].
    + reflexivity.
    + vm_compute. reflexivity.
    + unfold store_wf. apply (bool_decide_unpack _). vm_compute. exact I.
    + reflexivity.
    + split; [exact Hret|]. split; [exact Hstored|].
      assert (Hin : In (EvRespond mergeDocuments)
                       (new_events w4 (snd (update Examples.merging 2 q
                                                   Examples.two_small_docs)))).
      { apply Hiff. exists Examples.small_root.
        split; [reflexivity|vm_compute; reflexivity]. }
      unfold new_events in Hin. apply list_elem_of_In in Hin.
      apply elem_of_take in Hin as (i & Hi & _).
      apply list_elem_of_In. eapply list_elem_of_lookup_2, Hi.
Defined.

Lemma generateId_fresh_witness :
  Storage.issued (Storage.create ∅)
    [ Storage.CallGenerateId;
      Storage.CallSet (D {| d_id := 1; d_parentId := Some 0; content := "a" |});
      Storage.CallSet (E 1);
      Storage.CallGenerateId;
      Storage.CallGetMany [1; 2];
      Storage.CallGenerateId ] = [1; 2; 3] /\
  NoDup [1; 2; 3] /\
  Forall (fun i => i <> ROOT_DOC_ID /\ 1 <= i) [1; 2; 3].
Proof.
  split; [reflexivity|].
  pose proof (generateId_fresh ∅
                [ Storage.CallGenerateId;
                  Storage.CallSet (D {| d_id := 1; d_parentId := Some 0; content := "a" |});
                  Storage.CallSet (E 1);
                  Storage.CallGenerateId;
                  Storage.CallGetMany [1; 2];
                  Storage.CallGenerateId ]) as Hfresh.
  cbv zeta in Hfresh. destruct Hfresh as (_ & _ & Hnodup & Hall).
  split; [exact Hnodup|exact Hall].
Defined.

Lemma getMany_aligned_witness :
  exists nodes w',
    storage_getMany [1; 7; 2] Examples.two_small_docs = (Return nodes, w') /\
    store w' = store Examples.two_small_docs /\
    nodes = [ D {| d_id := 1; d_parentId := Some 0; content := "Small doc 1" |};
              E 7;
              D {| d_id := 2; d_parentId := Some 0; content := "Small doc 2" |} ].
Proof.
  destruct (getMany_aligned [1; 7; 2] Examples.two_small_docs)
    as (nodes & w' & Heq & Hstore & Hnodes & _).
  exists nodes, w'. split; [exact Heq|]. split; [exact Hstore|].
  rewrite Hnodes. reflexivity.
Defined.

(** ** The gateway: [Agent.respond] *)

Section GatewayFacts.

Import Gateway.

Context {JSON S : Type} (JSON_parse : string -> option JSON).

Local Abbreviation AgentWorld := (@AgentWorld S).
Local Abbreviation ToolHandlerInner := (@ToolHandlerInner S).

Lemma verify_toolless (r : Response) (handlers : gmap string ToolHandlerInner)
    (w : AgentWorld) :
  toolless r ->
  exists msg, _verifyAndCallHandlers r handlers w = (Errors msg, w).
Proof.
  unfold toolless, _verifyAndCallHandlers.
  destruct (choices r) as [|choice rest]; [eexists; reflexivity|].
  intros ->. eexists; reflexivity.
Qed.

(** Against a model that never calls a tool, the loop goes round until
    [retryCount] has passed [maxRetries]: from [retryCount] that takes
    [maxRetries - retryCount + 1] more completions. *)
Lemma retry_loop_exhausts (client : nat -> Completion)
    (handlers : gmap string ToolHandlerInner) (maxRetries : Z) (fuel : nat) :
  (forall n, exists r, client n = Completed r /\ toolless r) ->
  forall (retryCount : Z) (w : AgentWorld),
    0 <= retryCount <= maxRetries ->
    (Z.to_nat (maxRetries - retryCount) < fuel)%nat ->
    exists msg,
      retry_loop fuel maxRetries client handlers retryCount w =
      (Throw msg,
       {| user := user w;
          calls := (calls w + Z.to_nat (maxRetries - retryCount) + 1)%nat;
          ran := ran w |}).
Proof.
  intros Hclient. induction fuel as [|fuel IH]; intros retryCount w Hrc Hfuel;
    [lia|].
  simpl. unfold _respond.
  destruct (Hclient (calls w)) as (r & -> & Hr).
  destruct (verify_toolless r handlers
              {| user := user w; calls := Datatypes.S (calls w); ran := ran w |} Hr)
    as [msg ->].
  destruct (Z.leb_spec (retryCount + 1) maxRetries) as [Hle|Hgt].
  - destruct (IH (retryCount + 1)
                {| user := user w; calls := Datatypes.S (calls w); ran := ran w |})
      as [msg' ->]; [lia|lia|].
    exists msg'. simpl. do 3 f_equal. lia.
  - eexists. do 3 f_equal.
    replace (maxRetries - retryCount) with 0 by lia. simpl. lia.
Qed.

(** X14. Under [retryAll] with [maxRetries = N >= 0], a round that keeps
    failing costs [N + 2] completions -- the first attempt and [N + 1]
    retries -- before [respond] throws. *)
Lemma respond_retryAll_attempts (client : nat -> Completion)
    (tools : gmap string (@ToolDefinition JSON S)) (N : Z) (fuel : nat)
    (w : AgentWorld) :
  (forall n, exists r, client n = Completed r /\ toolless r) ->
  0 <= N ->
  (Z.to_nat N < fuel)%nat ->
  exists msg,
    respond JSON_parse fuel (Some (kind_retryAll N)) client tools w =
    (Throw msg,
     {| user := user w; calls := (calls w + Z.to_nat N + 2)%nat; ran := ran w |}).
Proof.
  intros Hclient HN Hfuel. unfold respond, _respond.
  destruct (Hclient (calls w)) as (r & -> & Hr).
  match goal with
  | |- context [_verifyAndCallHandlers r ?h ?w1] =>
      destruct (verify_toolless r h w1 Hr) as [msg ->];
      destruct (retry_loop_exhausts client h N fuel Hclient 0 w1) as [msg' ->];
        [lia|rewrite Z.sub_0_r; exact Hfuel|]
  end.
  exists msg'. simpl. rewrite Z.sub_0_r. do 3 f_equal. lia.
Qed.

(** *** What a verified response guarantees *)


Lemma transformTool_spec (name : string) (t : ToolDefinition) (argJson : string)
    (w : AgentWorld) :
  let e := fst (_transformTool JSON_parse name t argJson w) in
  let w' := snd (_transformTool JSON_parse name t argJson w) in
  calls w' = calls w /\
  exists new, ran w' = ran w ++ new /\
    (e = None ->
     exists parsed data,
       JSON_parse argJson = Some parsed /\ arg t parsed = Some data /\
       new = [(name, argJson, true)]).
Proof.
  unfold _transformTool.
  destruct (JSON_parse argJson) as [parsed|]; simpl.
  2:{ split; [reflexivity|]. exists []. rewrite app_nil_r.
      split; [reflexivity|discriminate]. }
  destruct (arg t parsed) as [data|] eqn:Harg; simpl.
  2:{ split; [reflexivity|]. exists []. rewrite app_nil_r.
      split; [reflexivity|discriminate]. }
  destruct (handler t data (user w)) as [s' [err|]]; simpl.
  - split; [reflexivity|]. eexists. split; [reflexivity|discriminate].
  - split; [reflexivity|]. eexists. split; [reflexivity|].
    intros _. exists parsed, data. repeat split; [exact Harg].
Qed.

(** What a name may be, given what is inherited under it. *)
Lemma inherited_proto (name : string) :
  name = "__proto__" -> inherited name = Some InheritedThrows.
Proof. intros ->. reflexivity. Qed.

Lemma record_insert (name msg : string) (results : gmap string string) :
  name <> "__proto__" -> record name msg results = <[name := msg]> results.
Proof.
  intros Hne. unfold record.
  destruct (String.eqb_spec name "__proto__"); [contradiction|reflexivity].
Qed.

Lemma record_non_empty (name msg : string) (results : gmap string string) :
  results <> ∅ -> record name msg results <> ∅.
Proof.
  intros Hne. unfold record.
  destruct (String.eqb name "__proto__"); [exact Hne|apply insert_non_empty].
Qed.

(** An error once recorded stays: the loop only adds to [results]. *)
Lemma call_handlers_keeps_errors (handlers : gmap string ToolHandlerInner)
    (toolCalls : list ToolCall) :
  forall (results : gmap string string) (w : AgentWorld),
    results <> ∅ ->
    fst (call_handlers handlers toolCalls results w) <> Some ∅.
Proof.
  induction toolCalls as [|tc toolCalls IH]; intros results w Hne.
  - simpl. intros Heq. injection Heq as Heq. contradiction.
  - destruct tc as [name argJson|name]; cbn [call_handlers].
    + destruct (handlers !! name) as [h|].
      * destruct (h argJson w) as [[e|] w1];
          [apply IH, record_non_empty, Hne|apply IH, Hne].
      * destruct (inherited name) as [[| |]|];
          [apply IH, Hne|apply IH, record_non_empty, Hne|discriminate
          |apply IH, record_non_empty, Hne].
    + apply IH, record_non_empty, Hne.
Qed.

Lemma call_handlers_calls (tools : gmap string (@ToolDefinition JSON S))
    (toolCalls : list ToolCall) :
  let handlers := map_imap (fun name t => Some (_transformTool JSON_parse name t)) tools in
  forall (results : gmap string string) (w : AgentWorld),
    calls (snd (call_handlers handlers toolCalls results w)) = calls w.
Proof.
  intros handlers. subst handlers.
  set (handlers := map_imap (fun name t => Some (_transformTool JSON_parse name t)) tools).
  assert (Hlk : forall name,
             handlers !! name = _transformTool JSON_parse name <$> tools !! name).
  { intros name. unfold handlers. rewrite map_lookup_imap.
    destruct (tools !! name); reflexivity. }
  clearbody handlers.
  induction toolCalls as [|tc toolCalls IH]; intros results w; [reflexivity|].
  destruct tc as [name argJson|name]; cbn [call_handlers]; [|apply IH].
  pose proof (Hlk name) as Hname.
  unfold Gateway.ToolHandlerInner in *.
  destruct (tools !! name) as [t|]; simpl in Hname; rewrite Hname.
  - pose proof (transformTool_spec name t argJson w) as Hh. cbv zeta in Hh.
    destruct (_transformTool JSON_parse name t argJson w) as [[e|] w1];
      simpl in Hh; destruct Hh as (Hc1 & _); rewrite IH; exact Hc1.
  - destruct (inherited name) as [[| |]|]; try apply IH. reflexivity.
Qed.


Lemma verify_calls (tools : gmap string (@ToolDefinition JSON S)) (r : Response)
    (w : AgentWorld) :
  let handlers := map_imap (fun name t => Some (_transformTool JSON_parse name t)) tools in
  calls (snd (_verifyAndCallHandlers r handlers w)) = calls w.
Proof.
  intros handlers. unfold _verifyAndCallHandlers.
  destruct (choices r) as [|choice rest]; [reflexivity|].
  destruct (tool_calls choice) as [toolCalls|]; [|reflexivity].
  pose proof (call_handlers_calls tools toolCalls ∅ w) as Hc. cbv zeta in Hc.
  fold handlers in Hc.
  destruct (call_handlers handlers toolCalls ∅ w) as [[results|] w1];
    simpl in Hc; [|exact Hc].
  destruct (map (fun kv => fst kv ++ ": " ++ snd kv)%string (map_to_list results));
    exact Hc.
Qed.



(** *** Termination *)

(** The retry loop ends within [maxRetries - retryCount + 1] passes. *)
Lemma retry_loop_terminates (client : nat -> Completion)
    (handlers : gmap string ToolHandlerInner) (maxRetries : Z) (fuel : nat) :
  forall (retryCount : Z) (w : AgentWorld),
    (Z.to_nat (maxRetries - retryCount) < fuel)%nat ->
    fst (retry_loop fuel maxRetries client handlers retryCount w) <> OutOfFuel.
Proof.
  induction fuel as [|fuel IH]; intros retryCount w Hfuel; [lia|].
  simpl. unfold _respond.
  destruct (client (calls w)) as [r|msg]; [|discriminate].
  destruct (_verifyAndCallHandlers r handlers _) as [[|verification|thrown] w2];
    [discriminate| |discriminate].
  destruct (Z.leb_spec (retryCount + 1) maxRetries) as [Hle|Hgt];
    [|discriminate].
  apply IH. lia.
Qed.

(** [respond] always ends: under "retryAll" within [maxRetries + 2]
    completions, under the other strategies after one. *)
Lemma respond_terminates (client : nat -> Completion)
    (tools : gmap string (@ToolDefinition JSON S))
    (strategy : option ResolutionStrategy) (fuel : nat) (w : AgentWorld) :
  (forall N, strategy = Some (kind_retryAll N) -> (Z.to_nat N < fuel)%nat) ->
  fst (respond JSON_parse fuel strategy client tools w) <> OutOfFuel.
Proof.
  intros Hfuel. unfold respond, _respond.
  destruct (client (calls w)) as [r|msg]; [|discriminate].
  destruct (_verifyAndCallHandlers r _ _) as [[|verification|thrown] w2];
    [discriminate| |discriminate].
  destruct strategy as [[| |N]|]; try discriminate.
  apply retry_loop_terminates. rewrite Z.sub_0_r. apply Hfuel. reflexivity.
Qed.

(** *** The TypeError *)

Lemma call_handlers_aborts (tools : gmap string (@ToolDefinition JSON S))
    (toolCalls : list ToolCall) :
  let handlers := map_imap (fun name t => Some (_transformTool JSON_parse name t)) tools in
  forall (results : gmap string string) (w : AgentWorld),
    fst (call_handlers handlers toolCalls results w) = None <->
    existsb (aborts tools) toolCalls = true.
Proof.
  intros handlers. subst handlers.
  set (handlers := map_imap (fun name t => Some (_transformTool JSON_parse name t)) tools).
  assert (Hlk : forall name,
             handlers !! name = _transformTool JSON_parse name <$> tools !! name).
  { intros name. unfold handlers. rewrite map_lookup_imap.
    destruct (tools !! name); reflexivity. }
  clearbody handlers.
  induction toolCalls as [|tc toolCalls IH]; intros results w.
  - simpl. split; discriminate.
  - destruct tc as [name argJson|name]; cbn [call_handlers existsb aborts];
      [|apply IH].
    pose proof (Hlk name) as Hname.
    unfold Gateway.ToolHandlerInner in *.
    destruct (tools !! name) as [t|]; simpl in Hname; rewrite Hname.
    + destruct (_transformTool JSON_parse name t argJson w) as [[e|] w1];
        apply IH.
    + destruct (inherited name) as [[| |]|]; try apply IH.
      simpl. split; reflexivity.
Qed.

Lemma verify_thrown (tools : gmap string (@ToolDefinition JSON S)) (r : Response)
    (w : AgentWorld) :
  let handlers := map_imap (fun name t => Some (_transformTool JSON_parse name t)) tools in
  let v := fst (_verifyAndCallHandlers r handlers w) in
  (aborting tools r = true -> v = Thrown TYPE_ERROR) /\
  (aborting tools r = false -> forall msg, v <> Thrown msg).
Proof.
  intros handlers. cbv zeta. unfold _verifyAndCallHandlers, aborting.
  destruct (choices r) as [|choice rest]; [split; [discriminate|intros _ msg; discriminate]|].
  destruct (tool_calls choice) as [toolCalls|];
    [|split; [discriminate|intros _ msg; discriminate]].
  pose proof (call_handlers_aborts tools toolCalls ∅ w) as Hab. cbv zeta in Hab.
  fold handlers in Hab.
  destruct (call_handlers handlers toolCalls ∅ w) as [[results|] w1]; simpl in Hab.
  - split.
    + intros Htrue. apply Hab in Htrue. discriminate.
    + intros _ msg.
      destruct (map (fun kv => fst kv ++ ": " ++ snd kv)%string (map_to_list results));
        discriminate.
  - split; [reflexivity|].
    intros Hfalse. rewrite (proj1 Hab eq_refl) in Hfalse. discriminate.
Qed.

End GatewayFacts.

(** C8, evaluated.  With [maxRetries = 2] and a model that never calls a
    tool, [respond] requests four completions before it throws: the first
    attempt and three retries, one more than [maxRetries]; and with
    [maxRetries = 0] it still retries once. *)
Theorem retryAll_retries_once_more :
  Gateway.respond Gateway.parse_number 10 (Some (Gateway.kind_retryAll 2))
    Gateway.silent {[ "selectDocument" := Gateway.select_tool ]} (Gateway.fresh 0) =
    (Throw ("[Retry over] Errors during agent response: " ++
            "The model did not produce any tool calls"),
     {| Gateway.user := 0; Gateway.calls := 4; Gateway.ran := [] |}) /\
  Gateway.respond Gateway.parse_number 10 (Some (Gateway.kind_retryAll 0))
    Gateway.silent {[ "selectDocument" := Gateway.select_tool ]} (Gateway.fresh 0) =
    (Throw ("[Retry over] Errors during agent response: " ++
            "The model did not produce any tool calls"),
     {| Gateway.user := 0; Gateway.calls := 2; Gateway.ran := [] |}).
Proof. split; vm_compute; reflexivity. Qed.




(** ** The invariant of engine-built stores *)

Lemma engine_inv_create : engine_inv (Storage.create ∅).
Proof.
  split; [|split].
  - apply map_Forall_empty.
  - apply map_Forall_empty.
  - simpl. lia.
Qed.

Lemma in_use_below (s : InMemoryKnowledgeStorage) (key : Z) :
  engine_inv s -> in_use s key -> key < id s.
Proof. intros (_ & Hahead & _) [n Hn]. exact (Hahead _ _ Hn). Qed.

Lemma get_stored (s : InMemoryKnowledgeStorage) (key : Z) (n : Node) :
  Storage.get s key = n -> (forall i, n <> E i) ->
  storage s !! key = Some n.
Proof.
  unfold Storage.get. destruct (storage s !! key) as [m|]; intros <- Hne.
  - reflexivity.
  - exfalso. eapply Hne. reflexivity.
Qed.

(** Writing a Document or a Heading under an id below the counter keeps
    the invariant and every key in use. *)
Lemma set_engine_inv (s : InMemoryKnowledgeStorage) (n : Node) :
  engine_inv s -> (forall i, n <> E i) -> node_id n < id s ->
  engine_inv (Storage.set s n) /\
  forall key, in_use s key -> in_use (Storage.set s n) key.
Proof.
  intros (Hwf & Hahead & Hpos) Hne Hlt.
  assert (Hset : Storage.set s n = {| storage := <[node_id n := n]> (storage s);
                                      id := id s |}).
  { destruct n; try reflexivity. exfalso. eapply Hne. reflexivity. }
  rewrite Hset. split; [split; [|split]|].
  - apply map_Forall_insert_2; [reflexivity|exact Hwf].
  - apply map_Forall_insert_2; [exact Hlt|exact Hahead].
  - exact Hpos.
  - intros key [m Hm]. unfold in_use. simpl.
    destruct (decide (node_id n = key)) as [->|Hk].
    + rewrite lookup_insert_eq. eauto.
    + rewrite lookup_insert_ne by exact Hk. eauto.
Qed.

Lemma setMany_engine_inv (docs : list Node) (s : InMemoryKnowledgeStorage) :
  engine_inv s ->
  Forall (fun n => (forall i, n <> E i) /\ node_id n < id s) docs ->
  engine_inv (Storage.setMany s docs) /\
  forall key, in_use s key -> in_use (Storage.setMany s docs) key.
Proof.
  unfold Storage.setMany. revert s.
  induction docs as [|n docs IH]; intros s Hinv Hall; simpl; [auto|].
  inversion Hall as [|? ? [Hne Hlt] Hrest]; subst.
  destruct (set_engine_inv s n Hinv Hne Hlt) as [Hinv' Hkeys].
  destruct (IH (Storage.set s n) Hinv') as [Hinv'' Hkeys'].
  - rewrite set_id. exact Hrest.
  - split; [exact Hinv''|]. intros key Hk. apply Hkeys', Hkeys, Hk.
Qed.

Lemma update_inv_log (doc : Document) (parent : option Heading) (e : Event)
    (w : World) :
  update_inv doc parent w -> update_inv doc parent (log e w).
Proof. intros H. exact H. Qed.

(** A round keeps whatever its handler keeps. *)
Lemma respond_keeps {A L} (I : World -> Prop) (tool : Tool) (reply : nat -> Reply A)
    (handler : A -> L -> M L) (locals : L) (w : World) :
  (forall e w, I w -> I (log e w)) ->
  (forall a l w, I w -> I (snd (handler a l w))) ->
  I w -> I (snd (respond tool reply handler locals w)).
Proof.
  intros Hlog Hhandler Hw. unfold respond.
  generalize (fired (reply (rounds w))) as args. intros args.
  assert (Hrun : forall l w1, I w1 -> I (snd (run_handler handler args l w1))).
  { induction args as [|a args IH]; intros l w1 H1; simpl; [exact H1|].
    unfold bind. pose proof (Hhandler a l w1 H1) as Ha.
    destruct (handler a l w1) as [[l'|msg|] w2]; simpl in *; auto. }
  unfold bind. specialize (Hrun locals (log (EvRespond tool) w) (Hlog _ _ Hw)).
  destruct (run_handler handler args locals (log (EvRespond tool) w))
    as [[l'|msg|] w2]; simpl in *; auto.
  destruct (raised (reply (rounds w))); exact Hrun.
Qed.

Lemma createRoot_handler_keeps (arg : string) (w : World) :
  engine_inv (store w) -> engine_inv (store (snd (createRoot_handler arg tt w))).
Proof.
  intros Hinv. unfold createRoot_handler, storage_set. simpl.
  refine (proj1 (set_engine_inv (store w)
                   (D {| d_id := ROOT_DOC_ID; d_parentId := None; content := arg |})
                   Hinv _ _)).
  - discriminate.
  - simpl. destruct Hinv as (_ & _ & Hpos). exact Hpos.
Qed.

Lemma updateDocument_handler_keeps (doc : Document) (parent : option Heading)
    (arg : UpdateArg) (l : string) (w : World) :
  update_inv doc parent w ->
  update_inv doc parent (snd (updateDocument_handler doc arg l w)).
Proof.
  intros (Hinv & Hdoc & Hpar).
  unfold updateDocument_handler, bind, storage_set, ret. simpl.
  destruct (set_engine_inv (store w)
              (D {| d_id := d_id doc; d_parentId := d_parentId doc;
                    content := newDocument arg |}) Hinv) as [Hinv' Hkeys].
  - discriminate.
  - simpl. apply in_use_below; assumption.
  - split; [exact Hinv'|]. split; [apply Hkeys, Hdoc|].
    intros ph Hph. apply Hkeys, Hpar, Hph.
Qed.

Lemma split_docs_documents (parent : Z) (arg : list Piece) (c : Z) :
  Forall (fun n => forall i, n <> E i) (split_docs c parent arg).
Proof.
  revert c. induction arg as [|p arg IH]; intros c; simpl; constructor.
  - discriminate.
  - apply IH.
Qed.

Lemma splitDocument_handler_keeps (doc : Document) (parent : option Heading)
    (arg : list Piece) (w : World) :
  update_inv doc parent w ->
  update_inv doc parent (snd (splitDocument_handler doc arg tt w)).
Proof.
  intros (Hinv & Hdoc & Hpar).
  pose proof (splitDocument_handler_eq doc arg w) as Heq. cbv zeta in Heq.
  rewrite Heq. clear Heq. unfold update_inv. cbn [snd store].
  set (s1 := {| storage := storage (store w);
                id := id (store w) + Z.of_nat (length arg) |}).
  assert (Hinv1 : engine_inv s1).
  { destruct Hinv as (Hwf & Hahead & Hpos). split; [exact Hwf|]. split.
    - intros key n Hn. pose proof (Hahead key n Hn). simpl in *. lia.
    - simpl. lia. }
  assert (Hkeys1 : forall key, in_use (store w) key -> in_use s1 key).
  { intros key Hk. exact Hk. }
  destruct (setMany_engine_inv
              (split_docs (id (store w)) (d_id doc) arg ++
               [H {| h_id := d_id doc; h_parentId := d_parentId doc;
                     refs := split_refs (id (store w)) arg |}]) s1 Hinv1)
    as [Hinv' Hkeys].
  - apply Forall_app. split.
    + pose proof (split_docs_ids (d_id doc) arg (id (store w))) as Hids.
      pose proof (split_docs_documents (d_id doc) arg (id (store w))) as Hdocs.
      rewrite Forall_forall in Hids, Hdocs. apply Forall_forall.
      intros n Hn. split; [apply Hdocs, Hn|].
      specialize (Hids n Hn). simpl in *. lia.
    + constructor; [|constructor]. split; [discriminate|].
      simpl. pose proof (in_use_below _ _ Hinv Hdoc). lia.
  - split; [exact Hinv'|]. split; [apply Hkeys, Hkeys1, Hdoc|].
    intros ph Hph. apply Hkeys, Hkeys1, Hpar, Hph.
Qed.

Lemma mergeDocuments_handler_keeps (doc : Document) (ph : Heading) (arg : Piece)
    (w : World) :
  update_inv doc (Some ph) w ->
  update_inv doc (Some ph) (snd (mergeDocuments_handler ph arg tt w)).
Proof.
  intros (Hinv & Hdoc & Hpar).
  pose proof (Hpar ph eq_refl) as Hph.
  pose proof (mergeDocuments_handler_eq ph arg w) as Heq. cbv zeta in Heq.
  rewrite Heq. clear Heq. cbn [snd].
  destruct (set_engine_inv (store w)
              (D {| d_id := h_id ph; d_parentId := h_parentId ph;
                    content := piece_content arg |}) Hinv) as [Hinv1 Hkeys1].
  { discriminate. }
  { simpl. apply in_use_below; assumption. }
  assert (Hcollapsed : forall tr,
             update_inv doc (Some ph)
               {| store := Storage.set (store w)
                             (D {| d_id := h_id ph; d_parentId := h_parentId ph;
                                   content := piece_content arg |});
                  trace := tr |}).
  { intros tr. split; [exact Hinv1|]. split; [apply Hkeys1, Hdoc|].
    intros ph' Heq. inversion Heq; subst. apply Hkeys1, Hph. }
  destruct (h_parentId ph) as [parentId|]; [|apply Hcollapsed].
  destruct (parentId =? 0); [apply Hcollapsed|].
  destruct (Storage.get _ parentId) as [d|g|e] eqn:Hget;
    [apply Hcollapsed| |apply Hcollapsed].
  apply get_stored in Hget; [|discriminate].
  assert (Hg : h_id g = parentId).
  { destruct Hinv1 as (Hwf1 & _). exact (Hwf1 _ _ Hget). }
  destruct (set_engine_inv
              (Storage.set (store w)
                 (D {| d_id := h_id ph; d_parentId := Some parentId;
                       content := piece_content arg |}))
              (H {| h_id := h_id g; h_parentId := h_parentId g;
                    refs := retitle (h_id ph) (shortDescription arg) (refs g) |})
              Hinv1) as [Hinv2 Hkeys2].
  { discriminate. }
  { pose proof (in_use_below _ parentId Hinv1 (ex_intro _ _ Hget)) as Hlt.
    rewrite set_id in *. simpl. lia. }
  split; [exact Hinv2|]. split; [apply Hkeys2, Hkeys1, Hdoc|].
  intros ph' Heq. inversion Heq; subst. apply Hkeys2, Hkeys1, Hph.
Qed.

(** What [_findLeaf] returns is in the store, which it has not changed. *)
Lemma findLeaf_returns_stored (self : Knowledge) (q : string) (fuel : nat) :
  forall (docId : Z) (parent : option Heading) (w : World),
    store_wf (store w) ->
    (forall ph, parent = Some ph -> in_use (store w) (h_id ph)) ->
    let r := fst (while fuel (findLeaf_body self q) (docId, parent) w) in
    let w' := snd (while fuel (findLeaf_body self q) (docId, parent) w) in
    store w' = store w /\
    forall doc parent', r = Return (doc, parent') ->
      in_use (store w) (d_id doc) /\
      forall ph, parent' = Some ph -> in_use (store w) (h_id ph).
Proof.
  induction fuel as [|fuel IH]; intros docId parent w Hwf Hpar; cbv zeta.
  - simpl. split; [reflexivity|]. intros doc parent' Heq. discriminate.
  - rewrite while_S, findLeaf_body_eq.
    destruct (Storage.get (store w) docId) as [d|h|e] eqn:Hget; cbv zeta.
    + simpl. split; [reflexivity|]. intros doc parent' Heq.
      inversion Heq; subst. split; [|exact Hpar].
      apply get_stored in Hget; [|discriminate].
      pose proof (Hwf _ _ Hget) as Hid. simpl in Hid. rewrite Hid.
      eexists. exact Hget.
    + destruct (raised _) as [msg|].
      * simpl. split; [reflexivity|]. intros doc parent' Heq. discriminate.
      * apply get_stored in Hget; [|discriminate].
        pose proof (Hwf _ _ Hget) as Hid. simpl in Hid.
        match goal with
        | |- context [while fuel _ (?d', Some h) ?w1] =>
            destruct (IH d' (Some h) w1) as (Hs & Hres)
        end.
        -- exact Hwf.
        -- intros ph Heq. injection Heq as <-. rewrite Hid.
           eexists. exact Hget.
        -- split; [rewrite Hs; reflexivity|exact Hres].
    + simpl. split; [reflexivity|]. intros doc parent' Heq. discriminate.
Qed.

Lemma bind_keeps {A B} (I : World -> Prop) (m : M A) (f : A -> M B) (w : World) :
  I (snd (m w)) ->
  (forall a w', I w' -> I (snd (f a w'))) ->
  I (snd ((x <- m ;; f x) w)).
Proof.
  intros Hm Hf. unfold bind.
  destruct (m w) as [[a|msg|] w']; simpl in *; auto.
Qed.

Lemma split_phase_keeps (self : Knowledge) (doc : Document) (parent : option Heading)
    (w : World) :
  update_inv doc parent w -> update_inv doc parent (snd (split_phase self doc w)).
Proof.
  intros Hw. unfold split_phase, bind, storage_get.
  destruct (Storage.get (store w) (d_id doc)) as [ud|h|e]; try exact Hw.
  destruct (content_length ud >? maxDocumentSizeChars (config self)); [|exact Hw].
  apply respond_keeps.
  - intros e w'. apply update_inv_log.
  - intros a [] w'. apply splitDocument_handler_keeps.
  - exact Hw.
Qed.

Lemma merge_phase_keeps (self : Knowledge) (doc : Document) (parent : option Heading)
    (w : World) :
  update_inv doc parent w -> update_inv doc parent (snd (merge_phase self parent w)).
Proof.
  intros Hw. destruct parent as [ph|]; [|exact Hw].
  rewrite merge_phase_eq.
  destruct (2 * children_size (store w) ph <? maxDocumentSizeChars (config self));
    [|exact Hw].
  apply respond_keeps.
  - intros e w'. apply update_inv_log.
  - intros a [] w'. apply mergeDocuments_handler_keeps.
  - exact Hw.
Qed.

(** X12. Every [update] keeps the invariant, however the oracle answers and
    however the call ends; so every store grown from the empty one by
    calls to [update] satisfies the conditions under which the split and
    the merge are stated above. *)
Theorem update_keeps_engine_inv (self : Knowledge) (fuel : nat) (q : string)
    (w : World) :
  engine_inv (store w) -> engine_inv (store (snd (update self fuel q w))).
Proof.
  intros Hinv. unfold update.
  apply (bind_keeps (fun w => engine_inv (store w))); [exact Hinv|].
  clear w Hinv. intros root w Hinv.
  assert (Hrest : engine_inv (store (snd
            ((leaf <- _findLeaf self fuel q ;;
              let '(docToUpdate, parentHeading) := leaf in
              shortUpdateDescription <- edit_phase self q docToUpdate ;;
              _ <- split_phase self docToUpdate ;;
              _ <- merge_phase self parentHeading ;;
              ret shortUpdateDescription) w)))).
  { pose proof (findLeaf_returns_stored self q fuel ROOT_DOC_ID None w
                  (proj1 Hinv)) as Hleaf.
    cbv zeta in Hleaf. fold (_findLeaf self fuel q) in Hleaf.
    destruct Hleaf as (Hs & Hres); [discriminate|].
    unfold bind at 1.
    destruct (_findLeaf self fuel q w) as [[[doc parent]|msg|] w2];
      simpl in Hs, Hres; [|simpl; rewrite Hs; exact Hinv ..].
    destruct (Hres doc parent eq_refl) as (Hdoc & Hpar).
    assert (H2 : update_inv doc parent w2).
    { unfold update_inv. rewrite Hs. auto. }
    refine (proj1 (_ : update_inv doc parent _)).
    apply bind_keeps.
    - unfold edit_phase. apply respond_keeps.
      + intros e w'. apply update_inv_log.
      + intros a l w'. apply updateDocument_handler_keeps.
      + exact H2.
    - intros summary w3 H3. apply bind_keeps; [apply split_phase_keeps, H3|].
      intros _ w4 H4. apply bind_keeps; [apply merge_phase_keeps, H4|].
      intros _ w5 H5. exact H5. }
  destruct root as [d|h|e]; [exact Hrest|exact Hrest|].
  apply (bind_keeps (fun w => engine_inv (store w))).
  - apply (respond_keeps (fun w => engine_inv (store w))).
    + intros ev w' Hw'. exact Hw'.
    + intros a [] w'. apply createRoot_handler_keeps.
    + exact Hinv.
  - intros _ w' Hw'. exact Hw'.
Qed.

(** * Further properties of the code *)

(** ** [InMemoryKnowledgeStorage] *)

Lemma get_set (s : InMemoryKnowledgeStorage) (doc : Node) (key : Z) :
  Storage.get (Storage.set s doc) key =
    (if decide (key = node_id doc) then doc else Storage.get s key).
Proof.
  unfold Storage.get.
  destruct (decide (key = node_id doc)) as [->|Hne].
  - destruct doc as [d|h|i]; simpl.
    + rewrite lookup_insert_eq. reflexivity.
    + rewrite lookup_insert_eq. reflexivity.
    + rewrite lookup_delete_eq. reflexivity.
  - rewrite lookup_set_other by congruence. reflexivity.
Qed.

(** X1. [get] after [set] gives back the node that was set under that
    node's id -- also for an Empty node, whose [set] deletes the key, so
    that [get] reports Empty again -- and what it gave before under every
    other id; [set] leaves the id counter alone. *)
Theorem get_after_set (s : InMemoryKnowledgeStorage) (doc : Node) (key : Z) :
  Storage.get (Storage.set s doc) key =
    (if decide (key = node_id doc) then doc else Storage.get s key) /\
  id (Storage.set s doc) = id s.
Proof.
  split; [apply get_set|apply set_id].
Qed.

(** X2. After [setMany(docs)] each id holds the last node of [docs] that
    carries it, and every id that no node of [docs] carries holds what it
    held before: the writes of a batch apply in the order of the array. *)
Theorem setMany_last_wins (docs : list Node) (s : InMemoryKnowledgeStorage)
    (key : Z) :
  Storage.get (Storage.setMany s docs) key =
    match last (filter (fun doc => node_id doc = key) docs) with
    | Some doc => doc
    | None => Storage.get s key
    end.
Proof.
  induction docs as [|doc docs IH] using rev_ind; [reflexivity|].
  rewrite setMany_app.
  change (Storage.setMany ?s0 [doc]) with (Storage.set s0 doc).
  rewrite get_set, filter_app.
  destruct (decide (key = node_id doc)) as [->|Hne].
  - rewrite filter_cons_True by reflexivity. rewrite filter_nil.
    rewrite last_snoc. reflexivity.
  - rewrite filter_cons_False by congruence. rewrite filter_nil.
    rewrite app_nil_r. exact IH.
Qed.

Lemma set_store_wf (s : InMemoryKnowledgeStorage) (doc : Node) :
  store_wf s -> store_wf (Storage.set s doc).
Proof.
  intros Hwf. destruct doc as [d|h|i]; simpl.
  - apply map_Forall_insert_2; [reflexivity|exact Hwf].
  - apply map_Forall_insert_2; [reflexivity|exact Hwf].
  - apply map_Forall_delete. exact Hwf.
Qed.

Lemma setMany_store_wf (docs : list Node) (s : InMemoryKnowledgeStorage) :
  store_wf s -> store_wf (Storage.setMany s docs).
Proof.
  unfold Storage.setMany. revert s.
  induction docs as [|doc docs IH]; intros s Hwf; simpl; [exact Hwf|].
  apply IH, set_store_wf, Hwf.
Qed.

(** X3. Whatever calls a client makes on a store whose nodes sit under
    their own ids, they still do afterwards, and so [get(i)] always
    returns a node that carries the id [i] it was asked for. *)
Theorem run_keeps_store_wf (s : InMemoryKnowledgeStorage) (cs : list Storage.Call) :
  store_wf s ->
  store_wf (fst (Storage.run s cs)) /\
  forall i, node_id (Storage.get (fst (Storage.run s cs)) i) = i.
Proof.
  intros Hwf.
  assert (Hrun : store_wf (fst (Storage.run s cs))).
  { revert s Hwf. induction cs as [|c cs IH]; intros s Hwf; simpl; [exact Hwf|].
    assert (Hstep : store_wf (fst (Storage.call s c))).
    { destruct c; simpl; auto using set_store_wf, setMany_store_wf. }
    destruct (Storage.call s c) as [s1 issued1]. simpl in Hstep.
    specialize (IH s1 Hstep).
    destruct (Storage.run s1 cs) as [s2 issued2]. exact IH. }
  split; [exact Hrun|].
  intros i. unfold Storage.get.
  destruct (storage (fst (Storage.run s cs)) !! i) as [n|] eqn:Hl; [|reflexivity].
  exact (Hrun _ _ Hl).
Qed.

(** X4. The ids a store issues are consecutive: a run of calls that
    contains [n] calls of [generateId] issues exactly the ids
    [id, id + 1, ..., id + n - 1], where [id] is the counter at the start,
    and leaves the counter at [id + n], whatever the other calls do --
    as long as the counter stays within the range in which the
    additions of JavaScript numbers are exact, from [-2^53] to [2^53]. *)
Theorem issued_counts_up (s : InMemoryKnowledgeStorage) (cs : list Storage.Call) :
  let n := Z.of_nat (length (filter is_generateId cs)) in
  - EXACT_LIMIT <= id s ->
  id s + n <= EXACT_LIMIT ->
  Storage.issued s cs = seqZ (id s) n /\
  id (fst (Storage.run s cs)) = id s + n.
Proof.
  cbv zeta. intros _ _.
  unfold Storage.issued. revert s.
  induction cs as [|c cs IH]; intros s; cbv zeta.
  - simpl. split; [reflexivity|lia].
  - simpl Storage.run.
    destruct (Storage.call s c) as [s1 issued1] eqn:Hc.
    specialize (IH s1). cbv zeta in IH.
    destruct (Storage.run s1 cs) as [s2 issued2]. simpl in IH. simpl fst. simpl snd.
    destruct IH as [Hissued Hid].
    destruct c; simpl in Hc; inversion Hc; subst s1 issued1; clear Hc;
      rewrite ?set_id, ?setMany_id in *.
    + rewrite filter_cons_True by reflexivity. simpl length.
      rewrite Nat2Z.inj_succ. simpl id in *. split.
      * rewrite (seqZ_cons (id s)) by lia. simpl. f_equal.
        rewrite Z.pred_succ. exact Hissued.
      * lia.
    + rewrite filter_cons_False by (simpl; auto). split; assumption.
    + rewrite filter_cons_False by (simpl; auto). split; assumption.
    + rewrite filter_cons_False by (simpl; auto). split; assumption.
    + rewrite filter_cons_False by (simpl; auto). split; assumption.
Qed.

Lemma issued_counts_up_witness :
  Storage.issued (store Examples.two_small_docs)
    [ Storage.CallGenerateId; Storage.CallSet (E 1); Storage.CallGenerateId ] =
    [3; 4] /\
  id (fst (Storage.run (store Examples.two_small_docs)
             [ Storage.CallGenerateId; Storage.CallSet (E 1);
               Storage.CallGenerateId ])) = 5.
Proof.
  apply (issued_counts_up (store Examples.two_small_docs)
           [ Storage.CallGenerateId; Storage.CallSet (E 1); Storage.CallGenerateId ]).
  - vm_compute. discriminate.
  - vm_compute. discriminate.
Defined.

Lemma run_keeps_store_wf_witness :
  store_wf (fst (Storage.run (store Examples.two_small_docs)
                   [ Storage.CallSet (E 1);
                     Storage.CallGenerateId;
                     Storage.CallSetMany
                       [ D {| d_id := 3; d_parentId := Some 0; content := "c" |};
                         E 2 ] ])) /\
  forall i,
    node_id (Storage.get
               (fst (Storage.run (store Examples.two_small_docs)
                       [ Storage.CallSet (E 1);
                         Storage.CallGenerateId;
                         Storage.CallSetMany
                           [ D {| d_id := 3; d_parentId := Some 0; content := "c" |};
                             E 2 ] ])) i) = i.
Proof.
  apply (run_keeps_store_wf (store Examples.two_small_docs)).
  unfold store_wf. apply (bool_decide_unpack _). vm_compute. exact I.
Defined.

(** ** [find] *)

Lemma find_loop_returns_stored (self : Knowledge) (q : string) (d : Document)
    (fuel : nat) :
  forall (docId : Z) (w : World),
    fst (while fuel (find_body self q) docId w) = Return (Some d) ->
    exists key new,
      trace (snd (while fuel (find_body self q) docId w)) = new ++ trace w /\
      key <> -1 /\
      storage (store w) !! key = Some (D d) /\
      In (EvGet key (D d)) new.
Proof.
  induction fuel as [|fuel IH]; intros docId w; [discriminate|].
  rewrite while_S, find_body_eq.
  destruct (Z.eqb_spec docId (-1)) as [Hm|Hm]; [discriminate|].
  destruct (Storage.get (store w) docId) as [d0|h|e] eqn:Hget; cbv zeta.
  - simpl. intros Heq. injection Heq as <-.
    exists docId, [EvGet docId (D d0)].
    split; [reflexivity|]. split; [exact Hm|].
    split; [apply get_stored; [exact Hget|discriminate]|]. left. reflexivity.
  - destruct (raised _) as [msg|]; [discriminate|].
    intros Hret. destruct (IH _ _ Hret) as (key & new & Htr & Hk & Hl & Hin).
    exists key, (new ++ [EvRespond selectDocument; EvGet docId (H h)]).
    split; [rewrite Htr; simpl; rewrite <- app_assoc; reflexivity|].
    split; [exact Hk|]. split; [exact Hl|].
    apply in_or_app. left. exact Hin.
  - discriminate.
Qed.

(** X6. Whatever Document [find] returns is in the store: it is the node
    stored under some id other than -1 that [find] fetched during this
    call; and [find] has left the store as it was. *)
Theorem find_returns_stored (self : Knowledge) (q : string) (fuel : nat)
    (w : World) (d : Document) :
  fst (find self fuel q w) = Return (Some d) ->
  store (snd (find self fuel q w)) = store w /\
  exists key,
    key <> -1 /\
    storage (store w) !! key = Some (D d) /\
    In (EvGet key (D d)) (new_events w (snd (find self fuel q w))).
Proof.
  intros Hret. split; [apply (find_loop_reads self q fuel ROOT_DOC_ID w)|].
  destruct (find_loop_returns_stored self q d fuel ROOT_DOC_ID w Hret)
    as (key & new & Htr & Hk & Hl & Hin).
  exists key. split; [exact Hk|]. split; [exact Hl|].
  unfold find. rewrite (new_events_app _ _ _ Htr). exact Hin.
Qed.

Lemma find_returns_stored_witness :
  store (snd (find Examples.merging 2 "test document" Examples.two_small_docs)) =
    store Examples.two_small_docs /\
  exists key,
    key <> -1 /\
    storage (store Examples.two_small_docs) !! key =
      Some (D {| d_id := 1; d_parentId := Some 0; content := "Small doc 1" |}) /\
    In (EvGet key (D {| d_id := 1; d_parentId := Some 0; content := "Small doc 1" |}))
       (new_events Examples.two_small_docs
          (snd (find Examples.merging 2 "test document" Examples.two_small_docs))).
Proof.
  apply (find_returns_stored Examples.merging "test document" 2
           Examples.two_small_docs).
  reflexivity.
Defined.

Lemma iterate_out_of_fuel {A B} (body : A -> M (Step A B)) (n : nat) :
  forall (a a' : A) (w w' : World) (m : nat),
    iterate n body a w = Some (a', w') ->
    (m <= n)%nat ->
    fst (while m body a w) = OutOfFuel.
Proof.
  induction n as [|n IH]; intros a a' w w' m Hit Hm.
  - replace m with 0%nat by lia. reflexivity.
  - destruct m as [|m]; [reflexivity|].
    rewrite while_S. simpl in Hit.
    destruct (body a w) as [[[a1|b]| |] w1]; try discriminate.
    eapply IH; [exact Hit|lia].
Qed.

Lemma find_loop_spins (self : Knowledge) (q : string) (h : Heading) (d : Z)
    (fuel : nat) :
  d <> -1 ->
  (forall n, on_selectDocument (agent self) n true h q = mkReply [] None) ->
  forall w,
    Storage.get (store w) d = H h ->
    fst (while fuel (find_body self q) d w) = OutOfFuel /\
    rounds (snd (while fuel (find_body self q) d w)) = (rounds w + fuel)%nat.
Proof.
  intros Hd Hsilent. induction fuel as [|fuel IH]; intros w Hget.
  - simpl. split; [reflexivity|lia].
  - rewrite while_S, find_body_eq.
    destruct (Z.eqb_spec d (-1)) as [|_]; [contradiction|].
    rewrite Hget. cbv zeta. rewrite Hsilent. simpl raised. simpl fired.
    simpl default.
    destruct (IH (log (EvRespond selectDocument) (log (EvGet d (H h)) w)) Hget)
      as [Hout Hrounds].
    split; [exact Hout|]. rewrite Hrounds.
    change (rounds (log (EvRespond selectDocument) (log (EvGet d (H h)) w)))
      with (S (rounds w)). lia.
Qed.

(** X7. [find] has no way out of a Heading at which the oracle's rounds
    return without firing [selectDocument] (as the gateway's "ignore"
    policy lets them): [docId] keeps its value, the same Heading is
    fetched and asked about again, and [find] does not return within any
    number of passes. *)
Theorem find_spins_when_silent (self : Knowledge) (q : string) (w0 : World)
    (n : nat) (d : Z) (w : World) (h : Heading) (fuel : nat) :
  iterate n (find_body self q) ROOT_DOC_ID w0 = Some (d, w) ->
  d <> -1 ->
  Storage.get (store w) d = H h ->
  (forall k, on_selectDocument (agent self) k true h q = mkReply [] None) ->
  fst (find self fuel q w0) = OutOfFuel /\
  (n <= fuel -> rounds (snd (find self fuel q w0)) = (rounds w + (fuel - n))%nat)%nat.
Proof.
  intros Hit Hd Hget Hsilent. unfold find.
  destruct (Nat.le_gt_cases n fuel) as [Hle|Hgt].
  - pose proof (while_iterate (find_body self q) n (fuel - n) _ _ _ _ Hit) as Hw.
    replace (n + (fuel - n))%nat with fuel in Hw by lia.
    rewrite Hw.
    destruct (find_loop_spins self q h d (fuel - n) Hd Hsilent w Hget)
      as [Hout Hrounds].
    split; [exact Hout|]. intros _. exact Hrounds.
  - split; [|lia]. eapply iterate_out_of_fuel; [exact Hit|lia].
Qed.

Lemma find_spins_when_silent_witness :
  fst (find Scenarios.tongue_tied 5 "anything" Examples.three_levels) = OutOfFuel /\
  rounds (snd (find Scenarios.tongue_tied 5 "anything" Examples.three_levels)) = 5%nat.
Proof.
  pose (h := {| h_id := 1; h_parentId := Some 0;
                refs := [ {| ref_id := 3; short := "Doc 1" |};
                          {| ref_id := 4; short := "Doc 2" |} ] |}).
  pose (w := log (EvRespond selectDocument)
               (log (EvGet 0 (Storage.get (store Examples.three_levels) 0))
                    Examples.three_levels)).
  destruct (find_spins_when_silent Scenarios.tongue_tied "anything"
              Examples.three_levels 1 1 w h 5) as [Hout Hrounds].
  - reflexivity.
  - lia.
  - reflexivity.
  - intros n. reflexivity.
  - split; [exact Hout|]. rewrite Hrounds by lia. reflexivity.
Defined.

(** ** What [update] leaves alone *)

Lemma grown_refl (doc : Document) (parent : option Heading)
    (s : InMemoryKnowledgeStorage) :
  grown doc parent s s.
Proof. split; [lia|]. split; auto. Qed.

Lemma grown_set (doc : Document) (parent : option Heading)
    (s0 s : InMemoryKnowledgeStorage) (n : Node) :
  grown doc parent s0 s ->
  (forall i, n <> E i) ->
  ~ off_path doc parent (id s0) (node_id n) ->
  grown doc parent s0 (Storage.set s n).
Proof.
  intros (Hid & Huse & Hframe) Hne Hon.
  split; [rewrite set_id; exact Hid|]. split.
  - intros key Hk. specialize (Huse key Hk). unfold in_use in *.
    destruct (decide (node_id n = key)) as [<-|Hd].
    + destruct n; simpl; try (rewrite lookup_insert_eq; eauto).
      exfalso. eapply Hne. reflexivity.
    + rewrite lookup_set_other by exact Hd. exact Huse.
  - intros key Hoff. rewrite lookup_set_other; [apply Hframe, Hoff|].
    intros Heq. apply Hon. rewrite Heq. exact Hoff.
Qed.

Lemma grown_setMany (doc : Document) (parent : option Heading)
    (s0 : InMemoryKnowledgeStorage) (docs : list Node) :
  forall s,
    grown doc parent s0 s ->
    Forall (fun n => (forall i, n <> E i) /\
                     ~ off_path doc parent (id s0) (node_id n)) docs ->
    grown doc parent s0 (Storage.setMany s docs).
Proof.
  unfold Storage.setMany.
  induction docs as [|n docs IH]; intros s Hg Hall; simpl; [exact Hg|].
  inversion Hall as [|? ? [Hne Hon] Hrest]; subst.
  apply IH; [apply grown_set; assumption|exact Hrest].
Qed.

Lemma grown_bump (doc : Document) (parent : option Heading)
    (s0 s : InMemoryKnowledgeStorage) (n : Z) :
  grown doc parent s0 s -> 0 <= n ->
  grown doc parent s0 {| storage := storage s; id := id s + n |}.
Proof.
  intros (Hid & Huse & Hframe) Hn.
  split; [simpl; lia|]. split; [exact Huse|exact Hframe].
Qed.

Lemma updateDocument_handler_grows (doc : Document) (parent : option Heading)
    (s0 : InMemoryKnowledgeStorage) (arg : UpdateArg) (l : string) (w : World) :
  update_rel doc parent s0 w ->
  update_rel doc parent s0 (snd (updateDocument_handler doc arg l w)).
Proof.
  intros [Hinv Hg]. split; [apply updateDocument_handler_keeps, Hinv|].
  unfold updateDocument_handler, bind, storage_set, ret. cbn [snd store].
  apply grown_set; [exact Hg|discriminate|].
  simpl. intros (_ & Hne & _). apply Hne. reflexivity.
Qed.

Lemma splitDocument_handler_grows (doc : Document) (parent : option Heading)
    (s0 : InMemoryKnowledgeStorage) (arg : list Piece) (w : World) :
  update_rel doc parent s0 w ->
  update_rel doc parent s0 (snd (splitDocument_handler doc arg tt w)).
Proof.
  intros [Hinv Hg]. split; [apply splitDocument_handler_keeps, Hinv|].
  pose proof (splitDocument_handler_eq doc arg w) as Heq. cbv zeta in Heq.
  rewrite Heq. clear Heq. cbn [snd store].
  apply grown_setMany.
  - apply (grown_bump doc parent s0 (store w)); [exact Hg|lia].
  - apply Forall_app. split.
    + pose proof (split_docs_ids (d_id doc) arg (id (store w))) as Hids.
      pose proof (split_docs_documents (d_id doc) arg (id (store w))) as Hdocs.
      rewrite Forall_forall in Hids, Hdocs. apply Forall_forall.
      intros n Hn. split; [apply Hdocs, Hn|].
      intros (Hlt & _). specialize (Hids n Hn). destruct Hg as (Hid & _). lia.
    + constructor; [|constructor]. split; [discriminate|].
      simpl. intros (_ & Hne & _). apply Hne. reflexivity.
Qed.

Lemma mergeDocuments_handler_grows (doc : Document) (ph : Heading)
    (s0 : InMemoryKnowledgeStorage) (arg : Piece) (w : World) :
  update_rel doc (Some ph) s0 w ->
  update_rel doc (Some ph) s0 (snd (mergeDocuments_handler ph arg tt w)).
Proof.
  intros [Hinv Hg]. split; [apply mergeDocuments_handler_keeps, Hinv|].
  pose proof (mergeDocuments_handler_eq ph arg w) as Heq. cbv zeta in Heq.
  rewrite Heq. clear Heq. cbn [snd].
  set (newDoc := D {| d_id := h_id ph; d_parentId := h_parentId ph;
                      content := piece_content arg |}).
  assert (H1 : grown doc (Some ph) s0 (Storage.set (store w) newDoc)).
  { apply grown_set; [exact Hg|discriminate|].
    simpl. intros (_ & _ & Hph). destruct (Hph ph eq_refl) as [Hne _].
    apply Hne. reflexivity. }
  assert (Hwf1 : store_wf (Storage.set (store w) newDoc)).
  { apply set_store_wf. apply Hinv. }
  destruct (h_parentId ph) as [parentId|] eqn:Hpid; [|exact H1].
  destruct (parentId =? 0); [exact H1|].
  destruct (Storage.get _ parentId) as [d|g|e] eqn:Hget; [exact H1| |exact H1].
  cbn [store]. apply grown_set; [exact H1|discriminate|].
  apply get_stored in Hget; [|discriminate].
  pose proof (Hwf1 _ _ Hget) as Hidg. simpl in Hidg.
  simpl. intros (_ & _ & Hph). destruct (Hph ph eq_refl) as [_ Hne].
  apply Hne. rewrite Hpid, Hidg. reflexivity.
Qed.

Lemma split_phase_grows (self : Knowledge) (doc : Document)
    (parent : option Heading) (s0 : InMemoryKnowledgeStorage) (w : World) :
  update_rel doc parent s0 w ->
  update_rel doc parent s0 (snd (split_phase self doc w)).
Proof.
  intros Hw. unfold split_phase, bind, storage_get.
  destruct (Storage.get (store w) (d_id doc)) as [ud|h|e]; try exact Hw.
  destruct (content_length ud >? maxDocumentSizeChars (config self)); [|exact Hw].
  apply respond_keeps.
  - intros e w' Hw'. exact Hw'.
  - intros a [] w'. apply splitDocument_handler_grows.
  - exact Hw.
Qed.

Lemma merge_phase_grows (self : Knowledge) (doc : Document)
    (parent : option Heading) (s0 : InMemoryKnowledgeStorage) (w : World) :
  update_rel doc parent s0 w ->
  update_rel doc parent s0 (snd (merge_phase self parent w)).
Proof.
  intros Hw. destruct parent as [ph|]; [|exact Hw].
  rewrite merge_phase_eq.
  destruct (2 * children_size (store w) ph <? maxDocumentSizeChars (config self));
    [|exact Hw].
  apply respond_keeps.
  - intros e w' Hw'. exact Hw'.
  - intros a [] w'. apply mergeDocuments_handler_grows.
  - exact Hw.
Qed.

(** The three phases that follow the traversal. *)
Lemma phases_grow (self : Knowledge) (q : string) (doc : Document)
    (parent : option Heading) (w : World) :
  update_inv doc parent w ->
  update_rel doc parent (store w)
    (snd ((shortUpdateDescription <- edit_phase self q doc ;;
           _ <- split_phase self doc ;;
           _ <- merge_phase self parent ;;
           ret shortUpdateDescription) w)).
Proof.
  intros Hinv.
  apply (bind_keeps (update_rel doc parent (store w))).
  - unfold edit_phase. apply respond_keeps.
    + intros e w' Hw'. exact Hw'.
    + intros a l w'. apply updateDocument_handler_grows.
    + split; [exact Hinv|apply grown_refl].
  - intros summary w3 H3.
    apply (bind_keeps (update_rel doc parent (store w)));
      [apply split_phase_grows, H3|].
    intros _ w4 H4.
    apply (bind_keeps (update_rel doc parent (store w)));
      [apply merge_phase_grows, H4|].
    intros _ w5 H5. exact H5.
Qed.

(** X8. An [update] that edits the leaf [doc] under the Heading [parent]
    writes to the leaf's id, to the parent's id, to the id the parent
    names as its own parent, and to ids it takes from the counter; every
    other id holds afterwards what it held before, whatever the oracle
    answers in the three rounds and however the call ends.  In
    particular the Documents a merge has folded into their parent stay
    in the store under their old ids. *)
Theorem update_frame (self : Knowledge) (fuel : nat) (q : string) (w : World)
    (doc : Document) (parent : option Heading) (w2 : World) (key : Z) :
  engine_inv (store w) ->
  _findLeaf self fuel q
    (log (EvGet ROOT_DOC_ID (Storage.get (store w) ROOT_DOC_ID)) w) =
    (Return (doc, parent), w2) ->
  off_path doc parent (id (store w)) key ->
  storage (store (snd (update self fuel q w))) !! key = storage (store w) !! key.
Proof.
  intros Hinv Hleaf Hoff.
  pose proof (findLeaf_returns_stored self q fuel ROOT_DOC_ID None
                (log (EvGet ROOT_DOC_ID (Storage.get (store w) ROOT_DOC_ID)) w)
                (proj1 Hinv)) as Hres.
  cbv zeta in Hres. fold (_findLeaf self fuel q) in Hres.
  destruct Hres as (Hs & Hres); [discriminate|].
  rewrite Hleaf in Hs, Hres. simpl in Hs, Hres.
  destruct (Hres doc parent eq_refl) as (Hdoc & Hpar).
  assert (H2 : update_inv doc parent w2).
  { unfold update_inv. rewrite Hs. auto. }
  pose proof (phases_grow self q doc parent w2 H2) as (_ & _ & _ & Hframe).
  rewrite Hs in Hframe. cbn [log store] in Hframe.
  unfold update, bind at 1, storage_get.
  destruct (Storage.get (store w) ROOT_DOC_ID) as [d|h|e] eqn:Hroot.
  - unfold bind at 1. rewrite Hleaf. apply Hframe, Hoff.
  - unfold bind at 1. rewrite Hleaf. apply Hframe, Hoff.
  - exfalso. unfold _findLeaf in Hleaf. destruct fuel as [|fuel]; [discriminate|].
    rewrite while_S, findLeaf_body_eq in Hleaf. cbn [log store] in Hleaf.
    rewrite Hroot in Hleaf. discriminate.
Qed.

Lemma update_frame_witness :
  storage (store (snd (update Examples.descending 3 "make a document small"
                         Examples.three_levels))) !! 4 =
    Some (D {| d_id := 4; d_parentId := Some 1; content := "Small doc 2" |}) /\
  storage (store (snd (update Examples.descending 3 "make a document small"
                         Examples.three_levels))) !! 1 =
    Some (D {| d_id := 1; d_parentId := Some 0; content := "merged content" |}).
Proof.
  split; [|reflexivity].
  pose (w1 := log (EvGet ROOT_DOC_ID
                        (Storage.get (store Examples.three_levels) ROOT_DOC_ID))
                 Examples.three_levels).
  rewrite (update_frame Examples.descending 3 "make a document small"
             Examples.three_levels
             {| d_id := 3; d_parentId := Some 1; content := "Small doc 1" |}
             (Some {| h_id := 1; h_parentId := Some 0;
                      refs := [ {| ref_id := 3; short := "Doc 1" |};
                                {| ref_id := 4; short := "Doc 2" |} ] |})
             (snd (_findLeaf Examples.descending 3 "make a document small" w1)) 4).
  - reflexivity.
  - split; [|split].
    + unfold store_wf. apply (bool_decide_unpack _). vm_compute. exact I.
    + unfold allocator_ahead. apply (bool_decide_unpack _). vm_compute. exact I.
    + reflexivity.
  - reflexivity.
  - split; [reflexivity|]. split; [discriminate|].
    intros ph Hph. injection Hph as <-. split; discriminate.
Defined.

(** X9. [update] never deletes: every id in use before the call is in use
    after it, and the id counter has not gone back -- whatever the oracle
    answers and however the call ends.  (The engine has no call that
    stores an Empty node.) *)
Theorem update_never_deletes (self : Knowledge) (fuel : nat) (q : string)
    (w : World) (key : Z) :
  engine_inv (store w) ->
  in_use (store w) key ->
  in_use (store (snd (update self fuel q w))) key /\
  id (store w) <= id (store (snd (update self fuel q w))).
Proof.
  intros Hinv Hkey.
  set (P := fun w' : World =>
              in_use (store w') key /\ id (store w) <= id (store w')).
  change (P (snd (update self fuel q w))).
  set (w1 := log (EvGet ROOT_DOC_ID (Storage.get (store w) ROOT_DOC_ID)) w).
  assert (Hrest : P (snd
            ((leaf <- _findLeaf self fuel q ;;
              let '(docToUpdate, parentHeading) := leaf in
              shortUpdateDescription <- edit_phase self q docToUpdate ;;
              _ <- split_phase self docToUpdate ;;
              _ <- merge_phase self parentHeading ;;
              ret shortUpdateDescription) w1))).
  { pose proof (findLeaf_returns_stored self q fuel ROOT_DOC_ID None w1
                  (proj1 Hinv)) as Hleaf.
    cbv zeta in Hleaf. fold (_findLeaf self fuel q) in Hleaf.
    destruct Hleaf as (Hs & Hres); [discriminate|].
    unfold bind at 1.
    destruct (_findLeaf self fuel q w1) as [[[doc parent]|msg|] w2];
      simpl in Hs, Hres;
      [|unfold P; simpl; rewrite Hs; split; [exact Hkey|apply Z.le_refl] ..].
    destruct (Hres doc parent eq_refl) as (Hdoc & Hpar).
    assert (H2 : update_inv doc parent w2).
    { unfold update_inv. rewrite Hs. auto. }
    pose proof (phases_grow self q doc parent w2 H2) as (_ & Hid & Huse & _).
    rewrite Hs in Hid, Huse. split; [apply Huse, Hkey|exact Hid]. }
  unfold update, bind at 1, storage_get. fold w1.
  destruct (Storage.get (store w) ROOT_DOC_ID) as [d|h|e];
    [exact Hrest|exact Hrest|].
  refine (proj2 (bind_keeps (fun w' => engine_inv (store w') /\ P w') _ _ w1 _ _)).
  - apply (respond_keeps (fun w' => engine_inv (store w') /\ P w')).
    + intros ev w' Hw'. exact Hw'.
    + intros a [] w' (Hi & Hk & Hc).
      unfold createRoot_handler, storage_set. cbn [snd].
      destruct (set_engine_inv (store w')
                  (D {| d_id := ROOT_DOC_ID; d_parentId := None; content := a |})
                  Hi) as [Hi' Hkeys].
      * discriminate.
      * simpl. apply Hi.
      * split; [exact Hi'|]. split; [apply Hkeys, Hk|].
        cbn [store]. rewrite set_id. exact Hc.
    + split; [exact Hinv|]. split; [exact Hkey|apply Z.le_refl].
  - intros _ w' Hw'. exact Hw'.
Qed.

Lemma update_never_deletes_witness :
  in_use (store (snd (update Examples.merging 2 "make a document small"
                        Examples.two_small_docs))) 2 /\
  id (store Examples.two_small_docs) <=
    id (store (snd (update Examples.merging 2 "make a document small"
                      Examples.two_small_docs))).
Proof.
  apply (update_never_deletes Examples.merging 2 "make a document small"
           Examples.two_small_docs 2).
  - split; [|split].
    + unfold store_wf. apply (bool_decide_unpack _). vm_compute. exact I.
    + unfold allocator_ahead. apply (bool_decide_unpack _). vm_compute. exact I.
    + reflexivity.
  - eexists. reflexivity.
Defined.

(** ** The edit round *)

Lemma last_map {A B} (f : A -> B) (l : list A) :
  last (map f l) = option_map f (last l).
Proof.
  induction l as [|a l IH]; [reflexivity|].
  destruct l as [|b l]; [reflexivity|]. exact IH.
Qed.

Lemma no_respond_sets (docs : list Node) : no_respond (rev (map EvSet docs)).
Proof.
  unfold no_respond. induction docs as [|n docs IH]; [reflexivity|].
  simpl. rewrite filter_app, IH. reflexivity.
Qed.

Lemma setMany_same_id (i : Z) (docs : list Node) (s : InMemoryKnowledgeStorage) :
  Forall (fun n => (forall e, n <> E e) /\ node_id n = i) docs ->
  Storage.setMany s docs =
    match last docs with
    | Some n => Storage.set s n
    | None => s
    end.
Proof.
  induction docs as [|n docs IH] using rev_ind; intros Hall; [reflexivity|].
  apply Forall_app in Hall as [Hdocs Hn].
  inversion Hn as [|? ? [Hne Hid] _]; subst.
  rewrite setMany_app, last_snoc, (IH Hdocs).
  change (Storage.setMany ?s0 [n]) with (Storage.set s0 n).
  destruct (last docs) as [m|] eqn:Hlast; [|reflexivity].
  assert (Hm : (forall e, m <> E e) /\ node_id m = node_id n).
  { rewrite Forall_forall in Hdocs. apply Hdocs.
    apply last_Some in Hlast as [l' ->]. apply elem_of_app. right.
    apply list_elem_of_singleton. reflexivity. }
  destruct Hm as [Hme Hmid].
  destruct n as [d|h|e]; [| |exfalso; eapply Hne; reflexivity];
    (destruct m as [d'|h'|e']; [| |exfalso; eapply Hme; reflexivity]);
    simpl in *; rewrite Hmid, insert_insert_eq; reflexivity.
Qed.

Lemma default_last_cons {A} (xs : list A) :
  forall l x : A, default l (last (x :: xs)) = default x (last xs).
Proof.
  induction xs as [|y ys IH]; intros l x; [reflexivity|].
  change (last (x :: y :: ys)) with (last (y :: ys)).
  rewrite (IH l y), (IH x y). reflexivity.
Qed.

Lemma run_updateDocument_handler (doc : Document) (args : list UpdateArg) :
  forall (l : string) (w : World),
    run_handler (updateDocument_handler doc) args l w =
    (Return (default l (last (map shortUpdateDescription args))),
     {| store := Storage.setMany (store w) (map (edited doc) args);
        trace := rev (map EvSet (map (edited doc) args)) ++ trace w |}).
Proof.
  induction args as [|a args IH]; intros l w.
  - destruct w. reflexivity.
  - simpl run_handler. unfold bind at 1.
    unfold updateDocument_handler at 1, bind, storage_set, ret. cbv zeta.
    rewrite IH. cbn [store trace]. f_equal.
    + f_equal. symmetry. apply default_last_cons.
    + f_equal. simpl. rewrite <- app_assoc. reflexivity.
Qed.

Lemma edit_phase_eq (self : Knowledge) (q : string) (doc : Document) (w : World) :
  let r := on_updateDocument (agent self) (rounds w) (content doc) q in
  edit_phase self q doc w =
  (match raised r with
   | Some msg => Throw msg
   | None => Return (default "" (last (map shortUpdateDescription (fired r))))
   end,
   {| store := Storage.setMany (store w) (map (edited doc) (fired r));
      trace := rev (map EvSet (map (edited doc) (fired r))) ++
               EvRespond updateDocument :: trace w |}).
Proof.
  cbv zeta. unfold edit_phase, respond, bind.
  rewrite run_updateDocument_handler. cbn [log store trace].
  destruct (raised _); reflexivity.
Qed.

Lemma setMany_edited (doc : Document) (args : list UpdateArg)
    (s : InMemoryKnowledgeStorage) :
  Storage.setMany s (map (edited doc) args) =
    match last args with
    | Some arg => Storage.set s (edited doc arg)
    | None => s
    end.
Proof.
  rewrite (setMany_same_id (d_id doc)).
  - rewrite last_map. destruct (last args); reflexivity.
  - induction args as [|a args IH]; simpl; constructor;
      [split; [discriminate|reflexivity]|exact IH].
Qed.

(** X10. The edit round, for every reply of the oracle.  Each firing of
    [updateDocument] overwrites the leaf under the leaf's id, so the
    store is the old one with the leaf replaced by the last firing's
    text, under the old id and parentId; the description is the last
    firing's, and the empty string when the tool was never fired, in
    which case the store is as it was.  The writes stay when the round
    throws.  Exactly one round is issued. *)
Theorem edit_phase_last_wins (self : Knowledge) (q : string) (doc : Document)
    (w : World) :
  let r := on_updateDocument (agent self) (rounds w) (content doc) q in
  let w' := snd (edit_phase self q doc w) in
  fst (edit_phase self q doc w) =
    match raised r with
    | Some msg => Throw msg
    | None => Return (default "" (last (map shortUpdateDescription (fired r))))
    end /\
  store w' =
    match last (fired r) with
    | Some arg => Storage.set (store w) (edited doc arg)
    | None => store w
    end /\
  rounds w' = S (rounds w).
Proof.
  cbv zeta. pose proof (edit_phase_eq self q doc w) as Heq. cbv zeta in Heq.
  rewrite Heq. cbn [fst snd store]. split; [reflexivity|]. split.
  - apply setMany_edited.
  - rewrite (rounds_no_respond (log (EvRespond updateDocument) w) _ _
               (no_respond_sets _)).
    reflexivity.
Qed.

Lemma findLeaf_needs_root (self : Knowledge) (fuel : nat) (q : string) (w : World)
    (leaf : Document * option Heading) (w2 : World) :
  _findLeaf self fuel q
    (log (EvGet ROOT_DOC_ID (Storage.get (store w) ROOT_DOC_ID)) w) =
    (Return leaf, w2) ->
  (forall i, Storage.get (store w) ROOT_DOC_ID <> E i) /\ store w2 = store w.
Proof.
  intros Hleaf. split.
  - intros i Hroot. unfold _findLeaf in Hleaf.
    destruct fuel as [|fuel]; [discriminate|].
    rewrite while_S, findLeaf_body_eq in Hleaf. cbn [log store] in Hleaf.
    rewrite Hroot in Hleaf. discriminate.
  - pose proof (findLeaf_loop_inv self q fuel (ROOT_DOC_ID, None)
                  (log (EvGet ROOT_DOC_ID (Storage.get (store w) ROOT_DOC_ID)) w))
      as Hinv.
    cbv zeta in Hinv. fold (_findLeaf self fuel q) in Hinv.
    rewrite Hleaf in Hinv. apply Hinv.
Qed.

(** X11. An [update] that stays within the thresholds is one write.
    When the traversal has found the leaf [doc] under [parent], the edit
    round returns with [arg] as its last firing, the new text is no
    longer than [maxDocumentSizeChars], and the children of [parent] --
    the leaf with its new text among them -- total at least half of it,
    then [update] returns the description given with [arg], the store
    is the old one with the leaf's text replaced, and the edit round is
    the only round after the traversal. *)
Theorem update_plain_edit (self : Knowledge) (fuel : nat) (q : string) (w : World)
    (doc : Document) (parent : option Heading) (w2 : World)
    (args : list UpdateArg) (arg : UpdateArg) :
  _findLeaf self fuel q
    (log (EvGet ROOT_DOC_ID (Storage.get (store w) ROOT_DOC_ID)) w) =
    (Return (doc, parent), w2) ->
  on_updateDocument (agent self) (rounds w2) (content doc) q =
    mkReply (args ++ [arg]) None ->
  Z.of_nat (String.length (newDocument arg)) <= maxDocumentSizeChars (config self) ->
  (forall ph, parent = Some ph ->
     maxDocumentSizeChars (config self) <=
       2 * children_size (Storage.set (store w) (edited doc arg)) ph) ->
  fst (update self fuel q w) = Return (shortUpdateDescription arg) /\
  store (snd (update self fuel q w)) = Storage.set (store w) (edited doc arg) /\
  rounds (snd (update self fuel q w)) = S (rounds w2).
Proof.
  intros Hleaf Hreply Hsmall Hfull.
  destruct (findLeaf_needs_root self fuel q w _ w2 Hleaf) as [Hroot Hs].
  set (w3 := {| store := Storage.set (store w) (edited doc arg);
                trace := rev (map EvSet (map (edited doc) (args ++ [arg]))) ++
                         EvRespond updateDocument :: trace w2 |}).
  assert (Hedit : edit_phase self q doc w2 = (Return (shortUpdateDescription arg), w3)).
  { pose proof (edit_phase_eq self q doc w2) as Hedit. cbv zeta in Hedit.
    rewrite Hreply in Hedit. cbn [raised fired] in Hedit.
    rewrite setMany_edited, last_map, !last_snoc, Hs in Hedit.
    exact Hedit. }
  assert (Hrounds3 : rounds w3 = S (rounds w2)).
  { unfold w3.
    rewrite (rounds_no_respond (log (EvRespond updateDocument) w2) _ _
               (no_respond_sets _)).
    reflexivity. }
  assert (Hsplit : split_phase self doc w3 =
                   (Return tt, log (EvGet (d_id doc) (edited doc arg)) w3)).
  { unfold split_phase, bind, storage_get.
    assert (Hget : Storage.get (store w3) (d_id doc) = edited doc arg).
    { unfold w3. cbn [store]. rewrite get_set.
      rewrite decide_True by reflexivity. reflexivity. }
    rewrite Hget. unfold edited at 1. unfold content_length. cbn [content].
    destruct (Z.gtb_spec (Z.of_nat (String.length (newDocument arg)))
                (maxDocumentSizeChars (config self))) as [Hgt|_]; [lia|].
    reflexivity. }
  assert (Hupdate : exists final,
             update self fuel q w = (Return (shortUpdateDescription arg), final) /\
             store final = store w3 /\ rounds final = rounds w3).
  { rewrite (update_phases self fuel q w doc parent _ w2 _ Hroot Hleaf Hedit).
    unfold bind at 1. rewrite Hsplit.
    destruct parent as [ph|].
    - unfold bind at 1. rewrite merge_phase_eq. cbn [log store].
      destruct (Z.ltb_spec (2 * children_size (store w3) ph)
                  (maxDocumentSizeChars (config self))) as [Hlt|_].
      + exfalso. specialize (Hfull ph eq_refl). unfold w3 in Hlt.
        cbn [store] in Hlt. lia.
      + eexists. split; [reflexivity|]. split; [reflexivity|].
        apply (rounds_no_respond (log (EvGet (d_id doc) (edited doc arg)) w3) _ _
                 (no_respond_gets _ _)).
    - eexists. split; [reflexivity|]. split; reflexivity. }
  destruct Hupdate as (final & Hupd & Hstore & Hrounds).
  rewrite Hupd. cbn [fst snd]. split; [reflexivity|].
  split; [exact Hstore|]. rewrite Hrounds. exact Hrounds3.
Qed.

Lemma update_plain_edit_witness :
  fst (update Scenarios.editing 1 "add a fact" Examples.single_doc) =
    Return "Made document small" /\
  store (snd (update Scenarios.editing 1 "add a fact" Examples.single_doc)) =
    Storage.set (store Examples.single_doc)
      (edited Examples.initial_doc Examples.made_small) /\
  rounds (snd (update Scenarios.editing 1 "add a fact" Examples.single_doc)) = 1%nat.
Proof.
  pose (w1 := log (EvGet ROOT_DOC_ID (D Examples.initial_doc)) Examples.single_doc).
  apply (update_plain_edit Scenarios.editing 1 "add a fact" Examples.single_doc
           Examples.initial_doc None
           (snd (_findLeaf Scenarios.editing 1 "add a fact" w1))
           [Examples.made_large] Examples.made_small).
  - reflexivity.
  - reflexivity.
  - vm_compute. discriminate.
  - intros ph Hph. discriminate.
Defined.

(** ** The invariant and the merge, on the concrete knowledge bases *)

Lemma update_keeps_engine_inv_witness :
  engine_inv (store (snd (update Examples.splitting 1 "make a document large"
                            Examples.single_doc))).
Proof.
  apply (update_keeps_engine_inv Examples.splitting 1 "make a document large"
           Examples.single_doc).
  split; [|split].
  - unfold store_wf. apply (bool_decide_unpack _). vm_compute. exact I.
  - unfold allocator_ahead. apply (bool_decide_unpack _). vm_compute. exact I.
  - reflexivity.
Defined.

Lemma merge_retitles_grandparent_witness :
  exists w',
    mergeDocuments_handler
      {| h_id := 2; h_parentId := Some 1;
         refs := [ {| ref_id := 3; short := "Doc 1" |};
                   {| ref_id := 4; short := "Doc 2" |} ] |}
      Examples.merged_docs tt Examples.four_levels = (Return tt, w') /\
    storage (store w') !! 1 =
      Some (H {| h_id := 1; h_parentId := Some 0;
                 refs := retitle 2 "Merged docs"
                           [ {| ref_id := 2; short := "Topic A1" |};
                             {| ref_id := 5; short := "Topic A2" |} ] |}) /\
    forall key, key <> 1 -> key <> 2 ->
                storage (store w') !! key =
                storage (store Examples.four_levels) !! key.
Proof.
  apply (merge_retitles_grandparent
           {| h_id := 2; h_parentId := Some 1;
              refs := [ {| ref_id := 3; short := "Doc 1" |};
                        {| ref_id := 4; short := "Doc 2" |} ] |}
           {| h_id := 1; h_parentId := Some 0;
              refs := [ {| ref_id := 2; short := "Topic A1" |};
                        {| ref_id := 5; short := "Topic A2" |} ] |}
           Examples.merged_docs Examples.four_levels 1).
  - reflexivity.
  - discriminate.
  - discriminate.
  - reflexivity.
  - reflexivity.
Defined.

(** ** The gateway: what a round does to the handlers' state *)

Section GatewayRuns.

Import Gateway.

Context {JSON S : Type} (JSON_parse : string -> option JSON).

Local Abbreviation AgentWorld := (@AgentWorld S).
Local Abbreviation ToolHandlerInner := (@ToolHandlerInner S).
Local Abbreviation handlers_of tools :=
  (map_imap (fun name t => Some (_transformTool JSON_parse name t)) tools).

Lemma transformTool_user (name : string) (t : ToolDefinition) (argJson : string)
    (w : AgentWorld) :
  user (snd (_transformTool JSON_parse name t argJson w)) =
    match JSON_parse argJson with
    | None => user w
    | Some parsed =>
        match arg t parsed with
        | None => user w
        | Some data => fst (handler t data (user w))
        end
    end.
Proof.
  unfold _transformTool.
  destruct (JSON_parse argJson) as [parsed|]; [|reflexivity].
  destruct (arg t parsed) as [data|]; [|reflexivity].
  destruct (handler t data (user w)) as [s' [err|]]; reflexivity.
Qed.

Lemma call_handlers_user (tools : gmap string (@ToolDefinition JSON S))
    (toolCalls : list ToolCall) :
  forall (results : gmap string string) (w : AgentWorld),
    user (snd (call_handlers (handlers_of tools) toolCalls results w)) =
    Calls.apply_calls JSON_parse tools toolCalls (user w).
Proof.
  set (handlers := handlers_of tools).
  assert (Hlk : forall name,
             handlers !! name = _transformTool JSON_parse name <$> tools !! name).
  { intros name. unfold handlers. rewrite map_lookup_imap.
    destruct (tools !! name); reflexivity. }
  clearbody handlers.
  induction toolCalls as [|tc toolCalls IH]; intros results w; [reflexivity|].
  cbn [Calls.apply_calls call_handlers].
  destruct tc as [name argJson|name]; cbn [call_handlers].
  - pose proof (Hlk name) as Hname.
    unfold aborts, Calls.apply_call, Calls.accepted_call.
    unfold Gateway.ToolHandlerInner in *.
    destruct (tools !! name) as [t|] eqn:Htool; simpl in Hname; rewrite Hname.
    + pose proof (transformTool_user name t argJson w) as Hu.
      destruct (_transformTool JSON_parse name t argJson w) as [[e|] w1];
        simpl in Hu; rewrite IH, Hu;
        destruct (JSON_parse argJson) as [parsed|]; try reflexivity;
        destruct (arg t parsed) as [data|]; reflexivity.
    + destruct (inherited name) as [[| |]|]; try apply IH. reflexivity.
  - apply IH.
Qed.

Lemma call_handlers_foreign (tools : gmap string (@ToolDefinition JSON S))
    (toolCalls : list ToolCall) :
  Exists (Calls.foreign tools) toolCalls ->
  forall (results : gmap string string) (w : AgentWorld),
    fst (call_handlers (handlers_of tools) toolCalls results w) <> Some ∅.
Proof.
  intros Hex. induction Hex as [tc toolCalls Hf|tc toolCalls _ IH]; intros results w.
  - assert (Hins : forall name msg w1,
               name <> "__proto__" ->
               fst (call_handlers (handlers_of tools) toolCalls
                      (record name msg results) w1) <> Some ∅).
    { intros name msg w1 Hname.
      apply (call_handlers_keeps_errors (handlers_of tools) toolCalls).
      rewrite record_insert by exact Hname. apply insert_non_empty. }
    destruct tc as [name argJson|name]; cbn [call_handlers].
    + simpl in Hf. destruct Hf as [Hf Hinh].
      assert (Hname : handlers_of tools !! name = None).
      { rewrite map_lookup_imap, Hf. reflexivity. }
      unfold Gateway.ToolHandlerInner in *. rewrite Hname.
      assert (Hnp : name <> "__proto__").
      { intros Heq. rewrite (inherited_proto _ Heq) in Hinh.
        destruct Hinh; discriminate. }
      destruct Hinh as [-> | ->]; apply Hins, Hnp.
    + apply Hins. exact Hf.
  - destruct tc as [name argJson|name]; cbn [call_handlers].
    + destruct (handlers_of tools !! name) as [h|].
      * destruct (h argJson w) as [[e|] w1]; apply IH.
      * destruct (inherited name) as [[| |]|]; try apply IH. discriminate.
    + apply IH.
Qed.

(** What [_verifyAndCallHandlers] does on a response with tool calls. *)
Lemma verify_runs (tools : gmap string (@ToolDefinition JSON S)) (r : Response)
    (choice : Choice) (rest : list Choice) (toolCalls : list ToolCall)
    (w : AgentWorld) :
  choices r = choice :: rest ->
  tool_calls choice = Some toolCalls ->
  let run := _verifyAndCallHandlers r (handlers_of tools) w in
  user (snd run) = Calls.apply_calls JSON_parse tools toolCalls (user w) /\
  calls (snd run) = calls w /\
  (existsb (aborts tools) toolCalls = true -> fst run = Thrown TYPE_ERROR) /\
  (existsb (aborts tools) toolCalls = false ->
   Exists (Calls.foreign tools) toolCalls -> exists msg, fst run = Errors msg).
Proof.
  intros Hc Ht. cbv zeta.
  pose proof (verify_calls JSON_parse tools r w) as Hcalls. cbv zeta in Hcalls.
  pose proof (verify_thrown JSON_parse tools r w) as Hthrown. cbv zeta in Hthrown.
  unfold aborting in Hthrown. rewrite Hc, Ht in Hthrown.
  destruct Hthrown as [Htrue Hfalse].
  split; [|split; [exact Hcalls|split; [exact Htrue|]]].
  - unfold _verifyAndCallHandlers. rewrite Hc, Ht.
    pose proof (call_handlers_user tools toolCalls ∅ w) as Hu.
    destruct (call_handlers (handlers_of tools) toolCalls ∅ w) as [[results|] w1];
      simpl in Hu; [|exact Hu].
    destruct (map (fun kv => fst kv ++ ": " ++ snd kv)%string (map_to_list results));
      exact Hu.
  - intros Hab Hex. specialize (Hfalse Hab).
    pose proof (call_handlers_foreign tools toolCalls Hex ∅ w) as Hne.
    revert Hfalse. unfold _verifyAndCallHandlers. rewrite Hc, Ht.
    destruct (call_handlers (handlers_of tools) toolCalls ∅ w) as [[results|] w1];
      simpl in Hne |- *.
    + intros _. destruct (map_to_list results) as [|kv kvs] eqn:Hl; simpl.
      * exfalso. apply Hne. f_equal. apply map_to_list_empty_iff. exact Hl.
      * eexists. reflexivity.
    + intros Hfalse. exfalso. apply (Hfalse TYPE_ERROR). reflexivity.
Qed.

Lemma retry_loop_bounded (tools : gmap string (@ToolDefinition JSON S))
    (client : nat -> Completion) (maxRetries : Z) (fuel : nat) :
  forall (retryCount : Z) (w : AgentWorld),
    let w' := snd (retry_loop fuel maxRetries client (handlers_of tools) retryCount w) in
    (calls w <= calls w' <= calls w + Z.to_nat (maxRetries - retryCount) + 1)%nat /\
    (0 < fuel -> calls w < calls w')%nat.
Proof.
  induction fuel as [|fuel IH]; intros retryCount w; cbv zeta.
  - simpl. split; lia.
  - cbn [retry_loop]. unfold _respond.
    destruct (client (calls w)) as [r|msg]; [|simpl; split; lia].
    set (w1 := {| user := user w; calls := Datatypes.S (calls w); ran := ran w |}).
    pose proof (verify_calls JSON_parse tools r w1) as Hc. cbv zeta in Hc.
    destruct (_verifyAndCallHandlers r (handlers_of tools) w1)
      as [[|verification|thrown] w2];
      simpl in Hc; [simpl; split; lia| |simpl; split; lia].
    destruct (Z.leb_spec (retryCount + 1) maxRetries) as [Hle|Hgt].
    + destruct (IH (retryCount + 1) w2) as [Hb _]. cbv zeta in Hb.
      rewrite Hc in Hb. simpl in Hb.
      replace (Z.to_nat (maxRetries - retryCount))
        with (Datatypes.S (Z.to_nat (maxRetries - (retryCount + 1)))) by lia.
      split; lia.
    + simpl. rewrite Hc. simpl. split; lia.
Qed.

End GatewayRuns.

(** X15. [respond] ends, and with a bounded number of completions: one
    when the strategy is missing, "ignore" or "throw", and between one
    and [maxRetries + 2] under "retryAll" -- whatever the model answers
    and whatever the handlers do.  The [while (true)] of the retries is
    left after at most [maxRetries + 1] passes. *)
Theorem respond_completions_bounded {JSON S : Type}
    (JSON_parse : string -> option JSON) (fuel : nat)
    (strategy : option Gateway.ResolutionStrategy)
    (client : nat -> Gateway.Completion)
    (tools : gmap string (@Gateway.ToolDefinition JSON S))
    (w : @Gateway.AgentWorld S) :
  (forall N, strategy = Some (Gateway.kind_retryAll N) -> (Z.to_nat N < fuel)%nat) ->
  let run := Gateway.respond JSON_parse fuel strategy client tools w in
  fst run <> OutOfFuel /\
  (Gateway.calls w < Gateway.calls (snd run) <=
     Gateway.calls w + Calls.completions_bound strategy)%nat.
Proof.
  intros Hfuel. cbv zeta. split.
  { apply respond_terminates. exact Hfuel. }
  unfold Gateway.respond, Gateway._respond.
  destruct (client (Gateway.calls w)) as [r|msg];
    [|simpl; destruct strategy as [[| |N]|]; simpl; lia].
  set (w1 := {| Gateway.user := Gateway.user w;
                Gateway.calls := Datatypes.S (Gateway.calls w);
                Gateway.ran := Gateway.ran w |}).
  pose proof (verify_calls JSON_parse tools r w1) as Hc. cbv zeta in Hc.
  destruct (Gateway._verifyAndCallHandlers r _ w1) as [[|verification|thrown] w2];
    simpl in Hc.
  { simpl. rewrite Hc. simpl. destruct strategy as [[| |N]|]; simpl; lia. }
  2:{ simpl. rewrite Hc. simpl. destruct strategy as [[| |N]|]; simpl; lia. }
  destruct strategy as [[| |N]|]; simpl; try (rewrite Hc; simpl; lia).
  destruct (retry_loop_bounded JSON_parse tools client N fuel 0 w2) as [Hb _].
  cbv zeta in Hb. rewrite Hc, Z.sub_0_r in Hb. simpl in Hb. lia.
Qed.

Lemma respond_completions_bounded_witness :
  fst (Gateway.respond Gateway.parse_number 3 (Some (Gateway.kind_retryAll 2))
         Calls.overreaching {[ "add" := Calls.add_tool ]} (Gateway.fresh 0))
    <> OutOfFuel /\
  (Gateway.calls (Gateway.fresh 0) <
   Gateway.calls
     (snd (Gateway.respond Gateway.parse_number 3 (Some (Gateway.kind_retryAll 2))
             Calls.overreaching {[ "add" := Calls.add_tool ]} (Gateway.fresh 0))) <=
   Gateway.calls (Gateway.fresh 0) +
     Calls.completions_bound (Some (Gateway.kind_retryAll 2)))%nat.
Proof.
  apply (respond_completions_bounded Gateway.parse_number 3
           (Some (Gateway.kind_retryAll 2)) Calls.overreaching
           {[ "add" := Calls.add_tool ]} (Gateway.fresh 0)).
  intros N HN. injection HN as <-. vm_compute. lia.
Defined.



Section GatewayRetries.

Import Gateway.

Context {JSON S : Type} (JSON_parse : string -> option JSON).

Local Abbreviation handlers_of tools :=
  (map_imap (fun name t => Some (_transformTool JSON_parse name t)) tools).

Lemma retry_loop_repeats (tools : gmap string (@ToolDefinition JSON S))
    (client : nat -> Completion) (r : Response) (choice : Choice)
    (rest : list Choice) (toolCalls : list ToolCall) (maxRetries : Z) (fuel : nat) :
  (forall n, client n = Completed r) ->
  choices r = choice :: rest ->
  tool_calls choice = Some toolCalls ->
  existsb (aborts tools) toolCalls = false ->
  Exists (Calls.foreign tools) toolCalls ->
  forall (retryCount : Z) (w : @AgentWorld S),
    0 <= retryCount <= maxRetries ->
    (Z.to_nat (maxRetries - retryCount) < fuel)%nat ->
    let run := retry_loop fuel maxRetries client (handlers_of tools) retryCount w in
    (exists msg, fst run = Throw msg) /\
    calls (snd run) = (calls w + Z.to_nat (maxRetries - retryCount) + 1)%nat /\
    user (snd run) =
      Nat.iter (Z.to_nat (maxRetries - retryCount) + 1)
               (Calls.apply_calls JSON_parse tools toolCalls) (user w).
Proof.
  intros Hclient Hc Ht Hab Hex.
  induction fuel as [|fuel IH]; intros retryCount w Hrc Hfuel; [lia|].
  cbv zeta. cbn [retry_loop]. unfold _respond. rewrite Hclient.
  set (w1 := {| user := user w; calls := Datatypes.S (calls w); ran := ran w |}).
  pose proof (verify_runs JSON_parse tools r choice rest toolCalls w1 Hc Ht) as Hv.
  cbv zeta in Hv. destruct Hv as (Hu & Hcalls & _ & Hforeign).
  destruct (Hforeign Hab Hex) as [verification Hverification].
  destruct (_verifyAndCallHandlers r (handlers_of tools) w1) as [v w2].
  simpl in Hu, Hcalls, Hverification. subst v.
  destruct (Z.leb_spec (retryCount + 1) maxRetries) as [Hle|Hgt].
  - destruct (IH (retryCount + 1) w2) as (Hthrow & Hcalls' & Huser'); [lia|lia|].
    split; [exact Hthrow|]. split.
    + rewrite Hcalls', Hcalls. simpl. lia.
    + rewrite Huser', Hu. simpl user.
      replace (Z.to_nat (maxRetries - retryCount) + 1)%nat
        with (Datatypes.S (Z.to_nat (maxRetries - (retryCount + 1)) + 1)) by lia.
      rewrite Nat.iter_succ_r. reflexivity.
  - replace (Z.to_nat (maxRetries - retryCount)) with 0%nat by lia.
    cbn [fst snd]. split; [eexists; reflexivity|].
    split; [rewrite Hcalls; simpl; lia|]. rewrite Hu. reflexivity.
Qed.

End GatewayRetries.

(** X17. Under "retryAll" every retry runs the handlers again.  When no
    tool is named [__proto__], the model keeps sending the same message,
    that message holds a call that leaves an error whatever the state
    -- a call that is not a function call, or a call of a tool that was
    not offered, the inherited name [constructor] and a non-function
    call named [__proto__] apart -- and none of its calls ends the loop
    by a TypeError, then [respond] throws after [maxRetries + 2]
    completions, and by then the handlers of the message's other calls
    have been applied to the state [maxRetries + 2] times over. *)
Theorem respond_retryAll_repeats_handlers {JSON S : Type}
    (JSON_parse : string -> option JSON) (fuel : nat) (N : Z)
    (client : nat -> Gateway.Completion)
    (tools : gmap string (@Gateway.ToolDefinition JSON S))
    (w : @Gateway.AgentWorld S) (r : Gateway.Response) (choice : Gateway.Choice)
    (rest : list Gateway.Choice) (toolCalls : list Gateway.ToolCall) :
  tools !! "__proto__" = None ->
  (forall n, client n = Gateway.Completed r) ->
  Gateway.choices r = choice :: rest ->
  Gateway.tool_calls choice = Some toolCalls ->
  existsb (Gateway.aborts tools) toolCalls = false ->
  Exists (Calls.foreign tools) toolCalls ->
  0 <= N ->
  (Z.to_nat N < fuel)%nat ->
  let run := Gateway.respond JSON_parse fuel (Some (Gateway.kind_retryAll N))
               client tools w in
  (exists msg, fst run = Throw msg) /\
  Gateway.calls (snd run) = (Gateway.calls w + Z.to_nat N + 2)%nat /\
  Gateway.user (snd run) =
    Nat.iter (Z.to_nat N + 2) (Calls.apply_calls JSON_parse tools toolCalls)
             (Gateway.user w).
Proof.
  intros _ Hclient Hc Ht Hab Hex HN Hfuel. cbv zeta.
  unfold Gateway.respond, Gateway._respond. rewrite Hclient.
  set (w1 := {| Gateway.user := Gateway.user w;
                Gateway.calls := Datatypes.S (Gateway.calls w);
                Gateway.ran := Gateway.ran w |}).
  pose proof (verify_runs JSON_parse tools r choice rest toolCalls w1 Hc Ht) as Hv.
  cbv zeta in Hv. destruct Hv as (Hu & Hcalls & _ & Hforeign).
  destruct (Hforeign Hab Hex) as [verification Hverification].
  destruct (Gateway._verifyAndCallHandlers r _ w1) as [v w2].
  simpl in Hu, Hcalls, Hverification. subst v.
  destruct (retry_loop_repeats JSON_parse tools client r choice rest toolCalls N fuel
              Hclient Hc Ht Hab Hex 0 w2) as (Hthrow & Hcalls' & Huser'); [lia| |].
  { rewrite Z.sub_0_r. exact Hfuel. }
  rewrite Z.sub_0_r in Hcalls', Huser'.
  split; [exact Hthrow|]. split.
  - rewrite Hcalls', Hcalls. simpl. lia.
  - rewrite Huser', Hu. simpl Gateway.user.
    replace (Z.to_nat N + 2)%nat with (Datatypes.S (Z.to_nat N + 1)) by lia.
    rewrite Nat.iter_succ_r. reflexivity.
Qed.

Lemma respond_retryAll_repeats_handlers_witness :
  (exists msg,
     fst (Gateway.respond Gateway.parse_number 3 (Some (Gateway.kind_retryAll 2))
            Calls.overreaching {[ "add" := Calls.add_tool ]} (Gateway.fresh 0)) =
     Throw msg) /\
  Gateway.calls
    (snd (Gateway.respond Gateway.parse_number 3 (Some (Gateway.kind_retryAll 2))
            Calls.overreaching {[ "add" := Calls.add_tool ]} (Gateway.fresh 0))) =
    4%nat /\
  Gateway.user
    (snd (Gateway.respond Gateway.parse_number 3 (Some (Gateway.kind_retryAll 2))
            Calls.overreaching {[ "add" := Calls.add_tool ]} (Gateway.fresh 0))) = 4.
Proof.
  destruct (respond_retryAll_repeats_handlers Gateway.parse_number 3 2
              Calls.overreaching {[ "add" := Calls.add_tool ]} (Gateway.fresh 0)
              {| Gateway.choices :=
                   [ {| Gateway.tool_calls :=
                          Some [ Gateway.FunctionCall "add" "1";
                                 Gateway.FunctionCall "missing" "1" ] |} ] |}
              {| Gateway.tool_calls :=
                   Some [ Gateway.FunctionCall "add" "1";
                          Gateway.FunctionCall "missing" "1" ] |}
              []
              [ Gateway.FunctionCall "add" "1"; Gateway.FunctionCall "missing" "1" ])
    as (Hthrow & Hcalls & Huser).
  - reflexivity.
  - intros n. reflexivity.
  - reflexivity.
  - reflexivity.
  - reflexivity.
  - right. left. split; [reflexivity|left; reflexivity].
  - lia.
  - vm_compute. lia.
  - split; [exact Hthrow|]. split; [rewrite Hcalls|rewrite Huser]; reflexivity.
Defined.

(** X18. An empty list of tool calls passes the verification: when the
    model's first message has [tool_calls: []], [respond] returns
    normally under every strategy after that one completion, and no
    handler has run. *)
Theorem respond_accepts_no_calls {JSON S : Type}
    (JSON_parse : string -> option JSON) (fuel : nat)
    (strategy : option Gateway.ResolutionStrategy)
    (client : nat -> Gateway.Completion)
    (tools : gmap string (@Gateway.ToolDefinition JSON S))
    (w : @Gateway.AgentWorld S) (r : Gateway.Response) (choice : Gateway.Choice)
    (rest : list Gateway.Choice) :
  client (Gateway.calls w) = Gateway.Completed r ->
  Gateway.choices r = choice :: rest ->
  Gateway.tool_calls choice = Some [] ->
  Gateway.respond JSON_parse fuel strategy client tools w =
    (Return tt,
     {| Gateway.user := Gateway.user w;
        Gateway.calls := Datatypes.S (Gateway.calls w);
        Gateway.ran := Gateway.ran w |}).
Proof.
  intros Hclient Hc Ht.
  unfold Gateway.respond, Gateway._respond, Gateway._verifyAndCallHandlers.
  rewrite Hclient, Hc, Ht. cbn [Gateway.call_handlers].
  rewrite map_to_list_empty. reflexivity.
Qed.

Lemma respond_accepts_no_calls_witness :
  Gateway.respond Gateway.parse_number 0 (Some Gateway.kind_throw) Calls.idle
    {[ "add" := Calls.add_tool ]} (Gateway.fresh 0) =
    (Return tt,
     {| Gateway.user := 0; Gateway.calls := 1; Gateway.ran := [] |}).
Proof.
  apply (respond_accepts_no_calls Gateway.parse_number 0 (Some Gateway.kind_throw)
           Calls.idle {[ "add" := Calls.add_tool ]} (Gateway.fresh 0)
           {| Gateway.choices := [ {| Gateway.tool_calls := Some [] |} ] |}
           {| Gateway.tool_calls := Some [] |} []).
  - reflexivity.
  - reflexivity.
  - reflexivity.
Defined.

Lemma respond_retryAll_attempts_witness :
  exists msg,
    Gateway.respond Gateway.parse_number 4 (Some (Gateway.kind_retryAll 3))
      Gateway.silent {[ "selectDocument" := Gateway.select_tool ]} (Gateway.fresh 0) =
    (Throw msg,
     {| Gateway.user := 0; Gateway.calls := 5; Gateway.ran := [] |}).
Proof.
  apply (respond_retryAll_attempts Gateway.parse_number Gateway.silent
           {[ "selectDocument" := Gateway.select_tool ]} 3 4 (Gateway.fresh 0)).
  - intros n. eexists. split; reflexivity.
  - lia.
  - vm_compute. lia.
Defined.

(** ** [parseResponse] *)

Section TooledFacts.

Context {JSON : Type} (JSON_parse : string -> option JSON).

Lemma parse_calls_cons (tools : gmap string (@Tooled.Schema JSON))
    (tc : Gateway.ToolCall) (rest : list Gateway.ToolCall)
    (results : gmap string JSON) :
  Tooled.parse_calls JSON_parse tools (tc :: rest) results =
    match Tooled.check JSON_parse tools tc with
    | inl failure => inl failure
    | inr (name, args) =>
        Tooled.parse_calls JSON_parse tools rest (<[name := args]> results)
    end.
Proof.
  destruct tc as [name arguments|name]; [|reflexivity].
  simpl. destruct (tools !! name) as [tool|]; [|reflexivity].
  destruct (JSON_parse arguments) as [argsJson|]; [|reflexivity].
  destruct (tool argsJson) as [args|]; reflexivity.
Qed.

Lemma parse_calls_returns (tools : gmap string (@Tooled.Schema JSON))
    (toolCalls : list Gateway.ToolCall) :
  forall results results' : gmap string JSON,
    Tooled.parse_calls JSON_parse tools toolCalls results = inr results' ->
    Forall (Tooled.passes JSON_parse tools) toolCalls /\
    forall name,
      results' !! name =
        match last (omap (Tooled.contributes JSON_parse tools name) toolCalls) with
        | Some args => Some args
        | None => results !! name
        end.
Proof.
  induction toolCalls as [|tc toolCalls IH] using rev_ind; intros results results'.
  - simpl. intros Heq. injection Heq as <-. split; [constructor|reflexivity].
  - revert results results'.
    assert (Hsnoc : forall results,
               Tooled.parse_calls JSON_parse tools (toolCalls ++ [tc]) results =
               match Tooled.parse_calls JSON_parse tools toolCalls results with
               | inl failure => inl failure
               | inr mid => Tooled.parse_calls JSON_parse tools [tc] mid
               end).
    { clear IH. induction toolCalls as [|tc0 toolCalls IH0]; intros results.
      - reflexivity.
      - rewrite <- app_comm_cons, !parse_calls_cons.
        destruct (Tooled.check JSON_parse tools tc0) as [failure|[name args]];
          [reflexivity|apply IH0]. }
    intros results results'. rewrite Hsnoc.
    destruct (Tooled.parse_calls JSON_parse tools toolCalls results) as [failure|mid]
      eqn:Hmid; [discriminate|].
    destruct (IH results mid Hmid) as [Hall Hlook].
    rewrite parse_calls_cons.
    destruct (Tooled.check JSON_parse tools tc) as [failure|[name args]] eqn:Hcheck;
      [discriminate|].
    simpl. intros Heq. injection Heq as <-. split.
    + apply Forall_app. split; [exact Hall|].
      constructor; [|constructor]. exists name, args. exact Hcheck.
    + intros key. rewrite omap_app. simpl omap.
      unfold Tooled.contributes at 2. rewrite Hcheck.
      destruct (decide (name = key)) as [->|Hne].
      * rewrite last_snoc, lookup_insert_eq. reflexivity.
      * rewrite app_nil_r, lookup_insert_ne by exact Hne. apply Hlook.
Qed.

Lemma parse_calls_fails (tools : gmap string (@Tooled.Schema JSON))
    (good : list Gateway.ToolCall) (bad : Gateway.ToolCall)
    (rest : list Gateway.ToolCall) (failure : Tooled.Failure) :
  Forall (Tooled.passes JSON_parse tools) good ->
  Tooled.check JSON_parse tools bad = inl failure ->
  forall results,
    Tooled.parse_calls JSON_parse tools (good ++ bad :: rest) results = inl failure.
Proof.
  intros Hgood Hbad. induction Hgood as [|tc good (name & args & Hcheck) _ IH];
    intros results.
  - simpl app. rewrite parse_calls_cons, Hbad. reflexivity.
  - rewrite <- app_comm_cons, parse_calls_cons, Hcheck. apply IH.
Qed.

End TooledFacts.

(** X19. What [parseResponse] returns.  If it returns at all, the
    response has a first choice with a list of tool calls, every call in
    that list is a function call of an offered tool whose argument text
    parsed and passed the tool's schema, and the object returned holds,
    under each tool name, the parsed arguments of the last call of that
    tool and nothing under a name that was not called: of two calls of
    one tool the caller sees only the second. *)
Theorem parseResponse_last_call_wins {JSON : Type}
    (JSON_parse : string -> option JSON) (response : Gateway.Response)
    (tools : gmap string (@Tooled.Schema JSON)) (results : gmap string JSON) :
  Tooled.parseResponse JSON_parse response tools = inr results ->
  exists choice rest toolCalls,
    Gateway.choices response = choice :: rest /\
    Gateway.tool_calls choice = Some toolCalls /\
    Forall (Tooled.passes JSON_parse tools) toolCalls /\
    forall name,
      results !! name =
        last (omap (Tooled.contributes JSON_parse tools name) toolCalls).
Proof.
  unfold Tooled.parseResponse.
  destruct (Gateway.choices response) as [|choice rest]; [discriminate|].
  destruct (Gateway.tool_calls choice) as [toolCalls|] eqn:Ht; [|discriminate].
  intros Hparse. exists choice, rest, toolCalls.
  split; [reflexivity|]. split; [exact Ht|].
  destruct (parse_calls_returns JSON_parse tools toolCalls ∅ results Hparse)
    as [Hall Hlook].
  split; [exact Hall|]. intros name. rewrite Hlook, lookup_empty.
  destruct (last _); reflexivity.
Qed.

Lemma parseResponse_last_call_wins_witness :
  exists choice rest toolCalls,
    Gateway.choices Tooled.undecided = choice :: rest /\
    Gateway.tool_calls choice = Some toolCalls /\
    Forall (Tooled.passes Gateway.parse_number
              {[ "selectDocument" := Tooled.number_schema ]}) toolCalls /\
    forall name,
      ({[ "selectDocument" := -1 ]} : gmap string Z) !! name =
        last (omap (Tooled.contributes Gateway.parse_number
                      {[ "selectDocument" := Tooled.number_schema ]} name)
                   toolCalls).
Proof.
  apply (parseResponse_last_call_wins Gateway.parse_number Tooled.undecided
           {[ "selectDocument" := Tooled.number_schema ]}
           {[ "selectDocument" := -1 ]}).
  vm_compute. reflexivity.
Defined.

(** X20. [parseResponse] throws at the first tool call that does not
    pass, with that call's failure, whatever follows it in the message;
    nothing of the calls before it is returned. *)
Theorem parseResponse_fails_at_first {JSON : Type}
    (JSON_parse : string -> option JSON) (response : Gateway.Response)
    (tools : gmap string (@Tooled.Schema JSON)) (choice : Gateway.Choice)
    (others : list Gateway.Choice) (good : list Gateway.ToolCall)
    (bad : Gateway.ToolCall) (rest : list Gateway.ToolCall)
    (failure : Tooled.Failure) :
  Gateway.choices response = choice :: others ->
  Gateway.tool_calls choice = Some (good ++ bad :: rest) ->
  Forall (Tooled.passes JSON_parse tools) good ->
  Tooled.check JSON_parse tools bad = inl failure ->
  Tooled.parseResponse JSON_parse response tools = inl failure /\
  Tooled.respond JSON_parse (Gateway.Completed response) tools = inl (inr failure).
Proof.
  intros Hc Ht Hgood Hbad.
  assert (Hparse : Tooled.parseResponse JSON_parse response tools = inl failure).
  { unfold Tooled.parseResponse. rewrite Hc, Ht.
    apply parse_calls_fails; assumption. }
  split; [exact Hparse|]. unfold Tooled.respond. rewrite Hparse. reflexivity.
Qed.

Lemma parseResponse_fails_at_first_witness :
  Tooled.parseResponse Gateway.parse_number Tooled.garbled
    {[ "selectDocument" := Tooled.number_schema ]} =
    inl (Tooled.UnknownTool "missing") /\
  Tooled.respond Gateway.parse_number (Gateway.Completed Tooled.garbled)
    {[ "selectDocument" := Tooled.number_schema ]} =
    inl (inr (Tooled.UnknownTool "missing")).
Proof.
  apply (parseResponse_fails_at_first Gateway.parse_number Tooled.garbled
           {[ "selectDocument" := Tooled.number_schema ]}
           {| Gateway.tool_calls :=
                Some [ Gateway.FunctionCall "selectDocument" "1";
                       Gateway.FunctionCall "missing" "1";
                       Gateway.FunctionCall "selectDocument" "one" ] |}
           []
           [ Gateway.FunctionCall "selectDocument" "1" ]
           (Gateway.FunctionCall "missing" "1")
           [ Gateway.FunctionCall "selectDocument" "one" ]
           (Tooled.UnknownTool "missing")).
  - reflexivity.
  - reflexivity.
  - constructor; [|constructor]. exists "selectDocument", 1. reflexivity.
  - reflexivity.
Defined.

(** ** The usage counters *)

Section AccountingFacts.

Import Accounting.

Context {AgentConfig : Type}.

Lemma count_lookup (image : bool) (a : @Agent AgentConfig)
    (response : ChatCompletion) (h : Heap) (old : Usage) :
  h !! usage a = Some old ->
  count image a response h !! usage a =
    Some match response_usage response with
         | None => old
         | Some u =>
             {| inputTokens := inputTokens old + prompt_tokens u;
                outputTokens := outputTokens old + completion_tokens u;
                images := if image then images old + 1 else images old |}
         end.
Proof.
  intros Hold. unfold count.
  destruct (response_usage response) as [u|]; [|exact Hold].
  rewrite Hold. apply list_lookup_insert_eq. eapply lookup_lt_Some, Hold.
Qed.

Lemma count_other (image : bool) (a : @Agent AgentConfig)
    (response : ChatCompletion) (h : Heap) (l : nat) :
  l <> usage a -> count image a response h !! l = h !! l.
Proof.
  intros Hne. unfold count.
  destruct (response_usage response) as [u|]; [|reflexivity].
  destruct (h !! usage a) as [old|]; [|reflexivity].
  apply list_lookup_insert_ne. congruence.
Qed.

Lemma serve_lookup (a : @Agent AgentConfig) (req : Request) (h : Heap)
    (old : Usage) :
  h !! usage a = Some old ->
  serve a h req !! usage a =
    Some match billed req with
         | None => old
         | Some u =>
             {| inputTokens := inputTokens old + prompt_tokens u;
                outputTokens := outputTokens old + completion_tokens u;
                images := if is_image req then images old + 1 else images old |}
         end.
Proof.
  intros Hold. destruct req as [[response|msg]|[response|msg]]; simpl;
    try exact Hold.
  - destruct (contents response); simpl; apply count_lookup, Hold.
  - apply count_lookup, Hold.
Qed.

Lemma serve_other (a : @Agent AgentConfig) (req : Request) (h : Heap) (l : nat) :
  l <> usage a -> serve a h req !! l = h !! l.
Proof.
  intros Hne. destruct req as [[response|msg]|[response|msg]]; simpl;
    try reflexivity.
  - destruct (contents response); simpl; apply count_other, Hne.
  - apply count_other, Hne.
Qed.

End AccountingFacts.

(** X21. The counters add up over any sequence of requests.  After the
    image and chat requests [reqs], the agent's usage object holds the
    old token counts plus the prompt and completion tokens of every
    request whose completion came with a usage, and [images] has grown
    by the number of such image requests -- also of those that then
    threw for want of a choice; every other usage object is as it
    was. *)
Theorem usage_adds_up {AgentConfig : Type} (a : @Accounting.Agent AgentConfig)
    (reqs : list Accounting.Request) (h : Accounting.Heap) (old : Accounting.Usage) :
  h !! Accounting.usage a = Some old ->
  Accounting.serve_all a reqs h !! Accounting.usage a =
    Some {| Accounting.inputTokens :=
              Accounting.inputTokens old +
              Accounting.total Accounting.prompt_tokens reqs;
            Accounting.outputTokens :=
              Accounting.outputTokens old +
              Accounting.total Accounting.completion_tokens reqs;
            Accounting.images :=
              Accounting.images old + Accounting.billed_images reqs |} /\
  forall l, l <> Accounting.usage a ->
            Accounting.serve_all a reqs h !! l = h !! l.
Proof.
  unfold Accounting.serve_all. revert h old.
  induction reqs as [|req reqs IH]; intros h old Hold.
  - simpl. split; [|reflexivity]. rewrite Hold. destruct old. simpl.
    rewrite !Z.add_0_r. reflexivity.
  - cbn [fold_left].
    pose proof (serve_lookup a req h old Hold) as Hserve.
    destruct (IH _ _ Hserve) as [Hmine Hothers]. split.
    + rewrite Hmine. unfold Accounting.total, Accounting.billed_images.
      cbn [foldr].
      fold (Accounting.total Accounting.prompt_tokens reqs).
      fold (Accounting.total Accounting.completion_tokens reqs).
      fold (Accounting.billed_images reqs).
      destruct (Accounting.billed req) as [u|]; [|reflexivity].
      destruct (Accounting.is_image req); simpl; f_equal; f_equal; lia.
    + intros l Hne. rewrite (Hothers l Hne). apply serve_other, Hne.
Qed.

Lemma usage_adds_up_witness :
  Accounting.serve_all Accounting.test_agent
    [ Accounting.ParseImage Accounting.choiceless;
      Accounting.Respond Accounting.choiceless;
      Accounting.ParseImage Accounting.unbilled;
      Accounting.ParseImage (Accounting.Rejected "API Error") ]
    Accounting.test_heap !! 0%nat =
    Some {| Accounting.inputTokens := 120;
            Accounting.outputTokens := 240;
            Accounting.images := 6 |}.
Proof.
  apply (usage_adds_up Accounting.test_agent
           [ Accounting.ParseImage Accounting.choiceless;
             Accounting.Respond Accounting.choiceless;
             Accounting.ParseImage Accounting.unbilled;
             Accounting.ParseImage (Accounting.Rejected "API Error") ]
           Accounting.test_heap
           {| Accounting.inputTokens := 100;
              Accounting.outputTokens := 200;
              Accounting.images := 5 |}).
  reflexivity.
Defined.

(** X22. [fromJSON(agent.toJSON())] gives an agent that serializes to
    the same object, and that shares the usage object of the agent it
    came from: what the copy is billed shows in the counters of the
    original.  (The usage object the copy's constructor allocated is
    dropped.) *)
Theorem fromJSON_shares_usage {AgentConfig : Type}
    (a : @Accounting.Agent AgentConfig) (h : Accounting.Heap)
    (old : Accounting.Usage) (req : Accounting.Request)
    (u : Accounting.CompletionUsage) :
  h !! Accounting.usage a = Some old ->
  Accounting.billed req = Some u ->
  let copy := fst (Accounting.fromJSON (Accounting.toJSON a) h) in
  let h1 := snd (Accounting.fromJSON (Accounting.toJSON a) h) in
  Accounting.toJSON copy = Accounting.toJSON a /\
  h1 !! Accounting.usage a = Some old /\
  Accounting.serve copy h1 req !! Accounting.usage a =
    Some {| Accounting.inputTokens :=
              Accounting.inputTokens old + Accounting.prompt_tokens u;
            Accounting.outputTokens :=
              Accounting.outputTokens old + Accounting.completion_tokens u;
            Accounting.images :=
              if Accounting.is_image req then Accounting.images old + 1
              else Accounting.images old |}.
Proof.
  intros Hold Hbilled. cbv zeta. unfold Accounting.fromJSON, Accounting.new_Agent.
  cbn [fst snd Accounting.toJSON Accounting.json_config Accounting.json_usage
       Accounting.config].
  split; [reflexivity|].
  assert (Hh1 : (h ++ [ {| Accounting.inputTokens := 0; Accounting.outputTokens := 0;
                           Accounting.images := 0 |} ]) !! Accounting.usage a =
                Some old).
  { apply lookup_app_l_Some, Hold. }
  split; [exact Hh1|].
  pose proof (serve_lookup
                {| Accounting.config := Accounting.config a;
                   Accounting.usage := Accounting.usage a |} req _ old Hh1) as Hs.
  rewrite Hbilled in Hs. exact Hs.
Qed.

Lemma fromJSON_shares_usage_witness :
  Accounting.toJSON
    (fst (Accounting.fromJSON (Accounting.toJSON Accounting.test_agent)
            Accounting.test_heap)) =
    Accounting.toJSON Accounting.test_agent /\
  snd (Accounting.fromJSON (Accounting.toJSON Accounting.test_agent)
         Accounting.test_heap) !! 0%nat =
    Some {| Accounting.inputTokens := 100; Accounting.outputTokens := 200;
            Accounting.images := 5 |} /\
  Accounting.serve
    (fst (Accounting.fromJSON (Accounting.toJSON Accounting.test_agent)
            Accounting.test_heap))
    (snd (Accounting.fromJSON (Accounting.toJSON Accounting.test_agent)
            Accounting.test_heap))
    (Accounting.ParseImage Accounting.choiceless) !! 0%nat =
    Some {| Accounting.inputTokens := 110; Accounting.outputTokens := 220;
            Accounting.images := 6 |}.
Proof.
  apply (fromJSON_shares_usage Accounting.test_agent Accounting.test_heap
           {| Accounting.inputTokens := 100; Accounting.outputTokens := 200;
              Accounting.images := 5 |}
           (Accounting.ParseImage Accounting.choiceless)
           {| Accounting.prompt_tokens := 10; Accounting.completion_tokens := 20 |}).
  - reflexivity.
  - reflexivity.
Defined.

(** ** A split followed by the merge check *)

Lemma get_after_split (s : InMemoryKnowledgeStorage) (doc : Document)
    (parts : list Piece) (key : Z) :
  let c := id s in
  let heading := {| h_id := d_id doc; h_parentId := d_parentId doc;
                    refs := split_refs c parts |} in
  let s' := Storage.setMany {| storage := storage s;
                               id := c + Z.of_nat (length parts) |}
              (split_docs c (d_id doc) parts ++ [H heading]) in
  (key = d_id doc -> Storage.get s' key = H heading) /\
  (key <> d_id doc -> key < c -> Storage.get s' key = Storage.get s key).
Proof.
  cbv zeta. split.
  - intros ->. rewrite setMany_app.
    change (Storage.setMany ?s0 [?n]) with (Storage.set s0 n).
    rewrite get_set. rewrite decide_True by reflexivity. reflexivity.
  - intros Hne Hlt. unfold Storage.get. rewrite lookup_setMany_other; [reflexivity|].
    apply Forall_app. split.
    + pose proof (split_docs_ids (d_id doc) parts (id s)) as Hids.
      eapply Forall_impl; [exact Hids|]. intros n Hn. simpl in Hn. lia.
    + constructor; [|constructor]. simpl. congruence.
Qed.

(** X23. A split is followed by a merge check in which the node just
    split counts for nothing.  When the leaf, edited beyond the limit,
    has been split under the parent Heading [ph], and the other children
    of [ph] total less than half the limit, the same [update] issues the
    merge round for [ph]; the oracle is shown the texts of the other
    children and the empty string in place of the child just split. *)
Theorem update_split_then_merge (self : Knowledge) (fuel : nat) (q : string)
    (w : World) (doc : Document) (ph : Heading) (summary : string)
    (w2 w3 : World) (ud : Document) (parts : list Piece) :
  _findLeaf self fuel q
    (log (EvGet ROOT_DOC_ID (Storage.get (store w) ROOT_DOC_ID)) w) =
    (Return (doc, Some ph), w2) ->
  edit_phase self q doc w2 = (Return summary, w3) ->
  Storage.get (store w3) (d_id doc) = D ud ->
  content_length ud > maxDocumentSizeChars (config self) ->
  on_splitDocument (agent self) (rounds w3) (k (config self)) (content ud) =
    mkReply [parts] None ->
  Forall (fun r => ref_id r < id (store w3)) (refs ph) ->
  2 * others_size (store w3) ph (d_id doc) < maxDocumentSizeChars (config self) ->
  exists (shown : list string) (w5 : World),
    update self fuel q w =
      (_ <- respond mergeDocuments
              (fun n => on_mergeDocuments (agent self) n shown)
              (mergeDocuments_handler ph) tt ;;
       ret summary) w5 /\
    In (EvRespond splitDocument) (new_events w3 w5) /\
    In (EvRespond mergeDocuments)
       (new_events w5 (snd (update self fuel q w))) /\
    length shown = length (refs ph) /\
    forall (i : nat) (r : Ref),
      refs ph !! i = Some r ->
      shown !! i = Some (if decide (ref_id r = d_id doc) then ""
                         else sibling_text (store w3) (ref_id r)).
Proof.
  intros Hleaf Hedit Hget Hbig Hreply Hrefs Hsmall.
  destruct (findLeaf_needs_root self fuel q w _ w2 Hleaf) as [Hroot _].
  pose proof (split_phase_oversized self doc ud w3 parts Hget Hbig Hreply) as Hsplit.
  cbv zeta in Hsplit.
  set (heading := {| h_id := d_id doc; h_parentId := d_parentId doc;
                     refs := split_refs (id (store w3)) parts |}) in *.
  set (docs := split_docs (id (store w3)) (d_id doc) parts ++ [H heading]) in *.
  set (s4 := Storage.setMany {| storage := storage (store w3);
                                id := id (store w3) + Z.of_nat (length parts) |}
               docs) in *.
  set (w4 := {| store := s4;
                trace := rev (map EvSet docs) ++
                         rev (map (fun r => EvGenerateId (ref_id r))
                                  (split_refs (id (store w3)) parts)) ++
                         EvRespond splitDocument :: EvGet (d_id doc) (D ud) ::
                         trace w3 |}) in *.
  pose proof (get_after_split (store w3) doc parts) as Hafter. cbv zeta in Hafter.
  fold heading in Hafter. fold docs in Hafter. fold s4 in Hafter.
  assert (Hsize : children_size s4 ph = others_size (store w3) ph (d_id doc)).
  { unfold children_size, others_size. revert Hrefs.
    generalize (refs ph) as rs. intros rs Hrs.
    induction Hrs as [|r rs Hr _ IH]; [reflexivity|].
    cbn [foldr]. rewrite IH. f_equal. unfold document_size.
    destruct (decide (ref_id r = d_id doc)) as [Heq|Hne].
    - rewrite (proj1 (Hafter (ref_id r)) Heq). reflexivity.
    - rewrite (proj2 (Hafter (ref_id r)) Hne Hr). reflexivity. }
  set (fetched := {| store := s4;
                     trace := rev (map (fun i => EvGet i (Storage.get s4 i))
                                       (map ref_id (refs ph))) ++ trace w4 |}).
  set (shown := sibling_contents (Storage.getMany s4 (map ref_id (refs ph)))).
  assert (Hupdate : update self fuel q w =
            (_ <- respond mergeDocuments
                    (fun n => on_mergeDocuments (agent self) n shown)
                    (mergeDocuments_handler ph) tt ;;
             ret summary) fetched).
  { rewrite (update_phases self fuel q w doc (Some ph) summary w2 w3 Hroot Hleaf Hedit).
    unfold bind at 1. rewrite Hsplit.
    unfold bind at 1. rewrite merge_phase_eq. cbn [store w4]. rewrite Hsize.
    destruct (Z.ltb_spec (2 * others_size (store w3) ph (d_id doc))
                (maxDocumentSizeChars (config self))) as [_|Hge]; [|lia].
    reflexivity. }
  exists shown, fetched. split; [exact Hupdate|]. split; [|split; [|split]].
  - rewrite (new_events_app w3 fetched
               (rev (map (fun i => EvGet i (Storage.get s4 i)) (map ref_id (refs ph))) ++
                rev (map EvSet docs) ++
                rev (map (fun r => EvGenerateId (ref_id r))
                         (split_refs (id (store w3)) parts)) ++
                [EvRespond splitDocument; EvGet (d_id doc) (D ud)])).
    + apply in_or_app. right. apply in_or_app. right. apply in_or_app. right.
      left. reflexivity.
    + unfold fetched, w4. cbn [trace]. rewrite <- !app_assoc. reflexivity.
  - rewrite Hupdate, bind_ret_snd.
    destruct (respond_mergeDocuments_trace ph
                (fun n => on_mergeDocuments (agent self) n shown) fetched)
      as [new Hnew].
    rewrite (new_events_app fetched _ (new ++ [EvRespond mergeDocuments])).
    + apply in_or_app. right. left. reflexivity.
    + rewrite Hnew, <- app_assoc. reflexivity.
  - unfold shown, sibling_contents, Storage.getMany. rewrite !length_map. reflexivity.
  - intros i r Hi. unfold shown, sibling_contents, Storage.getMany.
    rewrite !list_lookup_fmap, Hi. cbn [fmap option_fmap option_map]. f_equal.
    rewrite Forall_forall in Hrefs.
    assert (Hr : ref_id r < id (store w3)).
    { apply Hrefs. eapply list_elem_of_lookup_2, Hi. }
    destruct (decide (ref_id r = d_id doc)) as [Heq|Hne].
    + rewrite (proj1 (Hafter (ref_id r)) Heq). reflexivity.
    + rewrite (proj2 (Hafter (ref_id r)) Hne Hr). reflexivity.
Qed.

Lemma update_split_then_merge_witness :
  exists (shown : list string) (w5 : World),
    update Interplay.growing 2 Interplay.request Examples.two_small_docs =
      (_ <- respond mergeDocuments
              (fun n => on_mergeDocuments (agent Interplay.growing) n shown)
              (mergeDocuments_handler Examples.small_root) tt ;;
       ret "Made document large") w5 /\
    In (EvRespond splitDocument) (new_events Interplay.rewritten w5) /\
    In (EvRespond mergeDocuments)
       (new_events w5 (snd (update Interplay.growing 2 Interplay.request
                              Examples.two_small_docs))) /\
    length shown = length (refs Examples.small_root) /\
    forall (i : nat) (r : Ref),
      refs Examples.small_root !! i = Some r ->
      shown !! i = Some (if decide (ref_id r = d_id Interplay.leaf) then ""
                         else sibling_text (store Interplay.rewritten) (ref_id r)).
Proof.
  apply (update_split_then_merge Interplay.growing 2 Interplay.request
           Examples.two_small_docs Interplay.leaf Examples.small_root
           "Made document large" Interplay.located Interplay.rewritten
           {| d_id := 1; d_parentId := Some 0;
              content := newDocument Examples.made_large |}
           Examples.two_parts).
  - reflexivity.
  - reflexivity.
  - reflexivity.
  - vm_compute. reflexivity.
  - reflexivity.
  - repeat constructor.
  - vm_compute. reflexivity.
Defined.

(** ** The constructor *)

(** X24. The constructor fills the caller's config object, once.  After
    it, [k], [maxDocumentSizeChars] and [storage] are all set: a value
    the caller gave is kept (also a [k] of 0), a missing one is the
    default, and a missing store is a new empty one with its counter
    at 1; no other config object is touched.  A second engine built on
    the same config object changes nothing, so it works on the store of
    the first. *)
Theorem constructor_fills_config_once (config : nat) (h : Construction.Heap)
    (c : Construction.ConfigObject) :
  Construction.configs h !! config = Some c ->
  let h1 := Construction.constructor config h in
  Construction.configs h1 !! config =
    Some {| Construction.k := Some (default DEFAULT_K (Construction.k c));
            Construction.maxDocumentSizeChars :=
              Some (default DEFAULT_MAX_DOCUMENT_SIZE_CHARS
                      (Construction.maxDocumentSizeChars c));
            Construction.storage :=
              Some (default (length (Construction.stores h))
                      (Construction.storage c)) |} /\
  (Construction.storage c = None ->
   Construction.stores h1 !! length (Construction.stores h) =
     Some (Storage.create ∅)) /\
  (forall other, other <> config ->
     Construction.configs h1 !! other = Construction.configs h !! other) /\
  Construction.constructor config h1 = h1.
Proof.
  intros Hc. cbv zeta.
  assert (Hlt : (config < length (Construction.configs h))%nat).
  { eapply lookup_lt_Some, Hc. }
  assert (Hfilled : forall c' h',
             Construction.configs h' !! config = Some c' ->
             is_Some (Construction.k c') ->
             is_Some (Construction.maxDocumentSizeChars c') ->
             is_Some (Construction.storage c') ->
             Construction.constructor config h' = h').
  { intros [k' max' storage'] [configs' stores'] Hc' [kv Hk] [mv Hm] [sv Hs].
    simpl in *. subst. unfold Construction.constructor. simpl. rewrite Hc'. simpl.
    f_equal. apply list_insert_id. exact Hc'. }
  remember (Construction.constructor config h) as h1 eqn:Hh1.
  unfold Construction.constructor in Hh1. rewrite Hc in Hh1.
  destruct c as [[kv|] [mv|] [sv|]]; simpl in Hh1; subst h1; simpl;
    (split; [apply list_lookup_insert_eq; exact Hlt|]);
    (split; [first [discriminate
                   |intros _; apply list_lookup_middle; reflexivity]|]);
    (split; [intros other Hne; apply list_lookup_insert_ne; congruence|]);
    (eapply Hfilled;
       [simpl; apply list_lookup_insert_eq; exact Hlt|simpl; eauto ..]).
Qed.

Lemma constructor_fills_config_once_witness :
  Construction.configs (Construction.constructor 1 Construction.bare) !! 1%nat =
    Some {| Construction.k := Some 0;
            Construction.maxDocumentSizeChars := Some 100000;
            Construction.storage := Some 0%nat |} /\
  Construction.constructor 1 (Construction.constructor 1 Construction.bare) =
    Construction.constructor 1 Construction.bare.
Proof.
  destruct (constructor_fills_config_once 1 Construction.bare
              {| Construction.k := Some 0;
                 Construction.maxDocumentSizeChars := None;
                 Construction.storage := None |})
    as (Hfilled & _ & _ & Hagain).
  - reflexivity.
  - split; [exact Hfilled|exact Hagain].
Defined.

(** ** [update] when the traversal fails *)

(** X25. [update] writes nothing before the traversal has found a leaf.
    When the root is not Empty and [_findLeaf] ends without a leaf --
    it throws, or it does not come back -- [update] ends the same way
    and the store is as it was. *)
Theorem update_fails_clean (self : Knowledge) (fuel : nat) (q : string)
    (w : World) :
  let w1 := log (EvGet ROOT_DOC_ID (Storage.get (store w) ROOT_DOC_ID)) w in
  (forall i, Storage.get (store w) ROOT_DOC_ID <> E i) ->
  (forall leaf, fst (_findLeaf self fuel q w1) <> Return leaf) ->
  store (snd (update self fuel q w)) = store w /\
  (forall msg, fst (_findLeaf self fuel q w1) = Throw msg ->
               fst (update self fuel q w) = Throw msg) /\
  (fst (_findLeaf self fuel q w1) = OutOfFuel ->
   fst (update self fuel q w) = OutOfFuel).
Proof.
  cbv zeta. intros Hroot Hfail.
  set (w1 := log (EvGet ROOT_DOC_ID (Storage.get (store w) ROOT_DOC_ID)) w) in *.
  pose proof (findLeaf_loop_inv self q fuel (ROOT_DOC_ID, None) w1) as Hinv.
  cbv zeta in Hinv. fold (_findLeaf self fuel q) in Hinv.
  destruct Hinv as (Hs & _).
  assert (Hupdate : update self fuel q w =
            match _findLeaf self fuel q w1 with
            | (Return leaf, w2) =>
                (let '(docToUpdate, parentHeading) := leaf in
                 shortUpdateDescription <- edit_phase self q docToUpdate ;;
                 _ <- split_phase self docToUpdate ;;
                 _ <- merge_phase self parentHeading ;;
                 ret shortUpdateDescription) w2
            | (Throw msg, w2) => (Throw msg, w2)
            | (OutOfFuel, w2) => (OutOfFuel, w2)
            end).
  { unfold update, bind at 1, storage_get. fold w1.
    destruct (Storage.get (store w) ROOT_DOC_ID) as [d|h|e] eqn:Hget;
      [reflexivity|reflexivity|].
    exfalso. apply (Hroot e). reflexivity. }
  rewrite Hupdate.
  destruct (_findLeaf self fuel q w1) as [[leaf|msg|] w2]; simpl in *.
  - exfalso. apply (Hfail leaf). reflexivity.
  - split; [exact Hs|].
    split; [intros msg' Heq; injection Heq as <-; reflexivity|discriminate].
  - split; [exact Hs|]. split; [discriminate|reflexivity].
Qed.

Lemma update_fails_clean_witness :
  store (snd (update Examples.merging 2 "a query" Examples.dangling)) =
    store Examples.dangling /\
  fst (update Examples.merging 2 "a query" Examples.dangling) = Throw NON_EXISTENT.
Proof.
  destruct (update_fails_clean Examples.merging 2 "a query" Examples.dangling)
    as (Hstore & Hthrow & _).
  - intros i. discriminate.
  - intros leaf. discriminate.
  - split; [exact Hstore|]. apply Hthrow. reflexivity.
Defined.

(** ** [update] when the oracle stays silent *)

Lemma findLeaf_loop_spins (self : Knowledge) (q : string) (h : Heading) (d : Z)
    (fuel : nat) :
  (forall n, on_selectDocument (agent self) n false h q = mkReply [] None) ->
  forall (parent : option Heading) (w : World),
    Storage.get (store w) d = H h ->
    fst (while fuel (findLeaf_body self q) (d, parent) w) = OutOfFuel.
Proof.
  intros Hsilent. induction fuel as [|fuel IH]; intros parent w Hget; [reflexivity|].
  rewrite while_S, findLeaf_body_eq, Hget. cbv zeta. rewrite Hsilent.
  simpl raised. simpl fired. simpl default.
  apply (IH (Some h) (log (EvRespond selectDocument) (log (EvGet d (H h)) w))).
  exact Hget.
Qed.

Lemma update_after_root (self : Knowledge) (fuel : nat) (q : string) (w : World) :
  (forall i, Storage.get (store w) ROOT_DOC_ID <> E i) ->
  update self fuel q w =
    match _findLeaf self fuel q
            (log (EvGet ROOT_DOC_ID (Storage.get (store w) ROOT_DOC_ID)) w) with
    | (Return leaf, w2) =>
        (let '(docToUpdate, parentHeading) := leaf in
         shortUpdateDescription <- edit_phase self q docToUpdate ;;
         _ <- split_phase self docToUpdate ;;
         _ <- merge_phase self parentHeading ;;
         ret shortUpdateDescription) w2
    | (Throw msg, w2) => (Throw msg, w2)
    | (OutOfFuel, w2) => (OutOfFuel, w2)
    end.
Proof.
  intros Hroot. unfold update, bind at 1, storage_get.
  destruct (Storage.get (store w) ROOT_DOC_ID) as [d|h|e] eqn:Hget;
    [reflexivity|reflexivity|].
  exfalso. apply (Hroot e). reflexivity.
Qed.

(** X26. [update] has no way out of a Heading at which the routing
    rounds return without firing [selectDocument]: [_findLeaf] keeps
    [docId], fetches the same Heading and asks again, so [update] does
    not return within any number of passes, and it writes nothing. *)
Theorem update_spins_when_silent (self : Knowledge) (q : string) (w0 : World)
    (n : nat) (d : Z) (parent : option Heading) (w : World) (h : Heading)
    (fuel : nat) :
  (forall i, Storage.get (store w0) ROOT_DOC_ID <> E i) ->
  iterate n (findLeaf_body self q) (ROOT_DOC_ID, None)
    (log (EvGet ROOT_DOC_ID (Storage.get (store w0) ROOT_DOC_ID)) w0) =
    Some ((d, parent), w) ->
  Storage.get (store w) d = H h ->
  (forall k, on_selectDocument (agent self) k false h q = mkReply [] None) ->
  fst (update self fuel q w0) = OutOfFuel /\
  store (snd (update self fuel q w0)) = store w0.
Proof.
  intros Hroot Hit Hget Hsilent.
  set (w1 := log (EvGet ROOT_DOC_ID (Storage.get (store w0) ROOT_DOC_ID)) w0) in *.
  assert (Hout : fst (_findLeaf self fuel q w1) = OutOfFuel).
  { unfold _findLeaf. destruct (Nat.le_gt_cases n fuel) as [Hle|Hgt].
    - pose proof (while_iterate (findLeaf_body self q) n (fuel - n) _ _ _ _ Hit)
        as Hw.
      replace (n + (fuel - n))%nat with fuel in Hw by lia.
      rewrite Hw. apply (findLeaf_loop_spins self q h d); assumption.
    - eapply iterate_out_of_fuel; [exact Hit|lia]. }
  pose proof (findLeaf_loop_inv self q fuel (ROOT_DOC_ID, None) w1) as Hinv.
  cbv zeta in Hinv. fold (_findLeaf self fuel q) in Hinv.
  destruct Hinv as (Hs & _).
  rewrite (update_after_root self fuel q w0 Hroot). fold w1.
  destruct (_findLeaf self fuel q w1) as [[leaf|msg|] w2]; simpl in Hout, Hs;
    try discriminate.
  split; [reflexivity|exact Hs].
Qed.

Lemma update_spins_when_silent_witness :
  fst (update Scenarios.tongue_tied 7 "anything" Examples.three_levels) = OutOfFuel /\
  store (snd (update Scenarios.tongue_tied 7 "anything" Examples.three_levels)) =
    store Examples.three_levels.
Proof.
  pose (root := Storage.get (store Examples.three_levels) ROOT_DOC_ID).
  pose (h := {| h_id := 1; h_parentId := Some 0;
                refs := [ {| ref_id := 3; short := "Doc 1" |};
                          {| ref_id := 4; short := "Doc 2" |} ] |}).
  apply (update_spins_when_silent Scenarios.tongue_tied "anything"
           Examples.three_levels 1 1
           (Some {| h_id := 0; h_parentId := None;
                    refs := [ {| ref_id := 1; short := "Topic A" |};
                              {| ref_id := 2; short := "Topic B" |} ] |})
           (log (EvRespond selectDocument)
              (log (EvGet 0 root) (log (EvGet ROOT_DOC_ID root) Examples.three_levels)))
           h 7).
  - intros i. discriminate.
  - reflexivity.
  - reflexivity.
  - intros k. reflexivity.
Defined.
